(** * Launch analyzer: review parsing, provider gateway, aggregation, orchestration

    A shallow embedding of the Go back end (models, CSV parser, aggregator,
    analysis service, provider client) and proofs of its specified
    properties.

    Conventions of the embedding:

    - Go [int] is the 64-bit two's-complement integer: a [Z] kept in range by
      [wrap64], which every arithmetic operation of the source applies.
    - Go [string] is a byte string: [string], whose characters are 8-bit.
    - Go [float64] is modelled by the rational a finite binary64 value
      denotes ([float64.t]); each operation is the exact rational operation
      followed by rounding to nearest, ties to even, on 53 significant bits.
    - A Go result pair [(v, err)] is a pair whose second component is
      [option error]; [None] is [nil].
    - Calls that leave the process (the HTTP round trip) thread an explicit
      network state that records every request sent. *)

From Stdlib Require Import ZArith QArith Qround Qpower Lia Lqa.
From Stdlib Require Import Ascii String DecimalString SpecFloat.
From stdpp Require Import base option list gmap strings.

Local Open Scope Z_scope.

(* ===================================================================== *)
(** * Part I. Definitions                                                 *)
(* ===================================================================== *)

(** ** Go machine integers *)

Module goint.

Definition min_int : Z := - 2 ^ 63.
Definition max_int : Z := 2 ^ 63 - 1.

(** Two's-complement reduction into [min_int .. max_int]. *)
Definition wrap64 (z : Z) : Z := (z + 2 ^ 63) mod 2 ^ 64 - 2 ^ 63.

Definition in_range (z : Z) : Prop := min_int <= z <= max_int.

(** [a + b] on [int]. *)
Definition add (a b : Z) : Z := wrap64 (a + b).

(** [x++] on [int]. *)
Definition incr (x : Z) : Z := wrap64 (x + 1).

(** [len(xs)]: a slice length always fits in [int]. *)
Definition len {A} (xs : list A) : Z := Z.of_nat (length xs).

End goint.

(** ** Go float64 *)

Module float64.

Local Open Scope Q_scope.

(** The rational denoted by a finite binary64 value, in lowest terms. *)
Definition t : Type := Q.

(** Round half to even, to an integer. *)
Definition rne (x : Q) : Z :=
  let f := Qfloor x in
  let r := x - inject_Z f in
  match Qcompare r (1 # 2) with
  | Lt => f
  | Gt => (f + 1)%Z
  | Eq => if Z.even f then f else (f + 1)%Z
  end.

(** [ilog2 x] is the binade of a positive [x]: [2^e <= x < 2^(e+1)]. *)
Definition ilog2 (x : Q) : Z :=
  if Qle_bool 1 x then Z.log2 (Qfloor x)
  else (- Z.log2_up (Qceiling (/ x)))%Z.

(** Rounding of a positive rational to 53 significant bits. *)
Definition round_pos (x : Q) : Q :=
  let u := 2 ^ (ilog2 x - 52) in
  inject_Z (rne (x / u)) * u.

(** Rounding to nearest binary64, ties to even.  The exponent range is
    not modelled: every value the program computes is a quotient,
    product or difference of converted 64-bit integers and stays far
    inside it. *)
Definition round (x : Q) : t :=
  match Qcompare x 0 with
  | Eq => 0
  | Gt => Qred (round_pos x)
  | Lt => Qred (- round_pos (- x))
  end.

(** The conversion [float64(n)] of an [int]. *)
Definition of_int (n : Z) : t := round (inject_Z n).

(** The untyped constants [0] and [100] of the source. *)
Definition zero : t := 0.
Definition hundred : t := 100.

Definition div (x y : t) : t := round (x / y).
Definition mul (x y : t) : t := round (x * y).
Definition sub (x y : t) : t := round (x - y).

End float64.

(** ** Data model (models file) *)

Record Review := {
  ID : string;
  Date : string;
  UserID : string;
  ReviewText : string;
  Rating : Z;
  Source : string
}.

Record ReviewCollection := {
  Reviews : list Review;
  Type_ : string;
  Count : Z
}.

Record SentimentResult := {
  ReviewID : string;
  Sentiment : string;
  Score : float64.t
}.

Record ThemeResult := {
  Theme : string;
  PreCount : Z;
  PostCount : Z;
  ChangeRate : float64.t;
  ThemeSentiment : string
}.

Record SentimentSummary := {
  Positive : Z;
  Negative : Z;
  Neutral : Z;
  Average : float64.t
}.

Record ComparisonResult := {
  PreLaunchSentiment : SentimentSummary;
  PostLaunchSentiment : SentimentSummary;
  SentimentShift : float64.t;
  Themes : list ThemeResult
}.

Record ImpactSummary := {
  OverallSuccess : bool;
  SuccessScore : float64.t;
  KeyImprovements : list string;
  CriticalIssues : list string;
  Recommendations : list string;
  ExecutiveSummary : string
}.

Record AnalysisResult := {
  PreLaunchReviews : ReviewCollection;
  PostLaunchReviews : ReviewCollection;
  Comparison : ComparisonResult;
  Impact : ImpactSummary;
  AnalyzedAt : string
}.

(** ** Aggregator *)

(** The zero value [SentimentSummary{}]. *)
Definition SentimentSummary_zero : SentimentSummary :=
  {| Positive := 0; Negative := 0; Neutral := 0; Average := float64.zero |}.

(** One iteration of the [switch s.Sentiment] loop. *)
Definition countSentiment (summary : SentimentSummary) (s : SentimentResult)
  : SentimentSummary :=
  if String.eqb (Sentiment s) "positive" then
    {| Positive := goint.incr (Positive summary); Negative := Negative summary;
       Neutral := Neutral summary; Average := Average summary |}
  else if String.eqb (Sentiment s) "negative" then
    {| Positive := Positive summary; Negative := goint.incr (Negative summary);
       Neutral := Neutral summary; Average := Average summary |}
  else
    {| Positive := Positive summary; Negative := Negative summary;
       Neutral := goint.incr (Neutral summary); Average := Average summary |}.

(** [total := 0; for _, r := range reviews { total += r.Rating }]. *)
Definition sumRatings (reviews : list Review) : Z :=
  fold_left (fun total r => goint.add total (Rating r)) reviews 0.

Definition calculateSentimentSummary
    (sentiments : list SentimentResult) (reviews : list Review)
  : SentimentSummary :=
  let summary := fold_left countSentiment sentiments SentimentSummary_zero in
  if 0 <? goint.len reviews then
    let total := sumRatings reviews in
    {| Positive := Positive summary; Negative := Negative summary;
       Neutral := Neutral summary;
       Average := float64.div (float64.of_int total)
                              (float64.of_int (goint.len reviews)) |}
  else summary.

Definition calculateSentimentShift (pre post : SentimentSummary) : float64.t :=
  let preTotal := goint.add (goint.add (Positive pre) (Negative pre)) (Neutral pre) in
  let postTotal := goint.add (goint.add (Positive post) (Negative post)) (Neutral post) in
  if (preTotal =? 0) || (postTotal =? 0) then float64.zero
  else
    let prePositiveRate :=
      float64.mul (float64.div (float64.of_int (Positive pre))
                               (float64.of_int preTotal)) float64.hundred in
    let postPositiveRate :=
      float64.mul (float64.div (float64.of_int (Positive post))
                               (float64.of_int postTotal)) float64.hundred in
    float64.sub postPositiveRate prePositiveRate.

(** ** Byte strings *)

Module gostring.

Definition nl : string := String (ascii_of_nat 10) "".
Definition dquote : string := String (ascii_of_nat 34) "".

(** [len(s)]. *)
Definition len (s : string) : nat := String.length s.

(** [s[i]] for [i < len(s)]; the source guards every use. *)
Definition at_ (s : string) (i : nat) : ascii :=
  match String.get i s with
  | Some c => c
  | None => Ascii.zero
  end.

(** [s[lo:hi]] for [lo <= hi <= len(s)]. *)
Definition slice (s : string) (lo hi : nat) : string :=
  String.substring lo (hi - lo) s.

(** Concatenation of the pieces of a formatted string. *)
Definition cat (pieces : list string) : string :=
  fold_right String.append "" pieces.

(** [%d] of an [int]. *)
Definition itoa (n : Z) : string := NilZero.string_of_int (Z.to_int n).

End gostring.

(** ** Errors *)

(** The error values the program creates or receives: [errors.New] and
    [fmt.Errorf] without [%w] give [errorString]; [fmt.Errorf] with [%w]
    gives [wrapError], which keeps the wrapped error; [csvParseError] is
    [csv.ParseError]. *)
Inductive error : Type :=
  | errorString (s : string)
  | wrapError (msg : string) (err : error)
  | csvParseError (StartLine Line Column : Z) (err : error).

Global Instance error_eq_dec : EqDecision error.
Proof. solve_decision. Defined.

Module io.
Definition EOF : error := errorString "EOF".
End io.

Module errors.

(** [errors.Unwrap]. *)
Definition Unwrap (e : error) : option error :=
  match e with
  | errorString _ => None
  | wrapError _ err => Some err
  | csvParseError _ _ _ err => Some err
  end.

(** [errors.Is(e, target)] for comparable targets: walks the chain. *)
Fixpoint Is (e target : error) : bool :=
  bool_decide (e = target) ||
  match e with
  | errorString _ => false
  | wrapError _ err => Is err target
  | csvParseError _ _ _ err => Is err target
  end.

End errors.

Module csverr.
Definition ErrFieldCount : error := errorString "wrong number of fields".
Definition ErrQuote : error :=
  errorString
    (gostring.cat ["extraneous or missing "; gostring.dquote; " in quoted-field"]).
End csverr.

(** [err.Error()]. *)
Fixpoint Error (e : error) : string :=
  match e with
  | errorString s => s
  | wrapError msg _ => msg
  | csvParseError startLine line column err =>
      if bool_decide (err = csverr.ErrFieldCount) then
        gostring.cat ["record on line "; gostring.itoa line; ": "; Error err]
      else if negb (startLine =? line) then
        gostring.cat ["record on line "; gostring.itoa startLine;
                      "; parse error on line "; gostring.itoa line;
                      ", column "; gostring.itoa column; ": "; Error err]
      else
        gostring.cat ["parse error on line "; gostring.itoa line;
                      ", column "; gostring.itoa column; ": "; Error err]
  end.

Module fmt.

(** [fmt.Errorf(before + "%w" + after, err)]: the message is the
    formatted text, the cause is kept for [errors.Unwrap]. *)
Definition Errorf_w (before : string) (err : error) (after : string) : error :=
  wrapError (gostring.cat [before; Error err; after]) err.

(** [fmt.Errorf] without a [%w] verb. *)
Definition Errorf (msg : string) : error := errorString msg.

End fmt.

(** ** strconv.Atoi *)

Module strconv.

Definition ErrSyntax : error := errorString "invalid syntax".
Definition ErrRange : error := errorString "value out of range".

Definition digit (c : ascii) : option Z :=
  let n := Z.of_nat (nat_of_ascii c) in
  if (48 <=? n) && (n <=? 57) then Some (n - 48) else None.

(** Value of a digit string read left to right from accumulator [acc];
    [None] when a byte is not a decimal digit. *)
Fixpoint digits (s : string) (acc : Z) : option Z :=
  match s with
  | EmptyString => Some acc
  | String c rest =>
      match digit c with
      | Some d => digits rest (10 * acc + d)
      | None => None
      end
  end.

(** [strconv.Atoi]: an optional sign, then at least one decimal digit; the
    value must fit in [int].  On failure the returned number is not used
    by the program; the [NumError] wrapper is dropped. *)
Definition Atoi (s : string) : Z * option error :=
  let '(neg, body) :=
    match s with
    | String "-"%char rest => (true, rest)
    | String "+"%char rest => (false, rest)
    | _ => (false, s)
    end in
  match body with
  | EmptyString => (0, Some ErrSyntax)
  | _ =>
      match digits body 0 with
      | None => (0, Some ErrSyntax)
      | Some n =>
          let v := if neg then - n else n in
          if (goint.min_int <=? v) && (v <=? goint.max_int) then (v, None)
          else ((if neg then goint.min_int else goint.max_int), Some ErrRange)
      end
  end.

End strconv.

(** ** Response sanitizer (provider client file) *)

Definition isBlank (c : ascii) : bool :=
  Ascii.eqb c " " || Ascii.eqb c (ascii_of_nat 10) || Ascii.eqb c (ascii_of_nat 9).

(** [for len(s) > 0 && blank(s[0]) { s = s[1:] }]. *)
Fixpoint skipLeading (s : string) : string :=
  match s with
  | String c rest => if isBlank c then skipLeading rest else s
  | EmptyString => s
  end.

Definition removePrefix (s pre : string) : string :=
  let s := skipLeading s in
  if (gostring.len pre <=? gostring.len s)%nat
     && String.eqb (gostring.slice s 0 (gostring.len pre)) pre
  then gostring.slice s (gostring.len pre) (gostring.len s)
  else s.

(** [for len(s) > 0 && blank(s[len(s)-1]) { s = s[:len(s)-1] }]; every
    iteration shortens [s], so [len(s)] iterations are enough. *)
Fixpoint skipTrailingLoop (fuel : nat) (s : string) : string :=
  match fuel with
  | O => s
  | S fuel' =>
      if (0 <? gostring.len s)%nat
         && isBlank (gostring.at_ s (gostring.len s - 1))
      then skipTrailingLoop fuel' (gostring.slice s 0 (gostring.len s - 1))
      else s
  end.

Definition skipTrailing (s : string) : string :=
  skipTrailingLoop (gostring.len s) s.

Definition removeSuffix (s suf : string) : string :=
  let s := skipTrailing s in
  if (gostring.len suf <=? gostring.len s)%nat
     && String.eqb (gostring.slice s (gostring.len s - gostring.len suf) (gostring.len s)) suf
  then gostring.slice s 0 (gostring.len s - gostring.len suf)
  else s.

Definition fence : string := "```".
Definition fenceJSON : string := "```json".

Definition cleanJSONResponse (response : string) : string :=
  let response := removePrefix response fenceJSON in
  let response := removePrefix response fence in
  let response := removeSuffix response fence in
  response.

(** ** Tabular parser *)

Module csv.

(** The input as the reader of [encoding/csv] goes through it, one item per
    physical line: a line that completes a record, with the fields of the
    whole record; a line on which the tokenizer gives up (a stray quote),
    with the column; an empty line, which the reader skips between records
    and counts; a line that ends inside a quoted field, so that the record
    goes on with the next line, with the column reached at its end.  An
    empty line inside a quoted field is text of the field, that is a line of
    the last kind. *)
Inductive line : Type :=
  | Row (fields : list string)
  | Garbled (column : Z) (err : error)
  | Blank
  | Open (column : Z).

Record Reader := {
  pending : list line;
  FieldsPerRecord : Z;
  numLine : Z
}.

(** [csv.NewReader]: [FieldsPerRecord] is 0, so the first record fixes the
    number of fields of all later ones. *)
Definition NewReader (input : list line) : Reader :=
  {| pending := input; FieldsPerRecord := 0; numLine := 0 |}.

(** What the tokenizer finds next: the end of the input, a record with the
    line it started on, or an error. *)
Inductive token : Type :=
  | EndOfInput
  | Complete (recLine : Z) (dst : list string)
  | Broken (err : error).

(** [readRecord] up to the check of the number of fields: every line read
    advances [numLine]; empty lines before a record are skipped; [quoted]
    holds, once the reader is inside a quoted field, the line the record
    started on and the column reached; an input that ends there is an
    [ErrQuote] at that column. *)
Fixpoint readRecord (pending : list line) (numLine : Z) (quoted : option (Z * Z))
  : token * list line * Z :=
  match pending with
  | [] =>
      match quoted with
      | None => (EndOfInput, [], numLine)
      | Some (recLine, column) =>
          (Broken (csvParseError recLine numLine column csverr.ErrQuote), [], numLine)
      end
  | item :: rest =>
      let numLine := numLine + 1 in
      let recLine :=
        match quoted with
        | Some (recLine, _) => recLine
        | None => numLine
        end in
      match item with
      | Blank =>
          match quoted with
          | None => readRecord rest numLine None
          | Some _ => readRecord rest numLine (Some (recLine, 2))
          end
      | Open column => readRecord rest numLine (Some (recLine, column))
      | Row dst => (Complete recLine dst, rest, numLine)
      | Garbled column err =>
          (Broken (csvParseError recLine numLine column err), rest, numLine)
      end
  end.

(** The [Read] method of the reader. *)
Definition Read (r : Reader) : (list string * option error) * Reader :=
  let '(found, rest, numLine) := readRecord (pending r) (numLine r) None in
  match found with
  | EndOfInput =>
      (([], Some io.EOF),
       {| pending := rest; FieldsPerRecord := FieldsPerRecord r; numLine := numLine |})
  | Broken err =>
      (([], Some err),
       {| pending := rest; FieldsPerRecord := FieldsPerRecord r; numLine := numLine |})
  | Complete recLine dst =>
      if 0 <? FieldsPerRecord r then
        let r' := {| pending := rest; FieldsPerRecord := FieldsPerRecord r;
                     numLine := numLine |} in
        if negb (goint.len dst =? FieldsPerRecord r) then
          ((dst, Some (csvParseError recLine recLine 1 csverr.ErrFieldCount)), r')
        else ((dst, None), r')
      else if FieldsPerRecord r =? 0 then
        ((dst, None),
         {| pending := rest; FieldsPerRecord := goint.len dst; numLine := numLine |})
      else
        ((dst, None),
         {| pending := rest; FieldsPerRecord := FieldsPerRecord r;
            numLine := numLine |})
  end.

End csv.

(** The zero value [Review{}]. *)
Definition Review_zero : Review :=
  {| ID := ""; Date := ""; UserID := ""; ReviewText := ""; Rating := 0;
     Source := "" |}.

Definition set_ID (v : string) (r : Review) : Review :=
  {| ID := v; Date := Date r; UserID := UserID r; ReviewText := ReviewText r;
     Rating := Rating r; Source := Source r |}.
Definition set_Date (v : string) (r : Review) : Review :=
  {| ID := ID r; Date := v; UserID := UserID r; ReviewText := ReviewText r;
     Rating := Rating r; Source := Source r |}.
Definition set_UserID (v : string) (r : Review) : Review :=
  {| ID := ID r; Date := Date r; UserID := v; ReviewText := ReviewText r;
     Rating := Rating r; Source := Source r |}.
Definition set_ReviewText (v : string) (r : Review) : Review :=
  {| ID := ID r; Date := Date r; UserID := UserID r; ReviewText := v;
     Rating := Rating r; Source := Source r |}.
Definition set_Rating (v : Z) (r : Review) : Review :=
  {| ID := ID r; Date := Date r; UserID := UserID r; ReviewText := ReviewText r;
     Rating := v; Source := Source r |}.
Definition set_Source (v : string) (r : Review) : Review :=
  {| ID := ID r; Date := Date r; UserID := UserID r; ReviewText := ReviewText r;
     Rating := Rating r; Source := v |}.

(** [for i, col := range header { colIndex[col] = i }], from index [i]. *)
Fixpoint indexColumns (header : list string) (i : nat) (colIndex : gmap string nat)
  : gmap string nat :=
  match header with
  | [] => colIndex
  | col :: rest => indexColumns rest (S i) (<[col := i]> colIndex)
  end.

(** [if idx, ok := colIndex[name]; ok && idx < len(record) { f(record[idx]) }]. *)
Definition withColumn (colIndex : gmap string nat) (record : list string)
    (name : string) (f : string -> Review -> Review) (review : Review) : Review :=
  match colIndex !! name with
  | Some idx =>
      if (idx <? length record)%nat then f (nth idx record "") review
      else review
  | None => review
  end.

(** The rating branch: the field is assigned only when [Atoi] succeeds. *)
Definition assignRating (v : string) (review : Review) : Review :=
  match strconv.Atoi v with
  | (rating, None) => set_Rating rating review
  | (_, Some _) => review
  end.

(** The body of the row loop, from [review := Review{}] to the [append]. *)
Definition parseRecord (colIndex : gmap string nat) (record : list string) : Review :=
  let review := Review_zero in
  let review := withColumn colIndex record "id" set_ID review in
  let review := withColumn colIndex record "date" set_Date review in
  let review := withColumn colIndex record "user_id" set_UserID review in
  let review := withColumn colIndex record "review_text" set_ReviewText review in
  let review := withColumn colIndex record "rating" assignRating review in
  let review := withColumn colIndex record "source" set_Source review in
  review.

(** Returned only if the row loop is cut short by the iteration bound below;
    [ParseCSV] never does so. *)
Definition errIterationBound : error := errorString "iteration bound reached".

(** The row loop.  Each iteration that does not return consumes at least
    one pending line of the reader, so the bound handed over by [ParseCSV]
    is never reached. *)
Fixpoint parseRows (fuel : nat) (colIndex : gmap string nat) (csvReader : csv.Reader)
    (lineNum : Z) (reviews : list Review) : list Review * option error :=
  match fuel with
  | O => ([], Some errIterationBound)
  | S fuel' =>
      let lineNum := goint.incr lineNum in
      let '((record, err), csvReader) := csv.Read csvReader in
      match err with
      | Some e =>
          if bool_decide (e = io.EOF) then (reviews, None)
          else ([], Some (fmt.Errorf_w
                  (gostring.cat ["error reading line "; gostring.itoa lineNum; ": "])
                  e ""))
      | None =>
          parseRows fuel' colIndex csvReader lineNum
                    (reviews ++ [parseRecord colIndex record])
      end
  end.

Definition ParseCSV (reader : list csv.line) : list Review * option error :=
  let csvReader := csv.NewReader reader in
  let '((header, err), csvReader) := csv.Read csvReader in
  match err with
  | Some e => ([], Some (fmt.Errorf_w "failed to read CSV header: " e ""))
  | None =>
      let colIndex := indexColumns header 0 ∅ in
      parseRows (S (length (csv.pending csvReader))) colIndex csvReader 1 []
  end.

(** ** Provider client *)

Module http.

Record Request := {
  Method : string;
  URL : string;
  Header : list (string * string);
  Body : string
}.

Definition StatusOK : Z := 200.

(** [http.NewRequest]: with the method [POST] and the client's fixed base
    URL the construction does not fail. *)
Definition NewRequest (method url body : string) : Request * option error :=
  ({| Method := method; URL := url; Header := []; Body := body |}, None).

(** [req.Header.Set(key, value)]. *)
Definition HeaderSet (key value : string) (req : Request) : Request :=
  {| Method := Method req; URL := URL req;
     Header := filter (fun kv => kv.1 ≠ key) (Header req) ++ [(key, value)];
     Body := Body req |}.

(** What one [client.Do] followed by [io.ReadAll] of the body gives. *)
Inductive roundTrip : Type :=
  | DoFailed (err : error)
  | BodyUnreadable (status : Z) (err : error)
  | Reply (status : Z) (body : string).

(** The network as the program sees it: the requests handed to
    [client.Do] so far, oldest first. *)
Record Net := { sent : list Request }.

End http.

Record GroqClient := {
  apiKey : string;
  baseURL : string;
  model : string
}.

Definition NewGroqClient (key : string) : GroqClient :=
  {| apiKey := key;
     baseURL := "https://api.groq.com/openai/v1";
     model := "llama-3.3-70b-versatile" |}.

Record GroqMessage := { Role : string; Content : string }.

Record GroqRequest := { Model : string; Messages : list GroqMessage }.

Record GroqChoice := { Message : GroqMessage }.

Record GroqResponse := {
  Choices : list GroqChoice;
  ResponseError : option string
}.

(** What the program takes from outside its own code: the JSON codec, the
    [%.Nf] verb of [fmt], and the provider's behaviour on the wire (a
    function of the earlier requests and of the current one). *)
Record Runtime := {
  json_encode_request : GroqRequest -> string;
  json_decode_response : string -> GroqResponse * option error;
  json_decode_sentiments : string -> list SentimentResult * option error;
  json_decode_themes : string -> list ThemeResult * option error;
  json_decode_impact : string -> ImpactSummary * option error;
  fmt_float : nat -> float64.t -> string;
  transport : list http.Request -> http.Request -> http.roundTrip
}.

Module json.
(** [json.Marshal] of a request: a struct of strings always encodes. *)
Definition Marshal (env : Runtime) (request : GroqRequest) : string * option error :=
  (json_encode_request env request, None).
End json.

Module Groq.

Import gostring.

(** [client.Do(req)] then [io.ReadAll(resp.Body)]: the request is recorded
    and the provider answers. *)
Definition roundTrip (env : Runtime) (req : http.Request) (net : http.Net)
  : http.roundTrip * http.Net :=
  (transport env (http.sent net) req, {| http.sent := http.sent net ++ [req] |}).

Definition callGroqAPI (env : Runtime) (g : GroqClient) (prompt : string)
    (net : http.Net) : (string * option error) * http.Net :=
  let url := cat [baseURL g; "/chat/completions"] in
  let request :=
    {| Model := model g;
       Messages := [ {| Role := "user"; Content := prompt |} ] |} in
  match json.Marshal env request with
  | (_, Some err) => (("", Some (fmt.Errorf_w "failed to marshal request: " err "")), net)
  | (jsonData, None) =>
  match http.NewRequest "POST" url jsonData with
  | (_, Some err) => (("", Some (fmt.Errorf_w "failed to create request: " err "")), net)
  | (req, None) =>
  let req := http.HeaderSet "Content-Type" "application/json" req in
  let req := http.HeaderSet "Authorization" (cat ["Bearer "; apiKey g]) req in
  let '(answer, net) := roundTrip env req net in
  match answer with
  | http.DoFailed err =>
      (("", Some (fmt.Errorf_w "failed to call Groq API: " err "")), net)
  | http.BodyUnreadable _ err =>
      (("", Some (fmt.Errorf_w "failed to read response: " err "")), net)
  | http.Reply status body =>
      if negb (status =? http.StatusOK) then
        (("", Some (fmt.Errorf
                (cat ["Groq API error (status "; itoa status; "): "; body]))), net)
      else
        match json_decode_response env body with
        | (_, Some err) =>
            (("", Some (fmt.Errorf_w "failed to parse response: " err "")), net)
        | (groqResp, None) =>
            match ResponseError groqResp with
            | Some message =>
                (("", Some (fmt.Errorf (cat ["Groq API error: "; message]))), net)
            | None =>
                match Choices groqResp with
                | [] => (("", Some (fmt.Errorf "empty response from Groq")), net)
                | choice :: _ => ((Content (Message choice), None), net)
                end
            end
        end
  end
  end
  end.

Definition sentimentLine (r : Review) : string :=
  cat ["ID: "; ID r; " | Rating: "; itoa (Rating r); " | Review: ";
       ReviewText r; nl].

Definition sentimentPrompt (reviewsText : string) : string :=
  cat ["Analyze the sentiment of these customer reviews. For each review, classify as ";
       dquote; "positive"; dquote; ", "; dquote; "negative"; dquote; ", or ";
       dquote; "neutral"; dquote; " with a confidence score (0-1)."; nl;
       nl;
       "Reviews:"; nl;
       reviewsText; nl;
       nl;
       "Respond ONLY with a valid JSON array in this exact format (no markdown, no explanation):"; nl;
       "[{"; dquote; "review_id"; dquote; ": "; dquote; "id"; dquote; ", ";
       dquote; "sentiment"; dquote; ": "; dquote; "positive/negative/neutral"; dquote; ", ";
       dquote; "score"; dquote; ": 0.95}]"].

Definition AnalyzeSentiments (env : Runtime) (g : GroqClient)
    (reviews : list Review) (net : http.Net)
  : (list SentimentResult * option error) * http.Net :=
  if goint.len reviews =? 0 then (([], None), net)
  else
    let reviewsText :=
      fold_left (fun text r => String.append text (sentimentLine r)) reviews "" in
    let prompt := sentimentPrompt reviewsText in
    match callGroqAPI env g prompt net with
    | ((_, Some err), net) => (([], Some err), net)
    | ((response, None), net) =>
        let response := cleanJSONResponse response in
        match json_decode_sentiments env response with
        | (_, Some err) =>
            (([], Some (fmt.Errorf_w "failed to parse sentiment results: " err
                          (cat [", response: "; response]))), net)
        | (results, None) => ((results, None), net)
        end
    end.

Definition formatReviewsForThemes (reviews : list Review) : string :=
  fold_left
    (fun result r =>
       String.append result
         (cat ["- "; ReviewText r; " (Rating: "; itoa (Rating r); ")"; nl]))
    reviews "".

Definition themesPrompt (preText postText : string) : string :=
  cat ["Analyze and compare themes between pre-launch and post-launch customer reviews."; nl;
       nl;
       "PRE-LAUNCH REVIEWS:"; nl;
       preText; nl;
       nl;
       "POST-LAUNCH REVIEWS:"; nl;
       postText; nl;
       nl;
       "Extract the top 8 themes mentioned across both sets. For each theme, count occurrences in pre and post launch, calculate percentage change, and determine overall sentiment."; nl;
       nl;
       "Respond ONLY with a valid JSON array in this exact format (no markdown, no explanation):"; nl;
       "[{"; dquote; "theme"; dquote; ": "; dquote; "theme name"; dquote; ", ";
       dquote; "pre_count"; dquote; ": 5, ";
       dquote; "post_count"; dquote; ": 8, ";
       dquote; "change_rate"; dquote; ": 60.0, ";
       dquote; "sentiment"; dquote; ": "; dquote; "positive/negative/neutral"; dquote; "}]"].

Definition ExtractThemes (env : Runtime) (g : GroqClient)
    (preReviews postReviews : list Review) (net : http.Net)
  : (list ThemeResult * option error) * http.Net :=
  let preText := formatReviewsForThemes preReviews in
  let postText := formatReviewsForThemes postReviews in
  let prompt := themesPrompt preText postText in
  match callGroqAPI env g prompt net with
  | ((_, Some err), net) => (([], Some err), net)
  | ((response, None), net) =>
      let response := cleanJSONResponse response in
      match json_decode_themes env response with
      | (_, Some err) =>
          (([], Some (fmt.Errorf_w "failed to parse theme results: " err
                        (cat [", response: "; response]))), net)
      | (results, None) => ((results, None), net)
      end
  end.

Definition formatThemesForSummary (env : Runtime) (themes : list ThemeResult) : string :=
  fold_left
    (fun result t =>
       String.append result
         (cat ["- "; Theme t; ": Pre="; itoa (PreCount t); ", Post=";
               itoa (PostCount t); ", Change="; fmt_float env 1 (ChangeRate t);
               "%, Sentiment="; ThemeSentiment t; nl]))
    themes "".

Definition sideData (env : Runtime) (title : string) (count : Z)
    (summary : SentimentSummary) : string :=
  cat [title; nl;
       "- Total reviews: "; itoa count; nl;
       "- Positive: "; itoa (Positive summary);
       ", Negative: "; itoa (Negative summary);
       ", Neutral: "; itoa (Neutral summary); nl;
       "- Average rating: "; fmt_float env 2 (Average summary); nl].

Definition impactPrompt (env : Runtime) (pre post : ReviewCollection)
    (comparison : ComparisonResult) : string :=
  cat ["You are analyzing the impact of a feature launch based on customer reviews."; nl;
       nl;
       sideData env "PRE-LAUNCH DATA:" (Count pre) (PreLaunchSentiment comparison);
       nl;
       sideData env "POST-LAUNCH DATA:" (Count post) (PostLaunchSentiment comparison);
       nl;
       "SENTIMENT SHIFT: "; fmt_float env 2 (SentimentShift comparison); "%"; nl;
       nl;
       "KEY THEMES IDENTIFIED:"; nl;
       formatThemesForSummary env (Themes comparison); nl;
       nl;
       "Based on this data, provide a comprehensive launch impact analysis."; nl;
       nl;
       "Respond ONLY with a valid JSON object in this exact format (no markdown, no explanation):"; nl;
       "{"; nl;
       "  "; dquote; "overall_success"; dquote; ": true/false,"; nl;
       "  "; dquote; "success_score"; dquote; ": 75.5,"; nl;
       "  "; dquote; "key_improvements"; dquote; ": [";
         dquote; "improvement 1"; dquote; ", "; dquote; "improvement 2"; dquote; "],"; nl;
       "  "; dquote; "critical_issues"; dquote; ": [";
         dquote; "issue 1"; dquote; ", "; dquote; "issue 2"; dquote; "],"; nl;
       "  "; dquote; "recommendations"; dquote; ": [";
         dquote; "recommendation 1"; dquote; ", "; dquote; "recommendation 2"; dquote; "],"; nl;
       "  "; dquote; "executive_summary"; dquote; ": ";
         dquote; "A 2-3 sentence summary of the launch impact"; dquote; nl;
       "}"].

Definition GenerateImpactSummary (env : Runtime) (g : GroqClient)
    (pre post : ReviewCollection) (comparison : ComparisonResult) (net : http.Net)
  : (option ImpactSummary * option error) * http.Net :=
  let prompt := impactPrompt env pre post comparison in
  match callGroqAPI env g prompt net with
  | ((_, Some err), net) => ((None, Some err), net)
  | ((response, None), net) =>
      let response := cleanJSONResponse response in
      match json_decode_impact env response with
      | (_, Some err) =>
          ((None, Some (fmt.Errorf_w "failed to parse impact summary: " err
                          (cat [", response: "; response]))), net)
      | (result, None) => ((Some result, None), net)
      end
  end.

End Groq.

(** ** Analysis service *)

(** The interface [LLMAnalyzer]: [C] is the implementing type, [W] the state
    of the world its calls act on. *)
Class LLMAnalyzer (C W : Type) := {
  AnalyzeSentiments :
    C -> list Review -> W -> (list SentimentResult * option error) * W;
  ExtractThemes :
    C -> list Review -> list Review -> W -> (list ThemeResult * option error) * W;
  GenerateImpactSummary :
    C -> ReviewCollection -> ReviewCollection -> ComparisonResult -> W ->
    (option ImpactSummary * option error) * W
}.

#[export] Instance GroqClient_LLMAnalyzer (env : Runtime)
  : LLMAnalyzer GroqClient http.Net := {
  AnalyzeSentiments := Groq.AnalyzeSentiments env;
  ExtractThemes := Groq.ExtractThemes env;
  GenerateImpactSummary := Groq.GenerateImpactSummary env
}.

Record DefaultAnalysisService (C : Type) := { llmClient : C }.
Arguments llmClient {C} _.

Definition NewAnalysisService {C : Type} (client : C) : DefaultAnalysisService C :=
  {| llmClient := client |}.

(** A call either returns or panics (the dereference of a nil pointer). *)
Inductive outcome (A : Type) : Type :=
  | Returns (v : A)
  | Panics (msg : string).
Arguments Returns {A} v.
Arguments Panics {A} msg.

(** [Analyze]; [now] is [time.Now().Format(time.RFC3339)] at the moment the
    result is assembled. *)
Definition Analyze {C W : Type} `{LLMAnalyzer C W} (now : string)
    (s : DefaultAnalysisService C) (preReviews postReviews : list Review) (w : W)
  : outcome (option AnalysisResult * option error) * W :=
  let preCollection :=
    {| Reviews := preReviews; Type_ := "pre_launch"; Count := goint.len preReviews |} in
  let postCollection :=
    {| Reviews := postReviews; Type_ := "post_launch"; Count := goint.len postReviews |} in
  match AnalyzeSentiments (llmClient s) preReviews w with
  | ((_, Some err), w) =>
      (Returns (None, Some (fmt.Errorf_w "failed to analyze pre-launch sentiments: " err "")), w)
  | ((preSentiments, None), w) =>
  match AnalyzeSentiments (llmClient s) postReviews w with
  | ((_, Some err), w) =>
      (Returns (None, Some (fmt.Errorf_w "failed to analyze post-launch sentiments: " err "")), w)
  | ((postSentiments, None), w) =>
  let preSummary := calculateSentimentSummary preSentiments preReviews in
  let postSummary := calculateSentimentSummary postSentiments postReviews in
  match ExtractThemes (llmClient s) preReviews postReviews w with
  | ((_, Some err), w) =>
      (Returns (None, Some (fmt.Errorf_w "failed to extract themes: " err "")), w)
  | ((themes, None), w) =>
  let sentimentShift := calculateSentimentShift preSummary postSummary in
  let comparison :=
    {| PreLaunchSentiment := preSummary; PostLaunchSentiment := postSummary;
       SentimentShift := sentimentShift; Themes := themes |} in
  match GenerateImpactSummary (llmClient s) preCollection postCollection comparison w with
  | ((_, Some err), w) =>
      (Returns (None, Some (fmt.Errorf_w "failed to generate impact summary: " err "")), w)
  | ((impact, None), w) =>
      match impact with
      | None => (Panics "invalid memory address or nil pointer dereference", w)
      | Some impact =>
          (Returns (Some {| PreLaunchReviews := preCollection;
                            PostLaunchReviews := postCollection;
                            Comparison := comparison;
                            Impact := impact;
                            AnalyzedAt := now |}, None), w)
      end
  end
  end
  end
  end.

(** ** Vocabulary of the specification *)

(** A side's total classified count, [positive+negative+neutral], with the
    addition of [int]. *)
Definition classifiedTotal (s : SentimentSummary) : Z :=
  goint.add (goint.add (Positive s) (Negative s)) (Neutral s).

(** A side's positive rate, [positive/(positive+negative+neutral)*100], over
    that side's own total. *)
Definition positiveRate (s : SentimentSummary) : float64.t :=
  float64.mul
    (float64.div (float64.of_int (Positive s)) (float64.of_int (classifiedTotal s)))
    float64.hundred.

(** A side's total classified count as a number, not as an [int]. *)
Definition exactTotal (s : SentimentSummary) : Z :=
  Positive s + Negative s + Neutral s.

(** A side's positive rate over the number [positive+negative+neutral], in
    the arithmetic of float64. *)
Definition rateOf (s : SentimentSummary) : float64.t :=
  float64.mul
    (float64.div (float64.of_int (Positive s)) (float64.of_int (exactTotal s)))
    float64.hundred.

(** The same rate as an exact fraction. *)
Definition exactRate (s : SentimentSummary) : Q :=
  (inject_Z (Positive s) / inject_Z (exactTotal s) * 100)%Q.

(** The largest relative error of one rounding, [2^-53], and the distance
    allowed between a shift and the exact difference of rates, [2^-44]. *)
Definition eps : Q := 1 # 9007199254740992.
Definition shiftTolerance : Q := 1 # 17592186044416.

(** Counts of a summary that are all non-negative. *)
Definition nonnegCounts (s : SentimentSummary) : Prop :=
  0 <= Positive s /\ 0 <= Negative s /\ 0 <= Neutral s.

(** The number of results carrying a given sentiment value, and the number
    carrying neither ["positive"] nor ["negative"]. *)
Definition countOf (v : string) (sentiments : list SentimentResult) : Z :=
  goint.len (filter (fun r => Sentiment r = v) sentiments).

Definition countOther (sentiments : list SentimentResult) : Z :=
  goint.len (filter (fun r => Sentiment r ≠ "positive" /\ Sentiment r ≠ "negative")
               sentiments).

(** The exact sum of the ratings. *)
Definition ratingSum (reviews : list Review) : Z :=
  fold_right Z.add 0 (map Rating reviews).

(** A string of blanks only (space, newline, tab), and a string whose
    first byte is a blank. *)
Fixpoint allBlank (s : string) : bool :=
  match s with
  | EmptyString => true
  | String c rest => isBlank c && allBlank rest
  end.

Definition startsBlank (s : string) : bool :=
  match s with
  | EmptyString => false
  | String c _ => isBlank c
  end.

(** A string that is empty or whose last byte is not a blank. *)
Definition endsClean (t : string) : Prop :=
  t = "" \/ exists t' c, t = String.append t' (String c "") /\ isBlank c = false.

(** [s] wrapped in an opening marker and the closing fence, with blanks
    before and after. *)
Definition fenced (before opening s after : string) : string :=
  String.append before
    (String.append opening (String.append s (String.append fence after))).

(** A line that carries no record of its own: an empty line, or a line
    that ends inside a quoted field. *)
Definition filler (l : csv.line) : Prop :=
  match l with
  | csv.Blank | csv.Open _ => True
  | _ => False
  end.

(** What an input holds, whatever its layout: its lines without the empty
    ones and without those that end inside a quoted field. *)
Fixpoint contentOf (input : list csv.line) : list csv.line :=
  match input with
  | [] => []
  | csv.Blank :: rest => contentOf rest
  | csv.Open _ :: rest => contentOf rest
  | item :: rest => item :: contentOf rest
  end.

(** An input that ends inside a quoted field; [quoted] tells whether it
    starts inside one. *)
Fixpoint openEnded (input : list csv.line) (quoted : bool) : bool :=
  match input with
  | [] => quoted
  | csv.Blank :: rest => openEnded rest quoted
  | csv.Open _ :: rest => openEnded rest true
  | _ :: rest => openEnded rest false
  end.

(** The column names the parser recognizes. *)
Definition recognized : list string :=
  ["id"; "date"; "user_id"; "review_text"; "rating"; "source"].

(** The position of the last header cell equal to [name], counting from
    [i]: a later duplicate of a column name overrides an earlier one. *)
Fixpoint lastIndex (name : string) (header : list string) (i : nat) : option nat :=
  match header with
  | [] => None
  | col :: rest =>
      match lastIndex name rest (S i) with
      | Some j => Some j
      | None => if decide (col = name) then Some i else None
      end
  end.

(** The value a record holds under the column called [name], if the header
    has such a column and the record reaches it. *)
Definition cell (header record : list string) (name : string) : option string :=
  match lastIndex name header 0 with
  | Some i => record !! i
  | None => None
  end.

(** The integer a rating cell stands for, 0 when it does not parse. *)
Definition ratingOf (v : option string) : Z :=
  match v with
  | Some text =>
      match strconv.Atoi text with
      | (n, None) => n
      | (_, Some _) => 0
      end
  | None => 0
  end.

(** The canonical record of a row, told from its cells: every recognized
    column is copied as it is, the rating is read as an integer, a missing
    cell leaves the zero value. *)
Definition reviewOf (cells : string -> option string) : Review :=
  {| ID := default "" (cells "id");
     Date := default "" (cells "date");
     UserID := default "" (cells "user_id");
     ReviewText := default "" (cells "review_text");
     Rating := ratingOf (cells "rating");
     Source := default "" (cells "source") |}.

(** Summaries used as examples. *)
Definition counts (p n u : Z) : SentimentSummary :=
  {| Positive := p; Negative := n; Neutral := u; Average := float64.zero |}.

Definition verdict (v : string) : SentimentResult :=
  {| ReviewID := ""; Sentiment := v; Score := float64.zero |}.

Definition rated (n : Z) : Review :=
  {| ID := ""; Date := ""; UserID := ""; ReviewText := ""; Rating := n; Source := "" |}.

(** The request [callGroqAPI] hands to the HTTP client for a prompt. *)
Definition chatRequest (env : Runtime) (g : GroqClient) (prompt : string)
  : http.Request :=
  {| http.Method := "POST";
     http.URL := gostring.cat [baseURL g; "/chat/completions"];
     http.Header := [("Content-Type", "application/json");
                     ("Authorization", gostring.cat ["Bearer "; apiKey g])];
     http.Body :=
       json_encode_request env
         {| Model := model g;
            Messages := [ {| Role := "user"; Content := prompt |} ] |} |}.

(** The prompt of a theme extraction. *)
Definition themesPromptOf (preReviews postReviews : list Review) : string :=
  Groq.themesPrompt (Groq.formatReviewsForThemes preReviews)
                    (Groq.formatReviewsForThemes postReviews).

(** The four gateway stages of a run, in the order they are reached, and
    the context each failure is reported under. *)
Inductive stage : Type :=
  | PreSentiments
  | PostSentiments
  | ThemeExtraction
  | ImpactGeneration.

Definition stageContext (st : stage) : string :=
  match st with
  | PreSentiments => "failed to analyze pre-launch sentiments: "
  | PostSentiments => "failed to analyze post-launch sentiments: "
  | ThemeExtraction => "failed to extract themes: "
  | ImpactGeneration => "failed to generate impact summary: "
  end.

(** The comparison a run has assembled when it asks for the impact summary. *)
Definition comparisonOf (preReviews postReviews : list Review)
    (preSentiments postSentiments : list SentimentResult) (themes : list ThemeResult)
  : ComparisonResult :=
  let preSummary := calculateSentimentSummary preSentiments preReviews in
  let postSummary := calculateSentimentSummary postSentiments postReviews in
  {| PreLaunchSentiment := preSummary; PostLaunchSentiment := postSummary;
     SentimentShift := calculateSentimentShift preSummary postSummary;
     Themes := themes |}.

Definition collectionOf (label : string) (reviews : list Review) : ReviewCollection :=
  {| Reviews := reviews; Type_ := label; Count := goint.len reviews |}.

(** [failsAt client pre post w st err w'] : in a run started in world [w],
    the stages before [st] succeed and stage [st] returns the error [err],
    leaving the world [w']. *)
Definition failsAt {C W : Type} `{LLMAnalyzer C W} (client : C)
    (preReviews postReviews : list Review) (w : W) (st : stage) (err : error) (w' : W)
  : Prop :=
  match st with
  | PreSentiments =>
      exists v, AnalyzeSentiments client preReviews w = ((v, Some err), w')
  | PostSentiments =>
      exists preS w1 v,
        AnalyzeSentiments client preReviews w = ((preS, None), w1) /\
        AnalyzeSentiments client postReviews w1 = ((v, Some err), w')
  | ThemeExtraction =>
      exists preS w1 postS w2 v,
        AnalyzeSentiments client preReviews w = ((preS, None), w1) /\
        AnalyzeSentiments client postReviews w1 = ((postS, None), w2) /\
        ExtractThemes client preReviews postReviews w2 = ((v, Some err), w')
  | ImpactGeneration =>
      exists preS w1 postS w2 themes w3 v,
        AnalyzeSentiments client preReviews w = ((preS, None), w1) /\
        AnalyzeSentiments client postReviews w1 = ((postS, None), w2) /\
        ExtractThemes client preReviews postReviews w2 = ((themes, None), w3) /\
        GenerateImpactSummary client
          (collectionOf "pre_launch" preReviews) (collectionOf "post_launch" postReviews)
          (comparisonOf preReviews postReviews preS postS themes) w3
        = ((v, Some err), w')
  end.

(** Environments used as examples.  In both, the body of a reply is taken
    as the text of its single choice and no reply parses as a result; in
    the first the provider answers with [body], in the second it cannot be
    reached. *)
Definition jsonSyntaxError : error := errorString "invalid character 'o' looking for beginning of value".

Definition connectionRefused : error := errorString "dial tcp: connection refused".

Definition ImpactSummary_zero : ImpactSummary :=
  {| OverallSuccess := false; SuccessScore := float64.zero; KeyImprovements := [];
     CriticalIssues := []; Recommendations := []; ExecutiveSummary := "" |}.

Definition exampleRuntime (answer : http.roundTrip) : Runtime :=
  {| json_encode_request := fun request => gostring.cat (map Content (Messages request));
     json_decode_response := fun body =>
       ({| Choices := [ {| Message := {| Role := "assistant"; Content := body |} |} ];
           ResponseError := None |}, None);
     json_decode_sentiments := fun _ => ([], Some jsonSyntaxError);
     json_decode_themes := fun _ => ([], Some jsonSyntaxError);
     json_decode_impact := fun _ => (ImpactSummary_zero, Some jsonSyntaxError);
     fmt_float := fun _ _ => "0";
     transport := fun _ _ => answer |}.

Definition garbledRuntime (body : string) : Runtime :=
  exampleRuntime (http.Reply http.StatusOK body).

Definition unreachableRuntime : Runtime :=
  exampleRuntime (http.DoFailed connectionRefused).

Definition idle : http.Net := {| http.sent := [] |}.

(** A test double of the provider: it calls a review positive when its
    rating is at least 3 and negative otherwise, finds no theme and returns
    an empty impact summary; it has no state. *)
Inductive StubClient : Type := stubClient.

#[export] Instance StubClient_LLMAnalyzer : LLMAnalyzer StubClient unit := {
  AnalyzeSentiments := fun _ reviews w =>
    ((map (fun r => {| ReviewID := ID r;
                       Sentiment := if 3 <=? Rating r then "positive" else "negative";
                       Score := float64.zero |}) reviews, None), w);
  ExtractThemes := fun _ _ _ w => (([], None), w);
  GenerateImpactSummary := fun _ _ _ _ w => ((Some ImpactSummary_zero, None), w)
}.

(** ** The reference semantics of binary64

    The library's executable specification of IEEE 754 arithmetic
    ([SpecFloat]) at the parameters of binary64, used to test the rational
    model of [float64] on concrete inputs. *)

Module ieee.

Definition prec : Z := 53.
Definition emax : Z := 1024.

Definition of_int (n : Z) : spec_float := binary_normalize prec emax n 0 false.
Definition div : spec_float -> spec_float -> spec_float := SFdiv prec emax.
Definition mul : spec_float -> spec_float -> spec_float := SFmul prec emax.
Definition sub : spec_float -> spec_float -> spec_float := SFsub prec emax.

(** The rational a finite value denotes. *)
Definition value (f : spec_float) : option Q :=
  match f with
  | S754_zero _ => Some 0%Q
  | S754_finite s m e =>
      Some (Qred ((if s then - inject_Z (Zpos m) else inject_Z (Zpos m)) * 2 ^ e))%Q
  | S754_infinity _ | S754_nan => None
  end.

(** [agree x y]: the reference value [x] is finite and denotes [y]. *)
Definition agree (x : spec_float) (y : float64.t) : bool :=
  match value x with
  | Some v => Qeq_bool v y
  | None => false
  end.

(** The shift of [calculateSentimentShift] for positive counts [a], [c] over
    totals [b], [d], computed both ways. *)
Definition shiftAgrees (a b c d : Z) : bool :=
  agree
    (sub (mul (div (of_int c) (of_int d)) (of_int 100))
         (mul (div (of_int a) (of_int b)) (of_int 100)))
    (float64.sub
       (float64.mul (float64.div (float64.of_int c) (float64.of_int d)) float64.hundred)
       (float64.mul (float64.div (float64.of_int a) (float64.of_int b)) float64.hundred)).

Definition averageAgrees (total n : Z) : bool :=
  agree (div (of_int total) (of_int n))
        (float64.div (float64.of_int total) (float64.of_int n)).

(** The fractions [a/b], [c/d] with numerators in [0, n) and denominators in
    [1, n]. *)
Definition grid (n : nat) : list (Z * Z * Z * Z) :=
  a ← seqZ 0 (Z.of_nat n); b ← seqZ 1 (Z.of_nat n);
  c ← seqZ 0 (Z.of_nat n); d ← seqZ 1 (Z.of_nat n); [(a, b, c, d)].

End ieee.

(** ** Configuration (entry-point file) *)

Module config.

(** [getEnv]; [environ] is [os.Getenv], which gives the empty string for a
    variable that is not set. *)
Definition getEnv (environ : string -> string) (key defaultValue : string) : string :=
  let value := environ key in
  if negb (String.eqb value "") then value else defaultValue.

(** [getPort]; the log line of the fallback is not modelled. *)
Definition getPort (environ : string -> string) : Z :=
  let portStr := getEnv environ "PORT" "8080" in
  match strconv.Atoi portStr with
  | (port, None) => port
  | (_, Some _) => 8080
  end.

End config.

(** ** Request boundary (handlers and middleware) *)

Module api.

Record UploadResponse := {
  Success : bool;
  PreLaunchCount : Z;
  PostLaunchCount : Z;
  Message : string
}.

Record ErrorResponse := {
  ErrorText : string;
  Code : Z;
  Details : string
}.

Record HealthResponse := {
  Status : string;
  Version : string
}.

(** The values the handlers hand to the JSON encoder. *)
Inductive payload : Type :=
  | HealthPayload (v : HealthResponse)
  | UploadPayload (v : UploadResponse)
  | ErrorPayload (v : ErrorResponse)
  | AnalysisPayload (v : option AnalysisResult).

Definition StatusOK : Z := 200.
Definition StatusBadRequest : Z := 400.
Definition StatusMethodNotAllowed : Z := 405.
Definition StatusInternalServerError : Z := 500.

Definition MethodPost : string := "POST".
Definition MethodOptions : string := "OPTIONS".

Definition ErrMissingFile : error := errorString "http: no such file".

(** An [http.ResponseWriter]: the header map, the status line once it is
    written, and the values encoded into the body so far. *)
Record ResponseWriter := {
  Header : list (string * string);
  Written : option Z;
  Encoded : list payload
}.

Definition freshWriter : ResponseWriter :=
  {| Header := []; Written := None; Encoded := [] |}.

(** [w.Header().Set(key, value)]. *)
Definition HeaderSet (key value : string) (w : ResponseWriter) : ResponseWriter :=
  {| Header := filter (fun kv => kv.1 ≠ key) (Header w) ++ [(key, value)];
     Written := Written w; Encoded := Encoded w |}.

(** [w.WriteHeader(status)]: only the first call sets the status. *)
Definition WriteHeader (status : Z) (w : ResponseWriter) : ResponseWriter :=
  match Written w with
  | Some _ => w
  | None => {| Header := Header w; Written := Some status; Encoded := Encoded w |}
  end.

(** [json.NewEncoder(w).Encode(data)]: a first write without a status line
    sends 200. *)
Definition Encode (data : payload) (w : ResponseWriter) : ResponseWriter :=
  let w := WriteHeader StatusOK w in
  {| Header := Header w; Written := Written w; Encoded := Encoded w ++ [data] |}.

(** The part of an [http.Request] the handlers read: the method, and the
    multipart form as [r.ParseMultipartForm] finds it, an error or the
    uploaded files by field name, each one as the stream the parser reads. *)
Record Request := {
  Method : string;
  Multipart : error + (string -> option (list csv.line))
}.

(** [APIHandler]: the two interface values and the pending upload. *)
Record APIHandler (W : Type) := {
  parser : list csv.line -> list Review * option error;
  analysisService :
    list Review -> list Review -> W ->
    outcome (option AnalysisResult * option error) * W;
  preReviews : list Review;
  postReviews : list Review
}.
Arguments parser {W} _.
Arguments analysisService {W} _.
Arguments preReviews {W} _.
Arguments postReviews {W} _.

Definition NewAPIHandler {W : Type}
    (parser : list csv.line -> list Review * option error)
    (analysisService :
       list Review -> list Review -> W ->
       outcome (option AnalysisResult * option error) * W)
  : APIHandler W :=
  {| parser := parser; analysisService := analysisService;
     preReviews := []; postReviews := [] |}.

Definition respondJSON (w : ResponseWriter) (status : Z) (data : payload)
  : ResponseWriter :=
  let w := HeaderSet "Content-Type" "application/json" w in
  let w := WriteHeader status w in
  Encode data w.

Definition respondError (w : ResponseWriter) (status : Z) (message details : string)
  : ResponseWriter :=
  respondJSON w status
    (ErrorPayload {| ErrorText := message; Code := status; Details := details |}).

Definition HandleHealth {W : Type} (h : APIHandler W) (w : ResponseWriter)
    (r : Request) : ResponseWriter :=
  respondJSON w StatusOK
    (HealthPayload {| Status := "healthy"; Version := "1.0.0" |}).

(** [HandleUpload]; the result is the handler after the call and what was
    written. *)
Definition HandleUpload {W : Type} (h : APIHandler W) (w : ResponseWriter)
    (r : Request) : APIHandler W * ResponseWriter :=
  if negb (String.eqb (Method r) MethodPost) then
    (h, respondError w StatusMethodNotAllowed "Method not allowed" "")
  else
    match Multipart r with
    | inl err => (h, respondError w StatusBadRequest "Failed to parse form" (Error err))
    | inr form =>
        match form "preLaunch" with
        | None =>
            (h, respondError w StatusBadRequest "Pre-launch file is required"
                  (Error ErrMissingFile))
        | Some preLaunchFile =>
            let '(reviews, err) := parser h preLaunchFile in
            let h := {| parser := parser h; analysisService := analysisService h;
                        preReviews := reviews; postReviews := postReviews h |} in
            match err with
            | Some err =>
                (h, respondError w StatusBadRequest "Failed to parse pre-launch CSV"
                      (Error err))
            | None =>
                match form "postLaunch" with
                | None =>
                    (h, respondError w StatusBadRequest "Post-launch file is required"
                          (Error ErrMissingFile))
                | Some postLaunchFile =>
                    let '(reviews, err) := parser h postLaunchFile in
                    let h := {| parser := parser h;
                                analysisService := analysisService h;
                                preReviews := preReviews h;
                                postReviews := reviews |} in
                    match err with
                    | Some err =>
                        (h, respondError w StatusBadRequest
                              "Failed to parse post-launch CSV" (Error err))
                    | None =>
                        (h, respondJSON w StatusOK
                              (UploadPayload
                                 {| Success := true;
                                    PreLaunchCount := goint.len (preReviews h);
                                    PostLaunchCount := goint.len (postReviews h);
                                    Message :=
                                      "Files uploaded successfully. Ready for analysis." |}))
                    end
                end
            end
        end
    end.

(** [HandleAnalyze]; the handler itself is not changed, the world is the one
    the analysis service acts on. *)
Definition HandleAnalyze {W : Type} (h : APIHandler W) (w : ResponseWriter)
    (r : Request) (world : W) : outcome ResponseWriter * W :=
  if negb (String.eqb (Method r) MethodPost) then
    (Returns (respondError w StatusMethodNotAllowed "Method not allowed" ""), world)
  else if (goint.len (preReviews h) =? 0) || (goint.len (postReviews h) =? 0) then
    (Returns (respondError w StatusBadRequest "Please upload CSV files first" ""), world)
  else
    match analysisService h (preReviews h) (postReviews h) world with
    | (Panics msg, world) => (Panics msg, world)
    | (Returns (result, Some err), world) =>
        (Returns (respondError w StatusInternalServerError "Analysis failed" (Error err)),
         world)
    | (Returns (result, None), world) =>
        (Returns (respondJSON w StatusOK (AnalysisPayload result)), world)
    end.

(** [CORSMiddleware]; [next] is the wrapped handler, acting on a state [S].
    The log line is not modelled. *)
Definition CORSMiddleware {S : Type}
    (next : ResponseWriter -> Request -> S -> ResponseWriter * S)
    (w : ResponseWriter) (r : Request) (s : S) : ResponseWriter * S :=
  let w := HeaderSet "Access-Control-Allow-Origin" "*" w in
  let w := HeaderSet "Access-Control-Allow-Methods" "GET, POST, PUT, DELETE, OPTIONS" w in
  let w := HeaderSet "Access-Control-Allow-Headers" "*" w in
  if String.eqb (Method r) MethodOptions then (WriteHeader StatusOK w, s)
  else next w r s.

(** The handler [main] wires: the CSV parser and the analysis service over
    the provider client made from the API key. *)
Definition wired (env : Runtime) (now apiKey : string) : APIHandler http.Net :=
  NewAPIHandler ParseCSV
    (Analyze (H := GroqClient_LLMAnalyzer env) now
             (NewAnalysisService (NewGroqClient apiKey))).

End api.

(** ** Vocabulary of the further properties *)

(** [t] occurs in [s] as one block. *)
Definition occursIn (t s : string) : Prop :=
  exists a b : string, s = String.append a (String.append t b).

(** A string that does not end with the closing fence. *)
Definition noFenceAtEnd (s : string) : Prop :=
  forall t : string, s <> String.append t fence.

(** The prompt of a sentiment scoring. *)
Definition sentimentPromptOf (reviews : list Review) : string :=
  Groq.sentimentPrompt
    (fold_left (fun text r => String.append text (Groq.sentimentLine r)) reviews "").

(** The requests a sentiment scoring of [reviews] sends: none for the empty
    list, one otherwise. *)
Definition scoringRequests (env : Runtime) (g : GroqClient) (reviews : list Review)
  : list http.Request :=
  match reviews with
  | [] => []
  | _ :: _ => [chatRequest env g (sentimentPromptOf reviews)]
  end.

(** A response as a client expects it: one status line, one JSON value, the
    JSON content type; an error value repeats the status as its code and the
    status is then an error status, any other value comes with 200. *)
Definition wellFormedResponse (w : api.ResponseWriter) : Prop :=
  exists (status : Z) (data : api.payload),
    api.Written w = Some status /\
    api.Encoded w = [data] /\
    ("Content-Type", "application/json") ∈ api.Header w /\
    match data with
    | api.ErrorPayload e => api.Code e = status /\ 400 <= status < 600
    | _ => status = 200
    end.

(** What [HandleAnalyze] answers once the analysis service has been called
    with outcome [out]. *)
Definition analysisResponse (w : api.ResponseWriter)
    (out : outcome (option AnalysisResult * option error))
  : outcome api.ResponseWriter :=
  match out with
  | Panics msg => Panics msg
  | Returns (_, Some err) =>
      Returns (api.respondError w api.StatusInternalServerError "Analysis failed"
                                (Error err))
  | Returns (result, None) =>
      Returns (api.respondJSON w api.StatusOK (api.AnalysisPayload result))
  end.

(** The headers the middleware sets. *)
Definition corsHeaders : list (string * string) :=
  [("Access-Control-Allow-Origin", "*");
   ("Access-Control-Allow-Methods", "GET, POST, PUT, DELETE, OPTIONS");
   ("Access-Control-Allow-Headers", "*")].

(** The upload handler as the middleware wraps it: the handler is the state
    the route acts on. *)
Definition uploadRoute {W : Type} (w : api.ResponseWriter) (r : api.Request)
    (h : api.APIHandler W) : api.ResponseWriter * api.APIHandler W :=
  let '(h, w) := api.HandleUpload h w r in (w, h).

(** An upload form with the two files given, when they are. *)
Definition formOf (pre post : option (list csv.line))
  : string -> option (list csv.line) :=
  fun name =>
    if String.eqb name "preLaunch" then pre
    else if String.eqb name "postLaunch" then post
    else None.

Definition uploadOf (pre post : option (list csv.line)) : api.Request :=
  {| api.Method := "POST"; api.Multipart := inr (formOf pre post) |}.

(** A file with the single column [rating]. *)
Definition ratingsFile (ratings : list string) : list csv.line :=
  csv.Row ["rating"] :: map (fun cell => csv.Row [cell]) ratings.

(** A handler over the CSV parser and the test double of the provider,
    holding the reviews of an earlier upload. *)
Definition stubHandler (pre post : list Review) : api.APIHandler unit :=
  {| api.parser := ParseCSV;
     api.analysisService := Analyze "now" (NewAnalysisService stubClient);
     api.preReviews := pre;
     api.postReviews := post |}.

(** The line of a review in the prompt of a theme extraction. *)
Definition themeLine (r : Review) : string :=
  gostring.cat ["- "; ReviewText r; " (Rating: "; gostring.itoa (Rating r); ")";
                gostring.nl].

(** The requests of a run up to the theme extraction, in the order they are
    sent. *)
Definition stagedRequests (env : Runtime) (g : GroqClient)
    (preReviews postReviews : list Review) : list http.Request :=
  scoringRequests env g preReviews ++ scoringRequests env g postReviews
  ++ [chatRequest env g (themesPromptOf preReviews postReviews)].

(** A provider client whose scoring results for the lists [inputs] are
    slices: their lengths are values of [int]. *)
Definition boundedScoring {C W : Type} `{LLMAnalyzer C W} (client : C)
    (inputs : list (list Review)) : Prop :=
  forall (reviews : list Review) (w : W),
    reviews ∈ inputs ->
    goint.len (AnalyzeSentiments client reviews w).1.1 <= goint.max_int.

(* ===================================================================== *)
(** * Part II. Properties                                                 *)
(* ===================================================================== *)

(** ** Rounding to binary64 is monotone *)

Section Rounding.

Import float64.
Local Open Scope Q_scope.

Lemma rne_floor_bounds (x : Q) : (Qfloor x <= rne x <= Qfloor x + 1)%Z.
Proof.
  unfold rne. destruct (Qcompare _ _); [destruct (Z.even _)| |]; lia.
Qed.

Lemma rne_Z (z : Z) : rne (inject_Z z) = z.
Proof.
  unfold rne. rewrite Qfloor_Z.
  destruct (Qcompare_spec (inject_Z z - inject_Z z) (1 # 2)) as [E | E | E];
    [exfalso; lra | reflexivity | exfalso; lra].
Qed.

Lemma rne_mono (x y : Q) : x <= y -> (rne x <= rne y)%Z.
Proof.
  intros Hxy.
  pose proof (Qfloor_resp_le _ _ Hxy) as Hf.
  pose proof (rne_floor_bounds x) as Hx.
  pose proof (rne_floor_bounds y) as Hy.
  destruct (Z.eq_dec (Qfloor x) (Qfloor y)) as [Heq | Hne]; [| lia].
  unfold rne in *. rewrite <- Heq in *.
  destruct (Qcompare_spec (x - inject_Z (Qfloor x)) (1 # 2)) as [Ex | Ex | Ex];
    destruct (Qcompare_spec (y - inject_Z (Qfloor x)) (1 # 2)) as [Ey | Ey | Ey];
    try destruct (Z.even (Qfloor x)); try lia; exfalso; lra.
Qed.

Lemma pow2_pos (e : Z) : 0 < 2 ^ e.
Proof. apply Qpower_0_lt. reflexivity. Qed.

Lemma pow2_succ (e : Z) : 2 ^ (e + 1) == 2 * 2 ^ e.
Proof. rewrite Qpower_plus by discriminate. simpl (2 ^ 1). ring. Qed.

Lemma pow2_inject (k : Z) : (0 <= k)%Z -> inject_Z (2 ^ k) == 2 ^ k.
Proof. intros Hk. now rewrite Zpower_Qpower. Qed.

Lemma ilog2_spec (x : Q) :
  0 < x -> 2 ^ ilog2 x <= x /\ x < 2 ^ (ilog2 x + 1).
Proof.
  intros Hx. unfold ilog2.
  destruct (Qle_bool 1 x) eqn:Hb.
  - apply Qle_bool_iff in Hb.
    assert (Hf : (1 <= Qfloor x)%Z).
    { change 1%Z with (Qfloor 1). now apply Qfloor_resp_le. }
    destruct (Z.log2_spec (Qfloor x)) as [Hlo Hhi]; [lia |].
    pose proof (Z.log2_nonneg (Qfloor x)) as Hnn.
    pose proof (Qfloor_le x) as H1. pose proof (Qlt_floor x) as H2.
    split.
    + rewrite <- pow2_inject by lia.
      eapply Qle_trans; [| exact H1]. rewrite <- Zle_Qle. exact Hlo.
    + rewrite <- pow2_inject by lia.
      eapply Qlt_le_trans; [exact H2 |]. rewrite <- Zle_Qle.
      rewrite Z.add_1_r. lia.
  - assert (Hlt : x < 1).
    { apply Qnot_le_lt. intros H. apply Qle_bool_iff in H. congruence. }
    set (y := / x).
    assert (Hy : 1 < y).
    { unfold y. apply Qlt_shift_inv_l; [exact Hx | lra]. }
    assert (Hxy : x * y == 1).
    { unfold y. apply Qmult_inv_r. lra. }
    pose proof (Qle_ceiling y) as Hc1. pose proof (Qceiling_lt y) as Hc2.
    set (c := Qceiling y) in *.
    assert (Hc : (1 < c)%Z).
    { rewrite Zlt_Qlt. change (inject_Z 1) with 1. lra. }
    destruct (Z.log2_up_spec c Hc) as [Hlo Hhi].
    set (k := Z.log2_up c) in *.
    assert (Hk : (0 < k)%Z) by (apply Z.log2_up_pos; exact Hc).
    assert (Hlo' : inject_Z (2 ^ Z.pred k) <= inject_Z (c - 1)).
    { rewrite <- Zle_Qle. lia. }
    assert (Hhi' : inject_Z c <= inject_Z (2 ^ k)) by (now rewrite <- Zle_Qle).
    rewrite pow2_inject in Hlo' by lia. rewrite pow2_inject in Hhi' by lia.
    replace (- k + 1)%Z with (- Z.pred k)%Z by lia.
    rewrite !Qpower_opp.
    pose proof (pow2_pos k) as Pk. pose proof (pow2_pos (Z.pred k)) as Pk'.
    split.
    + apply Qle_shift_inv_r; [exact Pk |].
      apply Qle_trans with (x * y); [rewrite Hxy; apply Qle_refl |].
      apply Qmult_le_l; [exact Hx | lra].
    + apply Qlt_shift_inv_l; [exact Pk' |].
      apply Qlt_le_trans with (x * y); [| rewrite Hxy; apply Qle_refl].
      apply Qmult_lt_l; [exact Hx | lra].
Qed.

Lemma round_pos_bounds (x : Q) :
  0 < x -> 2 ^ ilog2 x <= round_pos x /\ round_pos x <= 2 ^ (ilog2 x + 1).
Proof.
  intros Hx. destruct (ilog2_spec x Hx) as [Hlo Hhi].
  unfold round_pos. set (e := ilog2 x) in *. set (u := 2 ^ (e - 52)).
  assert (Hu : 0 < u) by apply pow2_pos.
  assert (He : 2 ^ e == inject_Z (2 ^ 52) * u).
  { unfold u. rewrite pow2_inject by lia. rewrite <- Qpower_plus by discriminate.
    now replace (52 + (e - 52))%Z with e by lia. }
  assert (He' : 2 ^ (e + 1) == inject_Z (2 ^ 53) * u).
  { unfold u. rewrite pow2_inject by lia. rewrite <- Qpower_plus by discriminate.
    now replace (53 + (e - 52))%Z with (e + 1)%Z by lia. }
  rewrite He, He' in *.
  split; apply Qmult_le_compat_r; try lra; rewrite <- Zle_Qle.
  - rewrite <- (rne_Z (2 ^ 52)) at 1. apply rne_mono.
    apply Qle_shift_div_l; [exact Hu | exact Hlo].
  - rewrite <- (rne_Z (2 ^ 53)). apply rne_mono.
    apply Qle_shift_div_r; [exact Hu | lra].
Qed.

Lemma round_pos_mono (x y : Q) :
  0 < x -> x <= y -> round_pos x <= round_pos y.
Proof.
  intros Hx Hxy. assert (Hy : 0 < y) by lra.
  destruct (ilog2_spec x Hx) as [Hxlo Hxhi].
  destruct (ilog2_spec y Hy) as [Hylo Hyhi].
  destruct (round_pos_bounds x Hx) as [_ Rx].
  destruct (round_pos_bounds y Hy) as [Ry _].
  assert (Hle : (ilog2 x < ilog2 y + 1)%Z).
  { apply (Qpower_lt_compat_l_inv 2); [lra | reflexivity]. }
  destruct (Z.eq_dec (ilog2 x) (ilog2 y)) as [Heq | Hne].
  - unfold round_pos. rewrite Heq.
    pose proof (pow2_pos (ilog2 y - 52)) as Hu.
    apply Qmult_le_compat_r; [| lra].
    rewrite <- Zle_Qle. apply rne_mono.
    unfold Qdiv. apply Qmult_le_compat_r; [exact Hxy |].
    apply Qinv_le_0_compat. lra.
  - apply Qle_trans with (2 ^ (ilog2 x + 1)); [exact Rx |].
    apply Qle_trans with (2 ^ ilog2 y); [| exact Ry].
    apply Qpower_le_compat_l; [lia | discriminate].
Qed.

Lemma round_pos_pos (x : Q) : 0 < x -> 0 < round_pos x.
Proof.
  intros Hx. destruct (round_pos_bounds x Hx) as [H _].
  pose proof (pow2_pos (ilog2 x)). lra.
Qed.

(** Rounding never reorders two values. *)
Lemma round_mono (x y : Q) : x <= y -> round x <= round y.
Proof.
  intros Hxy. unfold round.
  destruct (Qcompare_spec x 0) as [Ex | Ex | Ex];
    destruct (Qcompare_spec y 0) as [Ey | Ey | Ey];
    rewrite ?Qred_correct; try (exfalso; lra); try lra.
  - pose proof (round_pos_pos y Ey). lra.
  - assert (H : 0 < - x) by lra. pose proof (round_pos_pos _ H). lra.
  - assert (H : 0 < - y) by lra.
    assert (H' : - y <= - x) by lra.
    pose proof (round_pos_mono _ _ H H'). lra.
  - assert (H : 0 < - x) by lra. pose proof (round_pos_pos _ H).
    pose proof (round_pos_pos y Ey). lra.
  - now apply round_pos_mono.
Qed.

Lemma round_nonzero (x : Q) : ~ x == 0 -> ~ round x == 0.
Proof.
  intros Hx. unfold round.
  destruct (Qcompare_spec x 0) as [Ex | Ex | Ex]; rewrite ?Qred_correct.
  - contradiction.
  - assert (H : 0 < - x) by lra. pose proof (round_pos_pos _ H). lra.
  - pose proof (round_pos_pos x Ex). lra.
Qed.

(** Integers of at most 53 bits (here: the ones the bounds need) are
    binary64 values. *)
Lemma round_0 : round 0 = 0.
Proof. reflexivity. Qed.

Lemma round_1 : round 1 = 1.
Proof. vm_compute. reflexivity. Qed.

Lemma round_100 : round 100 = 100.
Proof. vm_compute. reflexivity. Qed.

Lemma round_m100 : round (- (100)) = - (100).
Proof. vm_compute. reflexivity. Qed.

(** Rounding respects rational equality. *)
Lemma round_le_const (x c : Q) : round c = c -> x <= c -> round x <= c.
Proof. intros Hc Hx. rewrite <- Hc. now apply round_mono. Qed.

Lemma round_ge_const (x c : Q) : round c = c -> c <= x -> c <= round x.
Proof. intros Hc Hx. rewrite <- Hc. now apply round_mono. Qed.

End Rounding.

(** ** Rounding, further facts *)

Section RoundingMore.

Import float64.
Local Open Scope Q_scope.

Lemma rne_comp (x y : Q) : x == y -> rne x = rne y.
Proof.
  intros E. unfold rne. rewrite (Qfloor_comp x y E).
  assert (E' : x - inject_Z (Qfloor y) == y - inject_Z (Qfloor y))
    by (rewrite E; reflexivity).
  now rewrite (Qcompare_comp _ _ E' (1 # 2) (1 # 2) (Qeq_refl _)).
Qed.

Lemma ilog2_comp (x y : Q) : x == y -> ilog2 x = ilog2 y.
Proof.
  intros E. unfold ilog2.
  rewrite (Qleb_comp 1 1 (Qeq_refl 1) x y E), (Qfloor_comp x y E).
  assert (E' : / x == / y) by (rewrite E; reflexivity).
  now rewrite (Qceiling_comp _ _ E').
Qed.

Lemma round_pos_comp (x y : Q) : x == y -> round_pos x == round_pos y.
Proof.
  intros E. unfold round_pos. rewrite (ilog2_comp x y E).
  assert (E' : x / 2 ^ (ilog2 y - 52) == y / 2 ^ (ilog2 y - 52))
    by (rewrite E; reflexivity).
  now rewrite (rne_comp _ _ E').
Qed.

(** Rounding sees the number, not the fraction that writes it. *)
Lemma round_comp (x y : Q) : x == y -> round x = round y.
Proof.
  intros E. unfold round.
  rewrite (Qcompare_comp x y E 0 0 (Qeq_refl 0)).
  destruct (Qcompare y 0); [reflexivity | |]; apply Qred_complete.
  - apply Qopp_comp, round_pos_comp. now rewrite E.
  - now apply round_pos_comp.
Qed.

(** Rounding is symmetric about zero. *)
Lemma round_opp (x : Q) : round (- x) = - round x.
Proof.
  unfold round.
  destruct (Qcompare_spec x 0) as [E | E | E];
    destruct (Qcompare_spec (- x) 0) as [E' | E' | E'];
    try (exfalso; lra); try reflexivity.
  - rewrite <- Qred_opp. apply Qred_complete.
    symmetry. apply Qopp_involutive.
  - rewrite <- Qred_opp. apply Qred_complete.
    apply Qopp_comp, round_pos_comp, Qopp_involutive.
Qed.

Lemma round_eq_0 (x : Q) : x == 0 -> round x = 0.
Proof. intros E. rewrite (round_comp x 0 E). reflexivity. Qed.

(** Integers below [2^53] are binary64 values: their conversion is exact. *)
Lemma round_pos_small (n : Z) :
  (0 < n < 2 ^ 53)%Z -> round_pos (inject_Z n) == inject_Z n.
Proof.
  intros [Hpos Hlt].
  assert (Hx : 0 < inject_Z n) by (change 0 with (inject_Z 0); now rewrite <- Zlt_Qlt).
  destruct (ilog2_spec _ Hx) as [Hlo _].
  set (e := ilog2 (inject_Z n)) in *.
  assert (He : (e < 53)%Z).
  { apply (Qpower_lt_compat_l_inv 2); [| reflexivity].
    eapply Qle_lt_trans; [exact Hlo |].
    rewrite <- pow2_inject by lia. now rewrite <- Zlt_Qlt. }
  unfold round_pos. fold e.
  assert (Hu : 2 ^ (e - 52) * inject_Z (2 ^ (52 - e)) == 1).
  { rewrite pow2_inject by lia. rewrite <- Qpower_plus by discriminate.
    now replace (e - 52 + (52 - e))%Z with 0%Z by lia. }
  pose proof (pow2_pos (e - 52)) as Hp.
  assert (Hinv : / 2 ^ (e - 52) == inject_Z (2 ^ (52 - e))).
  { rewrite pow2_inject by lia. rewrite <- Qpower_opp.
    now replace (- (e - 52))%Z with (52 - e)%Z by lia. }
  assert (Hq : inject_Z n / 2 ^ (e - 52) == inject_Z (n * 2 ^ (52 - e))).
  { unfold Qdiv. rewrite Hinv, inject_Z_mult. reflexivity. }
  rewrite (rne_comp _ _ Hq), rne_Z, inject_Z_mult.
  rewrite <- Qmult_assoc, (Qmult_comm (inject_Z (2 ^ (52 - e)))), Hu. ring.
Qed.

Lemma of_int_small (n : Z) : (0 <= n < 2 ^ 53)%Z -> of_int n == inject_Z n.
Proof.
  intros [Hn Hlt]. unfold of_int, round.
  destruct (Qcompare_spec (inject_Z n) 0) as [E | E | E].
  - now rewrite E.
  - exfalso. change 0 with (inject_Z 0) in E. rewrite <- Zlt_Qlt in E. lia.
  - rewrite Qred_correct. apply round_pos_small.
    change 0 with (inject_Z 0) in E. rewrite <- Zlt_Qlt in E. lia.
Qed.

End RoundingMore.

(** ** Accuracy of rounding *)

Section RoundingError.

Import float64.
Local Open Scope Q_scope.

Lemma rne_error (x : Q) :
  x - (1 # 2) <= inject_Z (rne x) /\ inject_Z (rne x) <= x + (1 # 2).
Proof.
  pose proof (Qfloor_le x) as Hlo. pose proof (Qlt_floor x) as Hhi.
  rewrite inject_Z_plus in Hhi. change (inject_Z 1) with 1 in Hhi.
  unfold rne.
  destruct (Qcompare_spec (x - inject_Z (Qfloor x)) (1 # 2)) as [E | E | E].
  - destruct (Z.even (Qfloor x)); [split; lra |].
    rewrite inject_Z_plus. change (inject_Z 1) with 1. split; lra.
  - split; lra.
  - rewrite inject_Z_plus. change (inject_Z 1) with 1. split; lra.
Qed.

Lemma eps_pow2 (e : Z) : 2 ^ (e - 52) * (1 # 2) == 2 ^ e * eps.
Proof.
  replace (e - 52)%Z with (e + - 52)%Z by lia.
  rewrite Qpower_plus by discriminate.
  change (2 ^ (- 52)) with (1 # 4503599627370496). unfold eps. ring.
Qed.

Lemma round_pos_error (x : Q) :
  0 < x -> x * (1 - eps) <= round_pos x /\ round_pos x <= x * (1 + eps).
Proof.
  intros Hx. destruct (ilog2_spec x Hx) as [Hlo _].
  unfold round_pos. set (e := ilog2 x) in *. set (u := 2 ^ (e - 52)).
  assert (Hu : 0 < u) by apply pow2_pos.
  destruct (rne_error (x / u)) as [R1 R2].
  assert (Hxu : x / u * u == x) by (field; lra).
  pose proof (eps_pow2 e) as He. fold u in He.
  assert (Heps : 0 < eps) by reflexivity.
  split.
  - apply Qle_trans with (x - u * (1 # 2)).
    + assert (u * (1 # 2) <= x * eps) by (rewrite He; nra). lra.
    + rewrite <- Hxu at 1. nra.
  - apply Qle_trans with (x + u * (1 # 2)).
    + rewrite <- Hxu at 2. nra.
    + assert (u * (1 # 2) <= x * eps) by (rewrite He; nra). lra.
Qed.

(** The relative error of a rounding is at most [2^-53]. *)
Lemma round_error_nonneg (x : Q) :
  0 <= x -> x * (1 - eps) <= round x /\ round x <= x * (1 + eps).
Proof.
  intros Hx. unfold round.
  destruct (Qcompare_spec x 0) as [E | E | E].
  - rewrite E. split; lra.
  - exfalso. lra.
  - rewrite Qred_correct. now apply round_pos_error.
Qed.

Lemma round_error_abs (x b : Q) :
  - b <= x -> x <= b -> x - b * eps <= round x /\ round x <= x + b * eps.
Proof.
  intros Hlo Hhi. assert (Heps : 0 < eps) by reflexivity.
  destruct (Qlt_le_dec x 0) as [Hneg | Hpos].
  - assert (Hx : 0 <= - x) by lra.
    destruct (round_error_nonneg (- x) Hx) as [R1 R2].
    rewrite round_opp in R1, R2. split; nra.
  - destruct (round_error_nonneg x Hpos) as [R1 R2]. split; nra.
Qed.

End RoundingError.




(** The rational model computes what the reference semantics of binary64
    computes: on all small fractions, on totals near the ends of [int], and
    on integers that need rounding. *)
Example model_agrees_on_small_counts :
  forallb (fun '(a, b, c, d) => ieee.shiftAgrees a b c d) (ieee.grid 6) = true.
Proof. vm_compute. reflexivity. Qed.

Example model_agrees_on_large_counts :
  ieee.shiftAgrees goint.max_int goint.min_int 1 1 = true /\
  ieee.shiftAgrees (2 ^ 53 + 1) (2 ^ 62 + 12345) 3 (2 ^ 63 - 1) = true /\
  ieee.shiftAgrees 12345678901234567 98765432109876543 1 3 = true.
Proof. vm_compute. repeat split; reflexivity. Qed.

Example model_agrees_on_averages :
  ieee.averageAgrees 6 2 = true /\
  ieee.averageAgrees 10 3 = true /\
  ieee.averageAgrees (- 7) 3 = true /\
  ieee.averageAgrees (2 ^ 53 + 3) 7 = true /\
  ieee.averageAgrees goint.min_int 2 = true.
Proof. vm_compute. repeat split; reflexivity. Qed.

(** ** Aggregator *)

Section Aggregator.

Lemma wrap64_id (z : Z) : goint.in_range z -> goint.wrap64 z = z.
Proof.
  unfold goint.in_range, goint.min_int, goint.max_int, goint.wrap64. intros H.
  rewrite Z.mod_small; lia.
Qed.

Lemma wrap64_range (z : Z) : goint.in_range (goint.wrap64 z).
Proof.
  unfold goint.in_range, goint.min_int, goint.max_int, goint.wrap64.
  pose proof (Z.mod_pos_bound (z + 2 ^ 63) (2 ^ 64)). lia.
Qed.

Lemma wrap64_add_l (a b : Z) : goint.wrap64 (goint.wrap64 a + b) = goint.wrap64 (a + b).
Proof.
  unfold goint.wrap64. f_equal.
  replace ((a + 2 ^ 63) mod 2 ^ 64 - 2 ^ 63 + b + 2 ^ 63)
    with ((a + 2 ^ 63) mod 2 ^ 64 + b) by lia.
  rewrite Zplus_mod_idemp_l. f_equal. lia.
Qed.

(** Without overflow the total is the mathematical sum of the counts. *)
Lemma classifiedTotal_exact (s : SentimentSummary) :
  nonnegCounts s -> Positive s + Negative s + Neutral s <= goint.max_int ->
  classifiedTotal s = Positive s + Negative s + Neutral s.
Proof.
  intros (Hp & Hn & Hu) Hmax. unfold classifiedTotal, goint.add.
  rewrite wrap64_add_l. apply wrap64_id.
  unfold goint.in_range, goint.min_int, goint.max_int in *. lia.
Qed.

End Aggregator.

Section Summarize.

Lemma incr_exact (x : Z) : 0 <= x < goint.max_int -> goint.incr x = x + 1.
Proof.
  intros H. unfold goint.incr. apply wrap64_id.
  unfold goint.in_range, goint.min_int, goint.max_int in *. lia.
Qed.

Lemma countOf_cons (v : string) (r : SentimentResult) (l : list SentimentResult) :
  countOf v (r :: l) = (if decide (Sentiment r = v) then 1 else 0) + countOf v l.
Proof.
  unfold countOf, goint.len. rewrite filter_cons.
  destruct (decide (Sentiment r = v)); simpl length; lia.
Qed.

Lemma countOther_cons (r : SentimentResult) (l : list SentimentResult) :
  countOther (r :: l) =
  (if decide (Sentiment r ≠ "positive" /\ Sentiment r ≠ "negative") then 1 else 0)
  + countOther l.
Proof.
  unfold countOther, goint.len. rewrite filter_cons.
  destruct (decide _); simpl length; lia.
Qed.

Lemma countOf_nonneg (v : string) (l : list SentimentResult) : 0 <= countOf v l.
Proof. unfold countOf, goint.len. lia. Qed.

Lemma countOther_nonneg (l : list SentimentResult) : 0 <= countOther l.
Proof. unfold countOther, goint.len. lia. Qed.

(** The three buckets partition the results. *)
Lemma counts_partition (l : list SentimentResult) :
  countOf "positive" l + countOf "negative" l + countOther l = goint.len l.
Proof.
  induction l as [| r l IH]; [reflexivity |].
  rewrite !countOf_cons, countOther_cons.
  unfold goint.len in *. simpl length. rewrite Nat2Z.inj_succ.
  repeat destruct (decide _); try lia; exfalso; intuition congruence.
Qed.

(** One iteration of the counting loop, away from overflow. *)
Lemma countSentiment_step (acc : SentimentSummary) (s : SentimentResult) :
  nonnegCounts acc ->
  Positive acc + Negative acc + Neutral acc < goint.max_int ->
  Positive (countSentiment acc s)
    = Positive acc + (if decide (Sentiment s = "positive") then 1 else 0) /\
  Negative (countSentiment acc s)
    = Negative acc + (if decide (Sentiment s = "negative") then 1 else 0) /\
  Neutral (countSentiment acc s)
    = Neutral acc
      + (if decide (Sentiment s ≠ "positive" /\ Sentiment s ≠ "negative")
         then 1 else 0) /\
  Average (countSentiment acc s) = Average acc.
Proof.
  intros (Hp & Hn & Hu) Hmax. unfold countSentiment.
  destruct (String.eqb_spec (Sentiment s) "positive") as [E1 | E1];
    [| destruct (String.eqb_spec (Sentiment s) "negative") as [E2 | E2]];
    cbn [Positive Negative Neutral Average];
    rewrite ?incr_exact by lia;
    repeat destruct (decide _); try (exfalso; intuition congruence);
    repeat split; lia.
Qed.

(** The counting loop, from any accumulator it cannot overflow. *)
Lemma countSentiment_fold (l : list SentimentResult) :
  forall acc : SentimentSummary,
    nonnegCounts acc ->
    Positive acc + Negative acc + Neutral acc + goint.len l <= goint.max_int ->
    let r := fold_left countSentiment l acc in
    Positive r = Positive acc + countOf "positive" l /\
    Negative r = Negative acc + countOf "negative" l /\
    Neutral r = Neutral acc + countOther l /\
    Average r = Average acc.
Proof.
  induction l as [| s l IH]; intros acc Hacc Hmax.
  - simpl. unfold countOf, countOther, goint.len. simpl. repeat split; lia.
  - assert (Hlen : goint.len (s :: l) = goint.len l + 1).
    { unfold goint.len. simpl length. lia. }
    assert (0 <= goint.len l) by (unfold goint.len; lia).
    destruct (countSentiment_step acc s Hacc) as (S1 & S2 & S3 & S4); [lia |].
    destruct Hacc as (Hp & Hn & Hu).
    destruct (IH (countSentiment acc s)) as (R1 & R2 & R3 & R4).
    + unfold nonnegCounts. rewrite S1, S2, S3.
      repeat destruct (decide _); repeat split; lia.
    + rewrite S1, S2, S3.
      repeat destruct (decide _); try (exfalso; intuition congruence); lia.
    + simpl fold_left. cbv zeta.
      rewrite R1, R2, R3, R4, S1, S2, S3, S4, !countOf_cons, countOther_cons.
      repeat split; lia.
Qed.

(** The wrapping sum of the ratings is the exact sum reduced to [int]. *)
Lemma sumRatings_fold (reviews : list Review) :
  forall acc : Z,
    fold_left (fun total r => goint.add total (Rating r)) reviews (goint.wrap64 acc)
    = goint.wrap64 (acc + ratingSum reviews).
Proof.
  induction reviews as [| r l IH]; intros acc.
  - unfold ratingSum. simpl. f_equal. lia.
  - simpl fold_left. unfold goint.add at 2. rewrite wrap64_add_l, IH.
    f_equal. unfold ratingSum. simpl. lia.
Qed.

Lemma sumRatings_exact (reviews : list Review) :
  sumRatings reviews = goint.wrap64 (ratingSum reviews).
Proof.
  unfold sumRatings. change 0 with (goint.wrap64 0) at 1.
  now rewrite sumRatings_fold.
Qed.

End Summarize.

Section AverageExact.

Import float64.
Local Open Scope Q_scope.

(** Integers of magnitude below [2^53] convert to float64 without error. *)
Lemma of_int_exact (n : Z) : (- 2 ^ 53 < n < 2 ^ 53)%Z -> of_int n == inject_Z n.
Proof.
  intros [Hlo Hhi]. destruct (Z.le_gt_cases 0 n) as [Hn | Hn].
  - apply of_int_small. lia.
  - unfold of_int. replace n with (- - n)%Z by lia.
    rewrite inject_Z_opp, round_opp.
    pose proof (of_int_small (- n)) as H. unfold of_int in H.
    rewrite H by lia. reflexivity.
Qed.

Lemma div_exact (a b : Z) :
  (- 2 ^ 53 < a < 2 ^ 53)%Z -> (- 2 ^ 53 < b < 2 ^ 53)%Z ->
  div (of_int a) (of_int b) = round (inject_Z a / inject_Z b).
Proof.
  intros Ha Hb. unfold div. apply round_comp.
  now rewrite (of_int_exact a Ha), (of_int_exact b Hb).
Qed.

End AverageExact.

(** C2.  The counts of a summary add up to exactly the number of sentiment
    results consumed, whatever the number of reviews; a sentiment value
    other than exactly "positive" or "negative" is counted as neutral; the
    average rating is 0 when there is no review and otherwise, provided the
    sum of the ratings is a value of [int], the sum of the ratings divided
    by the number of reviews, in the arithmetic of float64; for a sum and a
    number of reviews of magnitude below [2^53] it is the exact mean
    rounded once. *)
Theorem C2_summarize (sentiments : list SentimentResult) (reviews : list Review) :
  goint.len sentiments <= goint.max_int ->
  let s := calculateSentimentSummary sentiments reviews in
  Positive s + Negative s + Neutral s = goint.len sentiments /\
  Positive s = countOf "positive" sentiments /\
  Negative s = countOf "negative" sentiments /\
  Neutral s = countOther sentiments /\
  (reviews = [] -> Average s = float64.zero) /\
  (reviews <> [] -> goint.in_range (ratingSum reviews) ->
   Average s = float64.div (float64.of_int (ratingSum reviews))
                           (float64.of_int (goint.len reviews))) /\
  (reviews <> [] -> - 2 ^ 53 < ratingSum reviews < 2 ^ 53 ->
   goint.len reviews < 2 ^ 53 ->
   Average s = float64.round (inject_Z (ratingSum reviews)
                              / inject_Z (goint.len reviews))).
Proof.
  intros Hlen.
  destruct (countSentiment_fold sentiments SentimentSummary_zero)
    as (R1 & R2 & R3 & R4).
  { unfold nonnegCounts. simpl. lia. }
  { simpl. lia. }
  simpl in R1, R2, R3, R4.
  pose proof (counts_partition sentiments) as Hpart.
  unfold calculateSentimentSummary.
  destruct reviews as [| r reviews].
  - simpl. rewrite R1, R2, R3, R4.
    repeat split; try lia; try reflexivity; intros; congruence.
  - assert (Hpos : (0 <? goint.len (r :: reviews)) = true).
    { apply Z.ltb_lt. unfold goint.len. simpl length. lia. }
    assert (Hn : 0 <= goint.len (r :: reviews)) by (unfold goint.len; lia).
    rewrite Hpos. cbv zeta. simpl Positive. simpl Negative. simpl Neutral.
    simpl Average. rewrite R1, R2, R3, sumRatings_exact.
    split; [lia |]. split; [reflexivity |]. split; [reflexivity |].
    split; [reflexivity |]. split; [discriminate |]. split.
    + intros _ Hsum. now rewrite (wrap64_id _ Hsum).
    + intros _ Hsum Hcount. rewrite wrap64_id.
      * apply div_exact; lia.
      * unfold goint.in_range, goint.min_int, goint.max_int. lia.
Qed.

Lemma C2_summarize_witness :
  let reviews := [rated 5; rated 1] in
  let s := calculateSentimentSummary
             [verdict "positive"; verdict "Positive"; verdict "negative"] reviews in
  Positive s + Negative s + Neutral s = 3 /\
  Positive s = 1 /\ Negative s = 1 /\ Neutral s = 1 /\
  (reviews = [] -> Average s = float64.zero) /\
  (reviews <> [] -> goint.in_range (ratingSum reviews) ->
   Average s = float64.div (float64.of_int 6) (float64.of_int 2)) /\
  (reviews <> [] -> - 2 ^ 53 < ratingSum reviews < 2 ^ 53 ->
   goint.len reviews < 2 ^ 53 ->
   Average s = float64.round (inject_Z 6 / inject_Z 2)).
Proof.
  apply (C2_summarize
           [verdict "positive"; verdict "Positive"; verdict "negative"]
           [rated 5; rated 1]).
  vm_compute. discriminate.
Defined.

(** C2 as stated fails when the sum of the ratings leaves the range of
    [int].  The ratings MaxInt64 and 1, which the parser accepts, sum to
    2^63; the sum divided by the number of reviews is 2^62, but the code
    adds the ratings to MinInt64 and returns -2^62. *)
Lemma C2_counterexample :
  let reviews := [rated goint.max_int; rated 1] in
  ratingSum reviews = 2 ^ 63 /\
  (inject_Z (ratingSum reviews) / inject_Z (goint.len reviews)
   == 4611686018427387904)%Q /\
  float64.div (float64.of_int (ratingSum reviews)) (float64.of_int (goint.len reviews))
  = 4611686018427387904%Q /\
  Average (calculateSentimentSummary [] reviews) = (- (4611686018427387904))%Q /\
  parseRecord (indexColumns ["rating"] 0 ∅) ["9223372036854775807"]
  = rated goint.max_int.
Proof.
  cbv zeta. repeat split; vm_compute; reflexivity.
Qed.

Section ShiftBounds.

Import float64.
Local Open Scope Q_scope.

Lemma of_int_mono (a b : Z) : (a <= b)%Z -> of_int a <= of_int b.
Proof. intros H. unfold of_int. apply round_mono. now rewrite <- Zle_Qle. Qed.

Lemma of_int_ge_1 (t : Z) : (1 <= t)%Z -> 1 <= of_int t.
Proof.
  intros H. change 1 with (of_int 1) at 1. now apply of_int_mono.
Qed.

Lemma of_int_nonneg (p : Z) : (0 <= p)%Z -> 0 <= of_int p.
Proof. intros H. change 0 with (of_int 0). now apply of_int_mono. Qed.

(** The guards of the program keep zero out of its two denominators. *)
Lemma of_int_nonzero (n : Z) : n <> 0%Z -> ~ of_int n == 0.
Proof.
  intros Hn. unfold of_int. apply round_nonzero.
  intros H. apply Hn. apply (inject_Z_injective n 0). exact H.
Qed.

(** A rate over a total that did not overflow is a percentage. *)
Lemma rate_bounds (p t : Z) :
  (0 <= p <= t)%Z -> (1 <= t)%Z ->
  0 <= mul (div (of_int p) (of_int t)) hundred /\
  mul (div (of_int p) (of_int t)) hundred <= 100.
Proof.
  intros [Hp Hpt] Ht.
  pose proof (of_int_nonneg p Hp) as H0.
  pose proof (of_int_mono p t Hpt) as H1.
  pose proof (of_int_ge_1 t Ht) as H2.
  assert (Hd : 0 <= of_int p / of_int t /\ of_int p / of_int t <= 1).
  { split.
    - apply Qle_shift_div_l; lra.
    - apply Qle_shift_div_r; lra. }
  assert (Hq : 0 <= div (of_int p) (of_int t) /\ div (of_int p) (of_int t) <= 1).
  { unfold div. split.
    - apply round_ge_const; [exact round_0 | tauto].
    - apply round_le_const; [exact round_1 | tauto]. }
  unfold mul, hundred. split.
  - apply round_ge_const; [exact round_0 | nra].
  - apply round_le_const; [exact round_100 | nra].
Qed.

(** Two sides that did not overflow are at most a hundred points apart. *)
Lemma shift_bounds (pre post : SentimentSummary) :
  nonnegCounts pre -> nonnegCounts post ->
  (Positive pre + Negative pre + Neutral pre <= goint.max_int)%Z ->
  (Positive post + Negative post + Neutral post <= goint.max_int)%Z ->
  - (100) <= calculateSentimentShift pre post /\
  calculateSentimentShift pre post <= 100.
Proof.
  intros Hpre Hpost Mpre Mpost.
  pose proof (classifiedTotal_exact pre Hpre Mpre) as Tpre.
  pose proof (classifiedTotal_exact post Hpost Mpost) as Tpost.
  unfold classifiedTotal in Tpre, Tpost.
  unfold calculateSentimentShift. cbv zeta. rewrite Tpre, Tpost.
  destruct Hpre as (P1 & P2 & P3). destruct Hpost as (Q1 & Q2 & Q3).
  destruct (Z.eqb_spec (Positive pre + Negative pre + Neutral pre) 0) as [E1 | E1];
    [simpl; unfold zero; split; lra |].
  destruct (Z.eqb_spec (Positive post + Negative post + Neutral post) 0) as [E2 | E2];
    [simpl; unfold zero; split; lra |].
  simpl orb. cbv iota.
  destruct (rate_bounds (Positive pre) (Positive pre + Negative pre + Neutral pre))
    as [A1 A2]; [lia | lia |].
  destruct (rate_bounds (Positive post) (Positive post + Negative post + Neutral post))
    as [B1 B2]; [lia | lia |].
  unfold sub. split.
  - apply round_ge_const; [exact round_m100 | lra].
  - apply round_le_const; [exact round_100 | lra].
Qed.

(** The summaries the aggregator produces never overflow, so the shift the
    analysis service reports is always within a hundred points. *)
Lemma summaries_shift_bounds (preS postS : list SentimentResult)
    (preR postR : list Review) :
  (goint.len preS <= goint.max_int)%Z -> (goint.len postS <= goint.max_int)%Z ->
  - (100) <= calculateSentimentShift (calculateSentimentSummary preS preR)
                                     (calculateSentimentSummary postS postR) /\
  calculateSentimentShift (calculateSentimentSummary preS preR)
                          (calculateSentimentSummary postS postR) <= 100.
Proof.
  assert (Hsum : forall (l : list SentimentResult) (r : list Review),
             (goint.len l <= goint.max_int)%Z ->
             nonnegCounts (calculateSentimentSummary l r) /\
             (Positive (calculateSentimentSummary l r)
              + Negative (calculateSentimentSummary l r)
              + Neutral (calculateSentimentSummary l r) <= goint.max_int)%Z).
  { intros l r Hl.
    destruct (countSentiment_fold l SentimentSummary_zero) as (R1 & R2 & R3 & _).
    { unfold nonnegCounts. simpl. lia. }
    { simpl. lia. }
    simpl in R1, R2, R3.
    pose proof (counts_partition l) as Hp.
    pose proof (countOf_nonneg "positive" l).
    pose proof (countOf_nonneg "negative" l).
    pose proof (countOther_nonneg l).
    unfold nonnegCounts, calculateSentimentSummary.
    destruct (0 <? goint.len r)%Z; cbn [Positive Negative Neutral];
      rewrite R1, R2, R3; lia. }
  intros Hpre Hpost.
  destruct (Hsum preS preR Hpre) as [N1 M1].
  destruct (Hsum postS postR Hpost) as [N2 M2].
  now apply shift_bounds.
Qed.

End ShiftBounds.

(** C9 (as amended).  For two summaries with non-negative counts whose
    totals fit in an [int], as those of every summary the aggregator
    produces do, the sentiment shift lies in the closed interval
    [-100, 100]. *)
Theorem C9_shift_bounded (pre post : SentimentSummary) :
  nonnegCounts pre -> nonnegCounts post ->
  Positive pre + Negative pre + Neutral pre <= goint.max_int ->
  Positive post + Negative post + Neutral post <= goint.max_int ->
  (- (100) <= calculateSentimentShift pre post)%Q /\
  (calculateSentimentShift pre post <= 100)%Q.
Proof.
  intros Hpre Hpost Mpre Mpost.
  destruct (shift_bounds pre post Hpre Hpost Mpre Mpost) as [Hlo Hhi].
  split; assumption.
Qed.

Lemma C9_shift_bounded_witness :
  (- (100) <= calculateSentimentShift (counts 1 2 0) (counts 2 0 1))%Q /\
  (calculateSentimentShift (counts 1 2 0) (counts 2 0 1) <= 100)%Q.
Proof.
  apply (C9_shift_bounded (counts 1 2 0) (counts 2 0 1));
    unfold nonnegCounts, goint.max_int; simpl; lia.
Defined.

(** C9 as stated fails: non-negative counts whose sum leaves the range of
    [int] give a negative total, a positive rate of -100 and a shift of
    200. *)
Lemma C9_counterexample :
  let pre := counts goint.max_int 1 0 in
  let post := counts 1 0 0 in
  nonnegCounts pre /\ nonnegCounts post /\
  calculateSentimentShift pre post = 200%Q /\
  ~ (calculateSentimentShift pre post <= 100)%Q.
Proof.
  cbv zeta. split; [| split; [| split]].
  - unfold nonnegCounts, goint.max_int. simpl. lia.
  - unfold nonnegCounts. simpl. lia.
  - vm_compute. reflexivity.
  - intros H. vm_compute in H. apply H. reflexivity.
Qed.

Section ShiftAccuracy.

Import float64.
Local Open Scope Q_scope.

(** A total that is a value of [int] is the number the code computes. *)
Lemma total_exact (s : SentimentSummary) :
  goint.in_range (exactTotal s) -> classifiedTotal s = exactTotal s.
Proof.
  intros Hr. unfold classifiedTotal, goint.add. rewrite wrap64_add_l.
  now apply wrap64_id.
Qed.

Lemma shift_refines (pre post : SentimentSummary) :
  goint.in_range (exactTotal pre) -> goint.in_range (exactTotal post) ->
  calculateSentimentShift pre post
  = if ((exactTotal pre =? 0) || (exactTotal post =? 0))%Z then zero
    else sub (rateOf post) (rateOf pre).
Proof.
  intros Hpre Hpost.
  pose proof (total_exact pre Hpre) as Tpre.
  pose proof (total_exact post Hpost) as Tpost.
  unfold classifiedTotal in Tpre, Tpost.
  unfold calculateSentimentShift, rateOf. cbv zeta. now rewrite Tpre, Tpost.
Qed.

(** A rate computed in float64 is within [200 * eps] of the exact one. *)
Lemma rate_accuracy (p t : Z) :
  (0 <= p <= t)%Z -> (0 < t < 2 ^ 53)%Z ->
  inject_Z p / inject_Z t * 100 - 200 * eps
  <= mul (div (of_int p) (of_int t)) hundred /\
  mul (div (of_int p) (of_int t)) hundred
  <= inject_Z p / inject_Z t * 100 + 200 * eps.
Proof.
  intros [Hp Hpt] [Ht Hlt].
  assert (Heps : 0 < eps) by reflexivity.
  assert (Ep : of_int p == inject_Z p) by (apply of_int_small; lia).
  assert (Et : of_int t == inject_Z t) by (apply of_int_small; lia).
  assert (Pt : 0 < inject_Z t)
    by (change 0 with (inject_Z 0); rewrite <- Zlt_Qlt; lia).
  assert (Pp : 0 <= inject_Z p)
    by (change 0 with (inject_Z 0); rewrite <- Zle_Qle; lia).
  assert (Ppt : inject_Z p <= inject_Z t) by (rewrite <- Zle_Qle; lia).
  set (a := inject_Z p / inject_Z t).
  assert (Ha : 0 <= a /\ a <= 1).
  { unfold a. split; [apply Qle_shift_div_l | apply Qle_shift_div_r]; lra. }
  assert (Hdiv : div (of_int p) (of_int t) = round a).
  { unfold div, a. apply round_comp. now rewrite Ep, Et. }
  rewrite Hdiv. set (q := round a).
  destruct (round_error_nonneg a (proj1 Ha)) as [Q1 Q2]. fold q in Q1, Q2.
  assert (Hq1 : q <= 1) by (apply round_le_const; [exact round_1 | tauto]).
  assert (Hq0 : 0 <= q) by (apply round_ge_const; [exact round_0 | tauto]).
  unfold mul, hundred.
  destruct (round_error_nonneg (q * 100)) as [R1 R2]; [nra |].
  split; nra.
Qed.

(** The shift the code computes is within the tolerance of the exact
    difference of the two rates. *)
Lemma shift_accuracy (pre post : SentimentSummary) :
  nonnegCounts pre -> nonnegCounts post ->
  (0 < exactTotal pre < 2 ^ 53)%Z -> (0 < exactTotal post < 2 ^ 53)%Z ->
  exactRate post - exactRate pre - shiftTolerance <= sub (rateOf post) (rateOf pre) /\
  sub (rateOf post) (rateOf pre) <= exactRate post - exactRate pre + shiftTolerance.
Proof.
  intros (P1 & P2 & P3) (Q1 & Q2 & Q3) Tpre Tpost.
  unfold exactTotal in *.
  destruct (rate_accuracy (Positive pre) (Positive pre + Negative pre + Neutral pre))
    as [A1 A2]; [lia | lia |].
  destruct (rate_accuracy (Positive post) (Positive post + Negative post + Neutral post))
    as [B1 B2]; [lia | lia |].
  destruct (rate_bounds (Positive pre) (Positive pre + Negative pre + Neutral pre))
    as [C1 C2]; [lia | lia |].
  destruct (rate_bounds (Positive post) (Positive post + Negative post + Neutral post))
    as [D1 D2]; [lia | lia |].
  unfold rateOf, exactRate, exactTotal, sub.
  set (rpre := mul (div (of_int (Positive pre)) _) hundred) in *.
  set (rpost := mul (div (of_int (Positive post)) _) hundred) in *.
  destruct (round_error_abs (rpost - rpre) 100) as [E1 E2]; [lra | lra |].
  assert (Htol : 500 * eps <= shiftTolerance) by (unfold eps, shiftTolerance; lra).
  split; lra.
Qed.

End ShiftAccuracy.

(** C1.  Provided each side's total positive+negative+neutral is a value of
    [int], the sentiment shift is 0 when either total is 0, and otherwise it
    is the positive rate of the post side minus the positive rate of the pre
    side, each rate being positive/(positive+negative+neutral)*100 over that
    side's own total, in the arithmetic of float64; for non-negative counts
    and totals below [2^53] the result is within [2^-44] of the exact
    difference of the two percentages. *)
Theorem C1_compute_shift (pre post : SentimentSummary) :
  goint.in_range (exactTotal pre) -> goint.in_range (exactTotal post) ->
  (exactTotal pre = 0 \/ exactTotal post = 0 ->
   calculateSentimentShift pre post = float64.zero) /\
  (exactTotal pre <> 0 -> exactTotal post <> 0 ->
   calculateSentimentShift pre post = float64.sub (rateOf post) (rateOf pre)) /\
  (nonnegCounts pre -> nonnegCounts post ->
   0 < exactTotal pre < 2 ^ 53 -> 0 < exactTotal post < 2 ^ 53 ->
   (exactRate post - exactRate pre - shiftTolerance
    <= calculateSentimentShift pre post)%Q /\
   (calculateSentimentShift pre post
    <= exactRate post - exactRate pre + shiftTolerance)%Q).
Proof.
  intros Hpre Hpost. rewrite (shift_refines pre post Hpre Hpost).
  split; [| split].
  - intros [H | H]; rewrite H; [reflexivity |].
    now rewrite orb_true_r.
  - intros N1 N2. apply Z.eqb_neq in N1, N2. now rewrite N1, N2.
  - intros C1 C2 T1 T2.
    assert (N1 : (exactTotal pre =? 0) = false) by (apply Z.eqb_neq; lia).
    assert (N2 : (exactTotal post =? 0) = false) by (apply Z.eqb_neq; lia).
    rewrite N1, N2. cbn [orb]. now apply shift_accuracy.
Qed.

Lemma C1_compute_shift_witness :
  (exactTotal (counts 1 1 0) = 0 \/ exactTotal (counts 2 0 0) = 0 ->
   calculateSentimentShift (counts 1 1 0) (counts 2 0 0) = float64.zero) /\
  (exactTotal (counts 1 1 0) <> 0 -> exactTotal (counts 2 0 0) <> 0 ->
   calculateSentimentShift (counts 1 1 0) (counts 2 0 0)
   = float64.sub (rateOf (counts 2 0 0)) (rateOf (counts 1 1 0))) /\
  (nonnegCounts (counts 1 1 0) -> nonnegCounts (counts 2 0 0) ->
   0 < exactTotal (counts 1 1 0) < 2 ^ 53 -> 0 < exactTotal (counts 2 0 0) < 2 ^ 53 ->
   (exactRate (counts 2 0 0) - exactRate (counts 1 1 0) - shiftTolerance
    <= calculateSentimentShift (counts 1 1 0) (counts 2 0 0))%Q /\
   (calculateSentimentShift (counts 1 1 0) (counts 2 0 0)
    <= exactRate (counts 2 0 0) - exactRate (counts 1 1 0) + shiftTolerance)%Q).
Proof.
  apply (C1_compute_shift (counts 1 1 0) (counts 2 0 0));
    unfold goint.in_range, goint.min_int, goint.max_int, exactTotal; simpl; lia.
Defined.

(** C1 as stated fails when a total leaves the range of [int].  With counts
    (MaxInt64, 1, 0) against (1, 0, 0) both totals are non-zero and both
    rates are 100, so the difference of the rates is 0, but the code adds
    the counts to MinInt64 and returns 200.  With counts
    (MaxInt64, MaxInt64, 2) the total is 2^64, not 0, and the difference of
    the rates is 50, but the code adds the counts to 0 and returns 0. *)
Lemma C1_counterexample :
  let wide := counts goint.max_int 1 0 in
  let wider := counts goint.max_int goint.max_int 2 in
  let post := counts 1 0 0 in
  (exactTotal wide <> 0 /\ exactTotal post <> 0 /\
   float64.sub (rateOf post) (rateOf wide) = 0%Q /\
   calculateSentimentShift wide post = 200%Q) /\
  (exactTotal wider <> 0 /\
   float64.sub (rateOf post) (rateOf wider) = 50%Q /\
   calculateSentimentShift wider post = 0%Q).
Proof.
  cbv zeta. repeat split; try (vm_compute; discriminate); vm_compute; reflexivity.
Qed.


(** ** Response sanitizer *)

Section Sanitizer.

Local Open Scope string_scope.
Local Open Scope nat_scope.
Local Arguments String.append !_ _ / : simpl nomatch.

Lemma append_nil_r (s : string) : s ++ "" = s.
Proof. induction s as [| c s IH]; simpl; [reflexivity | now rewrite IH]. Qed.

Lemma append_assoc (a b c : string) : (a ++ b) ++ c = a ++ (b ++ c).
Proof. induction a as [| x a IH]; simpl; [reflexivity | now rewrite IH]. Qed.

Lemma length_append (a b : string) :
  String.length (a ++ b) = String.length a + String.length b.
Proof. induction a as [| x a IH]; simpl; [reflexivity | now rewrite IH]. Qed.

Lemma substring_all (s : string) : String.substring 0 (String.length s) s = s.
Proof. induction s as [| c s IH]; simpl; [reflexivity | now rewrite IH]. Qed.

Lemma substring_head (p t : string) :
  String.substring 0 (String.length p) (p ++ t) = p.
Proof.
  induction p as [| c p IH]; simpl; [now destruct t | now rewrite IH].
Qed.

Lemma substring_tail (p t : string) :
  String.substring (String.length p) (String.length t) (p ++ t) = t.
Proof. induction p as [| c p IH]; simpl; [apply substring_all | exact IH]. Qed.

Lemma get_last (t : string) (c : ascii) :
  String.get (String.length t) (t ++ String c "") = Some c.
Proof. induction t as [| x t IH]; simpl; [reflexivity | exact IH]. Qed.

(** Every string is empty or ends in a last byte. *)
Lemma string_snoc_ind (P : string -> Prop) :
  P "" -> (forall s c, P s -> P (s ++ String c "")) -> forall s, P s.
Proof.
  intros H0 Hs s. rewrite <- (string_of_list_ascii_of_string s).
  induction (list_ascii_of_string s) as [| c l IH] using rev_ind; [exact H0 |].
  replace (string_of_list_ascii (l ++ [c]))
    with (string_of_list_ascii l ++ String c "").
  - now apply Hs.
  - clear. induction l as [| x l IH]; simpl; [reflexivity | now rewrite IH].
Qed.

Lemma allBlank_app (a b : string) :
  allBlank (a ++ b) = allBlank a && allBlank b.
Proof.
  induction a as [| c a IH]; simpl; [reflexivity |].
  rewrite IH. now rewrite andb_assoc.
Qed.

(** *** Leading blanks *)

Lemma skipLeading_blank_app (b t : string) :
  allBlank b = true -> skipLeading (b ++ t) = skipLeading t.
Proof.
  induction b as [| c b IH]; simpl; [reflexivity |].
  intros H. apply andb_true_iff in H as [Hc Hb]. rewrite Hc. now apply IH.
Qed.

Lemma skipLeading_id (t : string) : startsBlank t = false -> skipLeading t = t.
Proof. destruct t as [| c t]; simpl; [reflexivity |]. now intros ->. Qed.

Lemma removePrefix_hit (b p t : string) :
  allBlank b = true -> startsBlank (p ++ t) = false ->
  removePrefix (b ++ (p ++ t)) p = t.
Proof.
  intros Hb Hs. unfold removePrefix, gostring.slice, gostring.len.
  rewrite skipLeading_blank_app, skipLeading_id by assumption.
  rewrite Nat.sub_0_r, substring_head, String.eqb_refl, length_append.
  assert (H : (String.length p <=? String.length p + String.length t) = true)
    by (apply Nat.leb_le; lia).
  rewrite H. simpl andb. cbv iota.
  replace (String.length p + String.length t - String.length p)
    with (String.length t) by lia.
  apply substring_tail.
Qed.

Lemma removePrefix_miss (b p t : string) :
  allBlank b = true -> startsBlank t = false -> String.prefix p t = false ->
  removePrefix (b ++ t) p = t.
Proof.
  intros Hb Hs Hp. unfold removePrefix, gostring.slice, gostring.len.
  rewrite skipLeading_blank_app, skipLeading_id by assumption.
  rewrite Nat.sub_0_r.
  destruct (String.eqb_spec (String.substring 0 (String.length p) t) p) as [E | E].
  - apply String.prefix_correct in E. congruence.
  - now rewrite andb_false_r.
Qed.

(** *** Trailing blanks *)

Lemma skipTrailingLoop_blank (fuel : nat) (t : string) (c : ascii) :
  isBlank c = true ->
  skipTrailingLoop (S fuel) (t ++ String c "") = skipTrailingLoop fuel t.
Proof.
  intros Hc. simpl. unfold gostring.len, gostring.at_, gostring.slice.
  rewrite length_append. simpl String.length.
  replace (String.length t + 1 - 1) with (String.length t) by lia.
  rewrite get_last, Hc.
  assert (H : (0 <? String.length t + 1) = true) by (apply Nat.ltb_lt; lia).
  rewrite H. simpl andb. cbv iota.
  now rewrite Nat.sub_0_r, substring_head.
Qed.

Lemma skipTrailingLoop_clean (fuel : nat) (t : string) :
  endsClean t -> skipTrailingLoop fuel t = t.
Proof.
  intros Ht. destruct fuel as [| fuel]; [reflexivity |].
  destruct Ht as [-> | (t' & c & -> & Hc)]; [reflexivity |].
  simpl. unfold gostring.len, gostring.at_.
  rewrite length_append. simpl String.length.
  replace (String.length t' + 1 - 1) with (String.length t') by lia.
  rewrite get_last, Hc. now rewrite andb_false_r.
Qed.

Lemma skipTrailingLoop_app (after : string) :
  allBlank after = true ->
  forall (t : string) (fuel : nat),
    String.length after <= fuel -> endsClean t ->
    skipTrailingLoop fuel (t ++ after) = t.
Proof.
  induction after as [| a c IH] using string_snoc_ind; intros Hb t fuel Hf Ht.
  - rewrite append_nil_r. now apply skipTrailingLoop_clean.
  - rewrite allBlank_app in Hb. apply andb_true_iff in Hb as [Ha Hc].
    simpl in Hc. rewrite andb_true_r in Hc.
    rewrite length_append in Hf. simpl in Hf.
    destruct fuel as [| fuel]; [lia |].
    rewrite <- append_assoc, skipTrailingLoop_blank by exact Hc.
    apply IH; [exact Ha | lia | exact Ht].
Qed.

Lemma skipTrailing_app (t after : string) :
  allBlank after = true -> endsClean t -> skipTrailing (t ++ after) = t.
Proof.
  intros Hb Ht. unfold skipTrailing, gostring.len.
  apply skipTrailingLoop_app; [exact Hb | | exact Ht].
  rewrite length_append. lia.
Qed.

Lemma removeSuffix_fence (t after : string) :
  allBlank after = true -> removeSuffix (t ++ (fence ++ after)) fence = t.
Proof.
  intros Hb. unfold removeSuffix.
  rewrite <- append_assoc, skipTrailing_app; [| exact Hb |].
  - unfold gostring.slice, gostring.len. rewrite length_append.
    replace (String.length t + String.length fence - String.length fence)
      with (String.length t) by lia.
    replace (String.length t + String.length fence - String.length t)
      with (String.length fence) by lia.
    rewrite substring_tail, String.eqb_refl, Nat.sub_0_r, substring_head.
    assert (H : (String.length fence <=? String.length t + String.length fence) = true)
      by (apply Nat.leb_le; lia).
    now rewrite H.
  - right. exists (t ++ "``"), "`"%char. split; [| reflexivity].
    now rewrite append_assoc.
Qed.

End Sanitizer.

Section FenceRoundTrip.

Local Open Scope string_scope.
Local Arguments String.append !_ _ / : simpl nomatch.

Lemma removeSuffix_short (t after : string) :
  allBlank after = true -> t = "" \/ t = "`" \/ t = "``" ->
  removeSuffix (t ++ after) fence = t.
Proof.
  intros Hb Ht. unfold removeSuffix. rewrite skipTrailing_app; [| exact Hb |].
  - destruct Ht as [-> | [-> | ->]]; reflexivity.
  - destruct Ht as [-> | [-> | ->]]; [now left | right | right].
    + exists "", "`"%char. now split.
    + exists "`", "`"%char. now split.
Qed.

Lemma prefix_cons (a b : ascii) (p t : string) :
  String.prefix (String a p) (String b t)
  = if ascii_dec a b then String.prefix p t else false.
Proof. reflexivity. Qed.

Lemma prefix_of_nil (a : ascii) (p : string) : String.prefix (String a p) "" = false.
Proof. reflexivity. Qed.

Lemma prefix_empty (t : string) : String.prefix "" t = true.
Proof. now destruct t. Qed.

(** Compare the leading bytes of a prefix test one at a time. *)
Ltac split_prefix :=
  repeat match goal with
  | |- context [String.prefix (String _ _) (String _ _)] => rewrite prefix_cons
  | H : context [String.prefix (String _ _) (String _ _)] |- _ =>
      rewrite prefix_cons in H
  | |- context [String.prefix (String _ _) ""] => rewrite prefix_of_nil
  | |- context [String.prefix "" ?t] => rewrite (prefix_empty t)
  | H : context [String.prefix "" ?t] |- _ => rewrite (prefix_empty t) in H
  | |- context [if ascii_dec ?a ?b then _ else _] => destruct (ascii_dec a b); subst
  | H : context [if ascii_dec ?a ?b then _ else _] |- _ =>
      destruct (ascii_dec a b); subst
  end;
  try congruence; try reflexivity.

(** After the opening marker is gone, the second prefix removal and the
    suffix removal leave [s] alone. *)
Lemma clean_after_opening (s after : string) :
  allBlank after = true -> startsBlank s = false -> String.prefix fence s = false ->
  removeSuffix (removePrefix (s ++ (fence ++ after)) fence) fence = s.
Proof.
  intros Hb Hs Hp.
  assert (Hmiss : forall x : string,
             startsBlank x = false -> String.prefix fence x = false ->
             removePrefix x fence = x).
  { intros x H1 H2. now apply (removePrefix_miss "" fence x). }
  assert (Hhit : forall x : string, removePrefix (fence ++ x) fence = x).
  { intros x. now apply (removePrefix_hit "" fence x). }
  destruct (String.prefix fence (s ++ (fence ++ after))) eqn:Hq.
  - (* only the strings "", "`" and "``" let the closing fence complete a
       leading fence *)
    assert (Hshort : s = "" \/ s = "`" \/ s = "``").
    { destruct s as [| a [| b [| c r]]]; unfold fence in *;
        simpl String.append in Hq; split_prefix; auto. }
    assert (Heq : s ++ (fence ++ after) = fence ++ (s ++ after)).
    { destruct Hshort as [-> | [-> | ->]]; reflexivity. }
    rewrite Heq, Hhit. now apply removeSuffix_short.
  - rewrite Hmiss; [now apply removeSuffix_fence | | exact Hq].
    destruct s; [reflexivity | exact Hs].
Qed.

(** Appending the closing fence cannot complete the word "json". *)
Lemma no_json_before_fence (s after : string) :
  String.prefix "json" s = false ->
  String.prefix "json" (s ++ (fence ++ after)) = false.
Proof.
  intros Hp.
  destruct s as [| a [| b [| c [| d r]]]]; unfold fence;
    simpl String.append; split_prefix.
Qed.

(** So the tagged marker does not match a bare fence followed by [s]. *)
Lemma bare_fence_not_tagged (s after : string) :
  String.prefix "json" s = false ->
  String.prefix fenceJSON (fence ++ (s ++ (fence ++ after))) = false.
Proof.
  intros Hj. apply (no_json_before_fence s after) in Hj.
  change (fence ++ (s ++ (fence ++ after)))
    with (String "`" (String "`" (String "`" (s ++ (fence ++ after))))).
  unfold fenceJSON. split_prefix.
Qed.

(** *** What is left when a side condition fails *)

Lemma prefix_split (p x : string) :
  String.prefix p x = true -> exists r : string, x = p ++ r.
Proof.
  revert x. induction p as [| a p IH]; intros x H; [now exists x |].
  destruct x as [| b x]; [discriminate |].
  rewrite prefix_cons in H.
  destruct (ascii_dec a b) as [-> |]; [| discriminate].
  destruct (IH x H) as [r ->]. now exists r.
Qed.

Lemma skipLeading_length (s : string) :
  (String.length (skipLeading s) <= String.length s)%nat.
Proof.
  induction s as [| c s IH]; simpl; [lia |].
  destruct (isBlank c); simpl; lia.
Qed.

Lemma skipLeading_shorter (s : string) :
  startsBlank s = true -> (String.length (skipLeading s) < String.length s)%nat.
Proof.
  destruct s as [| c s]; simpl; [discriminate |]. intros ->.
  pose proof (skipLeading_length s). lia.
Qed.

Lemma skipLeading_clean (s : string) : startsBlank (skipLeading s) = false.
Proof.
  induction s as [| c s IH]; simpl; [reflexivity |].
  destruct (isBlank c) eqn:Hc; [exact IH | simpl; exact Hc].
Qed.

Lemma skipLeading_app (s rest : string) :
  startsBlank rest = false -> skipLeading (s ++ rest) = skipLeading s ++ rest.
Proof.
  intros Hr. induction s as [| c s IH]; simpl.
  - now apply skipLeading_id.
  - destruct (isBlank c); [exact IH | reflexivity].
Qed.

Lemma removePrefix_skip (x p : string) :
  removePrefix x p = removePrefix (skipLeading x) p.
Proof.
  unfold removePrefix. now rewrite (skipLeading_id (skipLeading x))
    by apply skipLeading_clean.
Qed.

(** Without its opening marker, a fenced [s] comes out as [s] less its
    leading blanks, and less one more leading fence if it then has one. *)
Lemma clean_after_opening_any (s after : string) :
  allBlank after = true ->
  (String.prefix fence (skipLeading s) = false /\
   removeSuffix (removePrefix (s ++ (fence ++ after)) fence) fence = skipLeading s)
  \/
  (exists r : string,
      skipLeading s = fence ++ r /\
      removeSuffix (removePrefix (s ++ (fence ++ after)) fence) fence = r).
Proof.
  intros Hb. rewrite removePrefix_skip, skipLeading_app by reflexivity.
  destruct (String.prefix fence (skipLeading s)) eqn:Hp.
  - right. destruct (prefix_split _ _ Hp) as [r Hr]. exists r. split; [exact Hr |].
    rewrite Hr, append_assoc.
    change (fence ++ (r ++ (fence ++ after)))
      with ("" ++ (fence ++ (r ++ (fence ++ after)))).
    rewrite (removePrefix_hit "" fence); [| reflexivity | reflexivity].
    now apply removeSuffix_fence.
  - left. split; [reflexivity |].
    apply clean_after_opening; [exact Hb | apply skipLeading_clean | exact Hp].
Qed.

Lemma clean_after_opening_length (s after : string) :
  allBlank after = true ->
  (String.length (removeSuffix (removePrefix (s ++ (fence ++ after)) fence) fence)
   <= String.length s)%nat.
Proof.
  intros Hb. pose proof (skipLeading_length s) as Hl.
  destruct (clean_after_opening_any s after Hb) as [[_ ->] | (r & Hr & ->)];
    [exact Hl |].
  rewrite Hr, length_append in Hl. lia.
Qed.

(** The round trip under the tagged marker holds for no other [s]. *)
Lemma tagged_round_trip_only (s after : string) :
  allBlank after = true ->
  removeSuffix (removePrefix (s ++ (fence ++ after)) fence) fence = s ->
  startsBlank s = false /\ String.prefix fence s = false.
Proof.
  intros Hb Heq.
  assert (Hs : startsBlank s = false).
  { destruct (startsBlank s) eqn:E; [| reflexivity].
    pose proof (skipLeading_shorter s E) as Hlt.
    destruct (clean_after_opening_any s after Hb) as [[_ Hr] | (r & Hr & Hr')].
    - rewrite Heq in Hr. rewrite <- Hr in Hlt. lia.
    - rewrite Heq in Hr'. subst r. rewrite Hr, length_append in Hlt.
      simpl in Hlt. lia. }
  split; [exact Hs |].
  destruct (clean_after_opening_any s after Hb) as [[Hp _] | (r & Hr & Hr')].
  - now rewrite skipLeading_id in Hp.
  - rewrite Heq in Hr'. subst r. rewrite skipLeading_id in Hr by exact Hs.
    apply (f_equal String.length) in Hr. rewrite length_append in Hr.
    simpl in Hr. lia.
Qed.

(** Under the bare marker, an [s] that starts with "json" loses it. *)
Lemma bare_round_trip_only (before after s : string) :
  allBlank before = true -> allBlank after = true ->
  cleanJSONResponse (fenced before fence s after) = s ->
  String.prefix "json" s = false.
Proof.
  intros Hb Ha Heq. destruct (String.prefix "json" s) eqn:Hj; [| reflexivity].
  destruct (prefix_split _ _ Hj) as [r ->].
  unfold cleanJSONResponse, fenced in Heq.
  change (fence ++ (("json" ++ r) ++ (fence ++ after)))
    with (fenceJSON ++ (r ++ (fence ++ after))) in Heq.
  rewrite removePrefix_hit in Heq; [| exact Hb | reflexivity].
  pose proof (clean_after_opening_length r after Ha) as Hl.
  rewrite Heq, length_append in Hl. simpl in Hl. lia.
Qed.

End FenceRoundTrip.

(** C3 (as amended).  Sanitizing [s] wrapped between a code-fence marker
    and the closing fence, with any blanks (spaces, newlines, tabs) before
    the opening marker and after the closing fence, gives back [s] byte for
    byte in these cases and in no other: under the marker with the "json"
    tag, when [s] starts neither with a blank nor with a fence; under the
    bare marker, when [s] does not start with "json". *)
Theorem C3_fence_round_trip (before after s : string) :
  allBlank before = true -> allBlank after = true ->
  (cleanJSONResponse (fenced before fenceJSON s after) = s <->
   startsBlank s = false /\ String.prefix fence s = false) /\
  (cleanJSONResponse (fenced before fence s after) = s <->
   String.prefix "json" s = false).
Proof.
  intros Hb Ha. split; split.
  - unfold cleanJSONResponse, fenced.
    rewrite removePrefix_hit; [| exact Hb | reflexivity].
    now apply tagged_round_trip_only.
  - intros [Hs Hp]. unfold cleanJSONResponse, fenced.
    rewrite removePrefix_hit; [| exact Hb | reflexivity].
    now apply clean_after_opening.
  - now apply bare_round_trip_only.
  - intros Hj. unfold cleanJSONResponse, fenced.
    rewrite removePrefix_miss; [| exact Hb | reflexivity |].
    + change (fence ++ (s ++ (fence ++ after)))%string
        with ("" ++ (fence ++ (s ++ (fence ++ after))))%string.
      rewrite (removePrefix_hit "" fence); [| reflexivity | reflexivity].
      now apply removeSuffix_fence.
    + now apply bare_fence_not_tagged.
Qed.

Lemma C3_fence_round_trip_witness :
  cleanJSONResponse
    (fenced (String.append " " gostring.nl) fenceJSON "[1, 2]" gostring.nl) = "[1, 2]" /\
  cleanJSONResponse
    (fenced (String.append " " gostring.nl) fence "[1, 2]" gostring.nl) = "[1, 2]".
Proof.
  split.
  - apply (proj1 (C3_fence_round_trip (String.append " " gostring.nl) gostring.nl
                    "[1, 2]" eq_refl eq_refl)).
    split; reflexivity.
  - apply (proj2 (C3_fence_round_trip (String.append " " gostring.nl) gostring.nl
                    "[1, 2]" eq_refl eq_refl)).
    reflexivity.
Defined.

(** C3 as stated fails on the usual fenced reply, the content on a line of
    its own between the two markers: the newline before the content is
    dropped and the one after it is kept, so the result is neither the
    content between the markers nor the content without its newlines. *)
Lemma C3_counterexample :
  let body := String.append gostring.nl (String.append "[1]" gostring.nl) in
  let wrapped := fenced "" fenceJSON body "" in
  cleanJSONResponse wrapped = String.append "[1]" gostring.nl /\
  cleanJSONResponse wrapped <> body /\
  cleanJSONResponse wrapped <> "[1]".
Proof.
  cbv zeta. split; [| split].
  - vm_compute. reflexivity.
  - vm_compute. discriminate.
  - vm_compute. discriminate.
Qed.

(** Each side condition of the round trip is needed. *)
Example fence_eats_leading_blank :
  cleanJSONResponse (fenced "" fenceJSON " x" "") = "x".
Proof. vm_compute. reflexivity. Qed.

Example fence_eats_inner_fence :
  cleanJSONResponse (fenced "" fenceJSON "```x" "") = "x".
Proof. vm_compute. reflexivity. Qed.

Example bare_fence_eats_json :
  cleanJSONResponse (fenced "" fence "json123" "") = "123".
Proof. vm_compute. reflexivity. Qed.

Example bare_fence_keeps_leading_blank :
  cleanJSONResponse (fenced "" fence " x" "") = " x".
Proof. vm_compute. reflexivity. Qed.


(** ** Tabular parser *)

Section Layout.

Lemma contentOf_app (a b : list csv.line) :
  contentOf (a ++ b) = contentOf a ++ contentOf b.
Proof.
  induction a as [| [dst | column err | | column] a IH]; simpl; congruence.
Qed.

Lemma contentOf_filler (lead : list csv.line) :
  Forall filler lead -> contentOf lead = [].
Proof.
  induction 1 as [| l lead Hl _ IH]; [reflexivity |].
  destruct l; simpl in *; try contradiction; exact IH.
Qed.

Lemma contentOf_length (input : list csv.line) :
  (length (contentOf input) <= length input)%nat.
Proof.
  induction input as [| [dst | column err | | column] input IH]; simpl; lia.
Qed.


(** The first record of the content is on a line of the input, behind lines
    that carry none. *)
Lemma contentOf_cons_inv (input : list csv.line) (x : csv.line)
    (xs : list csv.line) :
  contentOf input = x :: xs ->
  exists lead rest : list csv.line,
    input = lead ++ x :: rest /\ Forall filler lead /\ contentOf rest = xs.
Proof.
  induction input as [| item input IH]; [discriminate |].
  destruct item as [dst | column err | | column]; simpl; intros H.
  - injection H as <- <-. now exists [], input.
  - injection H as <- <-. now exists [], input.
  - destruct (IH H) as (lead & rest & -> & Hl & Hc).
    exists (csv.Blank :: lead), rest. repeat split; [| exact Hc].
    constructor; [exact I | exact Hl].
  - destruct (IH H) as (lead & rest & -> & Hl & Hc).
    exists (csv.Open column :: lead), rest. repeat split; [| exact Hc].
    constructor; [exact I | exact Hl].
Qed.

Lemma openEnded_lead (lead : list csv.line) (item : csv.line)
    (rest : list csv.line) :
  Forall filler lead -> ~ filler item ->
  forall quoted : bool,
    openEnded (lead ++ item :: rest) quoted = openEnded rest false.
Proof.
  intros Hl Hi. induction Hl as [| l lead Hl _ IH]; intros quoted.
  - destruct item; simpl in *; try reflexivity; now destruct Hi.
  - destruct l; simpl in *; try contradiction; apply IH.
Qed.

Lemma openEnded_quoted (input : list csv.line) :
  contentOf input = [] -> openEnded input true = true.
Proof.
  induction input as [| [dst | column err | | column] input IH]; simpl;
    try discriminate; auto.
Qed.

(** An input without content that does not end inside a quoted field is
    made of empty lines. *)
Lemma all_blank (input : list csv.line) :
  contentOf input = [] -> openEnded input false = false ->
  Forall (eq csv.Blank) input.
Proof.
  induction input as [| [dst | column err | | column] input IH]; simpl;
    try discriminate; intros Hc He.
  - constructor.
  - constructor; [reflexivity | now apply IH].
  - rewrite (openEnded_quoted input Hc) in He. discriminate.
Qed.

Lemma len_cons {A : Type} (x : A) (xs : list A) : goint.len (x :: xs) = 1 + goint.len xs.
Proof. unfold goint.len. simpl length. lia. Qed.

Lemma len_app {A : Type} (xs ys : list A) :
  goint.len (xs ++ ys) = goint.len xs + goint.len ys.
Proof. unfold goint.len. rewrite length_app. lia. Qed.

Lemma len_nonneg {A} (xs : list A) : 0 <= goint.len xs.
Proof. unfold goint.len. lia. Qed.

End Layout.

Section Reader.

(** *** The tokenizer *)

Lemma readRecord_blanks (blanks input : list csv.line) :
  Forall (eq csv.Blank) blanks ->
  forall numLine : Z,
    csv.readRecord (blanks ++ input) numLine None
    = csv.readRecord input (numLine + goint.len blanks) None.
Proof.
  induction 1 as [| l blanks <- _ IH]; intros numLine.
  - unfold goint.len. simpl. now rewrite Z.add_0_r.
  - cbn [app csv.readRecord]. rewrite IH, len_cons. f_equal. lia.
Qed.

(** Inside a quoted field the record keeps the line it started on. *)
Lemma readRecord_quoted (lead : list csv.line) (rest : list csv.line) :
  Forall filler lead ->
  forall (numLine recLine column : Z),
    (forall dst : list string,
        csv.readRecord (lead ++ csv.Row dst :: rest) numLine (Some (recLine, column))
        = (csv.Complete recLine dst, rest, numLine + goint.len lead + 1)) /\
    (forall (col : Z) (err : error),
        csv.readRecord (lead ++ csv.Garbled col err :: rest) numLine
                       (Some (recLine, column))
        = (csv.Broken (csvParseError recLine (numLine + goint.len lead + 1) col err),
           rest, numLine + goint.len lead + 1)).
Proof.
  induction 1 as [| l lead Hl _ IH]; intros numLine recLine column.
  - unfold goint.len. simpl. rewrite Z.add_0_r. split; reflexivity.
  - rewrite len_cons.
    replace (numLine + (1 + goint.len lead) + 1) with (numLine + 1 + goint.len lead + 1)
      by lia.
    destruct l as [dst' | c' e' | | c']; simpl in Hl; try contradiction;
      cbn [app csv.readRecord]; apply IH.
Qed.

(** A record behind lines that carry none is read whole, and the reader is
    left behind its last line. *)
Lemma readRecord_lead (lead : list csv.line) (rest : list csv.line) :
  Forall filler lead ->
  forall numLine : Z,
    exists recLine : Z,
      (forall dst : list string,
          csv.readRecord (lead ++ csv.Row dst :: rest) numLine None
          = (csv.Complete recLine dst, rest, numLine + goint.len lead + 1)) /\
      (forall (col : Z) (err : error),
          csv.readRecord (lead ++ csv.Garbled col err :: rest) numLine None
          = (csv.Broken (csvParseError recLine (numLine + goint.len lead + 1) col err),
             rest, numLine + goint.len lead + 1)).
Proof.
  induction 1 as [| l lead Hl Hlead IH]; intros numLine.
  - exists (numLine + 1). unfold goint.len. simpl. rewrite Z.add_0_r.
    split; reflexivity.
  - rewrite len_cons.
    replace (numLine + (1 + goint.len lead) + 1) with (numLine + 1 + goint.len lead + 1)
      by lia.
    destruct l as [dst' | c' e' | | c']; simpl in Hl; try contradiction.
    + destruct (IH (numLine + 1)) as (recLine & H1 & H2).
      exists recLine. cbn [app csv.readRecord]. split; assumption.
    + exists (numLine + 1). cbn [app csv.readRecord].
      apply (readRecord_quoted lead rest Hlead).
Qed.

(** A record that starts on the next line and runs over [columns] lines
    before the one that completes it. *)
Lemma readRecord_opens (columns : list Z) (rest : list csv.line) (numLine : Z) :
  (forall dst : list string,
      csv.readRecord (map csv.Open columns ++ csv.Row dst :: rest) numLine None
      = (csv.Complete (numLine + 1) dst, rest, numLine + goint.len columns + 1)) /\
  (forall (col : Z) (err : error),
      csv.readRecord (map csv.Open columns ++ csv.Garbled col err :: rest) numLine None
      = (csv.Broken (csvParseError (numLine + 1) (numLine + goint.len columns + 1)
                                   col err),
         rest, numLine + goint.len columns + 1)).
Proof.
  destruct columns as [| c columns].
  - unfold goint.len. simpl. rewrite Z.add_0_r. split; reflexivity.
  - rewrite len_cons.
    replace (numLine + (1 + goint.len columns) + 1)
      with (numLine + 1 + goint.len (map csv.Open columns) + 1)
      by (unfold goint.len; rewrite length_map; lia).
    cbn [map app csv.readRecord]. apply readRecord_quoted.
    apply Forall_forall. intros l (c' & -> & _)%list_elem_of_fmap. exact I.
Qed.

(** What the tokenizer returns, told from the input. *)
Lemma readRecord_spec (input : list csv.line) :
  forall (numLine : Z) (quoted : option (Z * Z)),
    match csv.readRecord input numLine quoted with
    | (csv.EndOfInput, _, _) =>
        quoted = None /\ contentOf input = [] /\ openEnded input false = false
    | (csv.Complete _ dst, rest, _) =>
        exists lead : list csv.line,
          input = lead ++ csv.Row dst :: rest /\ Forall filler lead
    | (csv.Broken err, _, _) => err <> io.EOF
    end.
Proof.
  induction input as [| item input IH]; intros numLine quoted.
  - simpl. destruct quoted as [[recLine column] |]; [discriminate | now repeat split].
  - destruct item as [dst | column err | | column]; cbn [csv.readRecord].
    + now exists [].
    + discriminate.
    + destruct quoted as [[recLine column] |].
      * specialize (IH (numLine + 1) (Some (recLine, 2))).
        destruct (csv.readRecord input _ _) as [[[| recLine' dst | err] rest] n'];
          [destruct IH as [IH _]; discriminate | | exact IH].
        destruct IH as (lead & -> & Hl). exists (csv.Blank :: lead).
        split; [reflexivity | constructor; [exact I | exact Hl]].
      * specialize (IH (numLine + 1) None).
        destruct (csv.readRecord input _ _) as [[[| recLine' dst | err] rest] n'];
          [exact IH | | exact IH].
        destruct IH as (lead & -> & Hl). exists (csv.Blank :: lead).
        split; [reflexivity | constructor; [exact I | exact Hl]].
    + match goal with
      | |- context [csv.readRecord input ?n ?q] => specialize (IH n q)
      end.
      destruct (csv.readRecord input _ _) as [[[| recLine' dst | err] rest] n'];
        [destruct IH as [IH _]; destruct quoted as [[? ?] |]; discriminate | | exact IH].
      destruct IH as (lead & -> & Hl). exists (csv.Open column :: lead).
      split; [reflexivity | constructor; [exact I | exact Hl]].
Qed.

(** *** The reader *)

Lemma incr_wrap (x : Z) : goint.incr (goint.wrap64 x) = goint.wrap64 (x + 1).
Proof. unfold goint.incr. apply wrap64_add_l. Qed.

(** [Read] on a record of the expected width. *)
Lemma Read_row (lead : list csv.line) (dst : list string) (rest : list csv.line)
    (fpr nl : Z) :
  Forall filler lead -> 0 <= fpr -> goint.len dst = fpr ->
  csv.Read {| csv.pending := lead ++ csv.Row dst :: rest; csv.FieldsPerRecord := fpr;
              csv.numLine := nl |}
  = ((dst, None),
     {| csv.pending := rest; csv.FieldsPerRecord := fpr;
        csv.numLine := nl + goint.len lead + 1 |}).
Proof.
  intros Hl Hf Hd. unfold csv.Read. cbn [csv.pending csv.FieldsPerRecord csv.numLine].
  destruct (readRecord_lead lead rest Hl nl) as (recLine & -> & _).
  destruct (Z.ltb_spec 0 fpr) as [Hpos | Hzero].
  - rewrite Hd, Z.eqb_refl. reflexivity.
  - assert (fpr = 0) as -> by lia. rewrite Z.eqb_refl, Hd. reflexivity.
Qed.

(** [Read] on the first record, which fixes the width. *)
Lemma Read_first (lead : list csv.line) (dst : list string) (rest : list csv.line)
    (nl : Z) :
  Forall filler lead ->
  csv.Read {| csv.pending := lead ++ csv.Row dst :: rest; csv.FieldsPerRecord := 0;
              csv.numLine := nl |}
  = ((dst, None),
     {| csv.pending := rest; csv.FieldsPerRecord := goint.len dst;
        csv.numLine := nl + goint.len lead + 1 |}).
Proof.
  intros Hl. unfold csv.Read. cbn [csv.pending csv.FieldsPerRecord csv.numLine].
  destruct (readRecord_lead lead rest Hl nl) as (recLine & -> & _). reflexivity.
Qed.


(** [Read] on a record that cannot be tokenized: the error carries the line
    the record starts on and the line the tokenizer gives up on. *)
Lemma Read_garbled (columns : list Z) (column : Z) (err : error)
    (rest : list csv.line) (fpr nl : Z) :
  csv.Read {| csv.pending := map csv.Open columns ++ csv.Garbled column err :: rest;
              csv.FieldsPerRecord := fpr; csv.numLine := nl |}
  = (([], Some (csvParseError (nl + 1) (nl + goint.len columns + 1) column err)),
     {| csv.pending := rest; csv.FieldsPerRecord := fpr;
        csv.numLine := nl + goint.len columns + 1 |}).
Proof.
  unfold csv.Read. cbn [csv.pending csv.FieldsPerRecord csv.numLine].
  now rewrite (proj2 (readRecord_opens columns rest nl)).
Qed.

(** Empty lines between records are skipped and counted. *)
Lemma Read_blanks (blanks input : list csv.line) (fpr nl : Z) :
  Forall (eq csv.Blank) blanks ->
  csv.Read {| csv.pending := blanks ++ input; csv.FieldsPerRecord := fpr;
              csv.numLine := nl |}
  = csv.Read {| csv.pending := input; csv.FieldsPerRecord := fpr;
                csv.numLine := nl + goint.len blanks |}.
Proof.
  intros Hb. unfold csv.Read. cbn [csv.pending csv.FieldsPerRecord csv.numLine].
  now rewrite readRecord_blanks.
Qed.

(** *** The row loop *)

(** One turn of the row loop. *)
Lemma parseRows_step (fuel : nat) (colIndex : gmap string nat) (r : csv.Reader)
    (lineNum : Z) (acc : list Review) :
  parseRows (S fuel) colIndex r lineNum acc
  = match csv.Read r with
    | ((record, Some e), _) =>
        if bool_decide (e = io.EOF) then (acc, None)
        else ([], Some (fmt.Errorf_w
                (gostring.cat ["error reading line ";
                               gostring.itoa (goint.incr lineNum); ": "]) e ""))
    | ((record, None), r') =>
        parseRows fuel colIndex r' (goint.incr lineNum)
                  (acc ++ [parseRecord colIndex record])
    end.
Proof.
  cbn [parseRows]. destruct (csv.Read r) as [[record [e |]] r']; reflexivity.
Qed.

Lemma parseRows_blanks (colIndex : gmap string nat) (blanks input : list csv.line)
    (fpr nl lineNum : Z) (acc : list Review) (fuel : nat) :
  Forall (eq csv.Blank) blanks ->
  parseRows fuel colIndex
    {| csv.pending := blanks ++ input; csv.FieldsPerRecord := fpr;
       csv.numLine := nl |} lineNum acc
  = parseRows fuel colIndex
      {| csv.pending := input; csv.FieldsPerRecord := fpr;
         csv.numLine := nl + goint.len blanks |} lineNum acc.
Proof.
  intros Hb. destruct fuel as [| fuel]; [reflexivity |].
  now rewrite !parseRows_step, Read_blanks.
Qed.

(** The row loop over lines that hold well-formed rows, in whatever layout:
    each row is read, converted and appended, and the loop goes on with
    what follows, having counted every line. *)
Lemma parseRows_run (colIndex : gmap string nat) (fpr : Z) (tail : list csv.line)
    (good : list (list string)) :
  0 <= fpr -> Forall (fun row => goint.len row = fpr) good ->
  forall (before : list csv.line) (fuel : nat) (nl l : Z) (acc : list Review),
    contentOf before = map csv.Row good -> openEnded before false = false ->
    parseRows (length good + fuel) colIndex
      {| csv.pending := before ++ tail; csv.FieldsPerRecord := fpr;
         csv.numLine := nl |} (goint.wrap64 l) acc
    = parseRows fuel colIndex
        {| csv.pending := tail; csv.FieldsPerRecord := fpr;
           csv.numLine := nl + goint.len before |}
        (goint.wrap64 (l + goint.len good))
        (acc ++ map (parseRecord colIndex) good).
Proof.
  intros Hf Hgood.
  induction Hgood as [| row good Hrow Hgood IH]; intros before fuel nl l acc Hc He.
  - rewrite (parseRows_blanks _ _ _ _ _ _ _ _ (all_blank before Hc He)).
    unfold goint.len at 2. simpl. now rewrite Z.add_0_r, app_nil_r.
  - cbn [map] in Hc.
    destruct (contentOf_cons_inv _ _ _ Hc) as (lead & before' & -> & Hl & Hc').
    rewrite (openEnded_lead lead (csv.Row row) before' Hl (fun H => H)) in He.
    cbn [length Nat.add]. rewrite parseRows_step, <- app_assoc. cbn [app].
    rewrite Read_row by assumption. rewrite incr_wrap, IH by assumption.
    rewrite len_app, !len_cons, <- app_assoc. cbn [map app].
    f_equal; [f_equal; lia | f_equal; lia].
Qed.

(** What the row loop can return: no record and an error, or the records
    so far followed by one record per row of the pending lines, which hold
    rows only (of the fixed width, once it is fixed) and do not end inside a
    quoted field. *)
Lemma parseRows_result (colIndex : gmap string nat) (fuel : nat) :
  forall (r : csv.Reader) (lineNum : Z) (acc : list Review),
    match parseRows fuel colIndex r lineNum acc with
    | (recs, Some _) => recs = []
    | (recs, None) =>
        exists rows : list (list string),
          contentOf (csv.pending r) = map csv.Row rows /\
          openEnded (csv.pending r) false = false /\
          recs = acc ++ map (parseRecord colIndex) rows /\
          (0 < csv.FieldsPerRecord r ->
           Forall (fun row => goint.len row = csv.FieldsPerRecord r) rows)
    end.
Proof.
  induction fuel as [| fuel IH]; intros r lineNum acc; [reflexivity |].
  destruct r as [pending fpr nl]. cbn [csv.pending csv.FieldsPerRecord] in *.
  rewrite parseRows_step. unfold csv.Read.
  cbn [csv.pending csv.FieldsPerRecord csv.numLine].
  pose proof (readRecord_spec pending nl None) as Hspec.
  destruct (csv.readRecord pending nl None) as [[[| recLine dst | err] rest] nl'].
  - destruct Hspec as (_ & Hc & He). cbn.
    exists []. rewrite app_nil_r. repeat split; [exact Hc | exact He | constructor].
  - destruct Hspec as (lead & -> & Hl).
    assert (Hcontent : contentOf (lead ++ csv.Row dst :: rest)
                       = csv.Row dst :: contentOf rest).
    { rewrite contentOf_app, (contentOf_filler lead Hl). reflexivity. }
    assert (Hended : openEnded (lead ++ csv.Row dst :: rest) false
                     = openEnded rest false).
    { apply openEnded_lead; [exact Hl | exact (fun H => H)]. }
    rewrite Hcontent, Hended.
    destruct (Z.ltb_spec 0 fpr) as [Hpos | Hnpos].
    + destruct (Z.eqb_spec (goint.len dst) fpr) as [Hw | Hw]; cbn [negb].
      * specialize (IH {| csv.pending := rest; csv.FieldsPerRecord := fpr;
                          csv.numLine := nl' |}
                       (goint.incr lineNum) (acc ++ [parseRecord colIndex dst])).
        cbn [csv.pending csv.FieldsPerRecord] in IH.
        destruct (parseRows fuel colIndex _ _ _) as [recs [e |]]; [exact IH |].
        destruct IH as (rows & -> & He & -> & Hall).
        exists (dst :: rows). rewrite <- app_assoc. repeat split; [exact He |].
        intros _. constructor; [exact Hw | now apply Hall].
      * rewrite bool_decide_false by discriminate. reflexivity.
    + destruct (Z.eqb_spec fpr 0) as [Hz | Hz].
      * specialize (IH {| csv.pending := rest; csv.FieldsPerRecord := goint.len dst;
                          csv.numLine := nl' |}
                       (goint.incr lineNum) (acc ++ [parseRecord colIndex dst])).
        cbn [csv.pending csv.FieldsPerRecord] in IH.
        destruct (parseRows fuel colIndex _ _ _) as [recs [e |]]; [exact IH |].
        destruct IH as (rows & -> & He & -> & _).
        exists (dst :: rows). rewrite <- app_assoc. repeat split; [exact He | lia].
      * specialize (IH {| csv.pending := rest; csv.FieldsPerRecord := fpr;
                          csv.numLine := nl' |}
                       (goint.incr lineNum) (acc ++ [parseRecord colIndex dst])).
        cbn [csv.pending csv.FieldsPerRecord] in IH.
        destruct (parseRows fuel colIndex _ _ _) as [recs [e |]]; [exact IH |].
        destruct IH as (rows & -> & He & -> & _).
        exists (dst :: rows). rewrite <- app_assoc. repeat split; [exact He | lia].
  - rewrite bool_decide_false by exact Hspec. reflexivity.
Qed.

End Reader.

Section ParseCSVFacts.

(** [ParseCSV] told by what the first read finds. *)
Lemma ParseCSV_cases (reader : list csv.line) :
  ParseCSV reader
  = match csv.readRecord reader 0 None with
    | (csv.EndOfInput, _, _) =>
        ([], Some (fmt.Errorf_w "failed to read CSV header: " io.EOF ""))
    | (csv.Broken err, _, _) =>
        ([], Some (fmt.Errorf_w "failed to read CSV header: " err ""))
    | (csv.Complete _ header, rest, nl) =>
        parseRows (S (length rest)) (indexColumns header 0 ∅)
          {| csv.pending := rest; csv.FieldsPerRecord := goint.len header;
             csv.numLine := nl |} (goint.wrap64 1) []
    end.
Proof.
  unfold ParseCSV, csv.NewReader, csv.Read.
  cbn [csv.pending csv.FieldsPerRecord csv.numLine].
  destruct (csv.readRecord reader 0 None) as [[[| recLine dst | err] rest] nl];
    reflexivity.
Qed.

Lemma ParseCSV_header (lead : list csv.line) (header : list string)
    (rest : list csv.line) :
  Forall filler lead ->
  ParseCSV (lead ++ csv.Row header :: rest)
  = parseRows (S (length rest)) (indexColumns header 0 ∅)
      {| csv.pending := rest; csv.FieldsPerRecord := goint.len header;
         csv.numLine := goint.len lead + 1 |} (goint.wrap64 1) [].
Proof.
  intros Hl. rewrite ParseCSV_cases.
  destruct (readRecord_lead lead rest Hl 0) as (recLine & -> & _). reflexivity.
Qed.

Lemma parseRows_EOF (fuel : nat) (colIndex : gmap string nat) (fpr nl lineNum : Z)
    (acc : list Review) :
  parseRows (S fuel) colIndex
    {| csv.pending := []; csv.FieldsPerRecord := fpr; csv.numLine := nl |} lineNum acc
  = (acc, None).
Proof. reflexivity. Qed.

(** The iteration bound of the row loop is never what stops it. *)
Lemma parseRows_terminates (colIndex : gmap string nat) (fuel : nat) :
  forall (r : csv.Reader) (lineNum : Z) (acc : list Review),
    (length (csv.pending r) < fuel)%nat ->
    (parseRows fuel colIndex r lineNum acc).2 <> Some errIterationBound.
Proof.
  induction fuel as [| fuel IH]; intros r lineNum acc Hlen; [lia |].
  destruct r as [pending fpr nl]. cbn [csv.pending] in Hlen.
  rewrite parseRows_step. unfold csv.Read.
  cbn [csv.pending csv.FieldsPerRecord csv.numLine].
  pose proof (readRecord_spec pending nl None) as Hspec.
  destruct (csv.readRecord pending nl None) as [[[| recLine dst | err] rest] nl'].
  - cbn. discriminate.
  - destruct Hspec as (lead & -> & _). rewrite length_app in Hlen. simpl in Hlen.
    destruct (0 <? fpr);
      [destruct (negb (goint.len dst =? fpr)) | destruct (fpr =? 0)];
      try (apply IH; cbn [csv.pending]; lia).
    rewrite bool_decide_false by discriminate. simpl. discriminate.
  - rewrite bool_decide_false by exact Hspec. simpl. discriminate.
Qed.

Lemma ParseCSV_terminates (reader : list csv.line) :
  (ParseCSV reader).2 <> Some errIterationBound.
Proof.
  rewrite ParseCSV_cases.
  destruct (csv.readRecord reader 0 None) as [[[| recLine dst | err] rest] nl];
    try (simpl; discriminate).
  apply parseRows_terminates. cbn [csv.pending]. lia.
Qed.

(** A parse never keeps records next to an error. *)
Lemma ParseCSV_error_no_records (reader : list csv.line) :
  (ParseCSV reader).2 <> None -> (ParseCSV reader).1 = [].
Proof.
  rewrite ParseCSV_cases.
  destruct (csv.readRecord reader 0 None) as [[[| recLine header | err] rest] nl];
    try reflexivity.
  pose proof (parseRows_result (indexColumns header 0 ∅) (S (length rest))
                {| csv.pending := rest; csv.FieldsPerRecord := goint.len header;
                   csv.numLine := nl |} (goint.wrap64 1) []) as H.
  destruct (parseRows _ _ _ _ _) as [recs [e |]]; simpl; [intros _; exact H |].
  congruence.
Qed.

(** Rows of the header's width parse into one record each, whatever the
    layout of the input. *)
Lemma ParseCSV_rows (reader : list csv.line) (header : list string)
    (rows : list (list string)) :
  contentOf reader = csv.Row header :: map csv.Row rows ->
  openEnded reader false = false ->
  Forall (fun row => length row = length header) rows ->
  ParseCSV reader = (map (parseRecord (indexColumns header 0 ∅)) rows, None).
Proof.
  intros Hc He Hrows.
  destruct (contentOf_cons_inv _ _ _ Hc) as (lead & rest & -> & Hl & Hc').
  rewrite (openEnded_lead lead (csv.Row header) rest Hl (fun H => H)) in He.
  rewrite ParseCSV_header by exact Hl.
  pose proof (contentOf_length rest) as Hlen.
  rewrite Hc', length_map in Hlen.
  replace (S (length rest)) with (length rows + S (length rest - length rows))%nat
    by lia.
  rewrite <- (app_nil_r rest) at 2.
  rewrite (parseRows_run _ (goint.len header) [] rows); try assumption.
  - rewrite parseRows_EOF. reflexivity.
  - apply len_nonneg.
  - eapply Forall_impl; [exact Hrows |].
    intros row Hrow. simpl in Hrow. unfold goint.len. now rewrite Hrow.
Qed.

End ParseCSVFacts.

(** C5.  A tabular input that holds a header row and N data rows of the
    header's width, in whatever layout (empty lines between the rows,
    quoted fields that run over several lines), is parsed with success into
    exactly N canonical records, the i-th record coming from the i-th
    row. *)
Theorem C5_parse_rows (reader : list csv.line) (header : list string)
    (rows : list (list string)) :
  contentOf reader = csv.Row header :: map csv.Row rows ->
  openEnded reader false = false ->
  Forall (fun row => length row = length header) rows ->
  ParseCSV reader = (map (parseRecord (indexColumns header 0 ∅)) rows, None) /\
  length (map (parseRecord (indexColumns header 0 ∅)) rows) = length rows.
Proof.
  intros Hc He Hrows. split; [| apply length_map].
  destruct (contentOf_cons_inv _ _ _ Hc) as (lead & rest & -> & Hl & Hc').
  rewrite (openEnded_lead lead (csv.Row header) rest Hl (fun H => H)) in He.
  rewrite ParseCSV_header by exact Hl.
  pose proof (contentOf_length rest) as Hlen.
  rewrite Hc', length_map in Hlen.
  replace (S (length rest)) with (length rows + S (length rest - length rows))%nat
    by lia.
  rewrite <- (app_nil_r rest) at 2.
  rewrite (parseRows_run _ (goint.len header) [] rows); try assumption.
  - rewrite parseRows_EOF. reflexivity.
  - apply len_nonneg.
  - eapply Forall_impl; [exact Hrows |].
    intros row Hrow. simpl in Hrow. unfold goint.len. now rewrite Hrow.
Qed.

Lemma C5_parse_rows_witness :
  ParseCSV [csv.Blank; csv.Row ["id"; "rating"]; csv.Row ["a"; "5"]; csv.Blank;
            csv.Open 4; csv.Row ["b"; "1"]; csv.Row ["c"; "4"]; csv.Blank]
  = (map (parseRecord (indexColumns ["id"; "rating"] 0 ∅))
         [["a"; "5"]; ["b"; "1"]; ["c"; "4"]], None) /\
  length (map (parseRecord (indexColumns ["id"; "rating"] 0 ∅))
              [["a"; "5"]; ["b"; "1"]; ["c"; "4"]]) = 3%nat.
Proof.
  apply (C5_parse_rows _ ["id"; "rating"] [["a"; "5"]; ["b"; "1"]; ["c"; "4"]]).
  - reflexivity.
  - reflexivity.
  - repeat constructor.
Defined.




(** Without empty lines the two numbers of the message agree. *)
Example parse_failure_message :
  option_map Error
    (snd (ParseCSV [csv.Row ["id"; "rating"]; csv.Row ["a"; "5"]; csv.Row ["b"]]))
  = Some "error reading line 3: record on line 3: wrong number of fields".
Proof. vm_compute. reflexivity. Qed.

(** A record that runs over several lines is named by the line it starts
    on. *)
Example parse_failure_message_quoted :
  option_map Error
    (snd (ParseCSV [csv.Row ["id"; "rating"]; csv.Open 9; csv.Row ["a"; "5"];
                    csv.Open 4; csv.Open 2; csv.Row ["b"]]))
  = Some "error reading line 3: record on line 4: wrong number of fields".
Proof. vm_compute. reflexivity. Qed.

Section Columns.

(** The index map built from the header sends a name to the last position
    where the header has it. *)
Lemma indexColumns_lookup (header : list string) :
  forall (i : nat) (m : gmap string nat) (name : string),
    indexColumns header i m !! name
    = match lastIndex name header i with
      | Some j => Some j
      | None => m !! name
      end.
Proof.
  induction header as [| col rest IH]; intros i m name; simpl; [reflexivity |].
  rewrite IH. destruct (lastIndex name rest (S i)); [reflexivity |].
  rewrite lookup_insert. destruct (decide (col = name)); reflexivity.
Qed.

Lemma lastIndex_Some (name : string) (header : list string) :
  forall i j : nat,
    lastIndex name header i = Some j ->
    exists k : nat, j = (i + k)%nat /\ header !! k = Some name.
Proof.
  induction header as [| col rest IH]; intros i j H; simpl in H; [discriminate |].
  destruct (lastIndex name rest (S i)) as [j' |] eqn:E.
  - injection H as <-. destruct (IH _ _ E) as (k & -> & Hk).
    exists (S k). split; [lia | exact Hk].
  - destruct (decide (col = name)) as [-> |]; [| discriminate].
    injection H as <-. exists 0%nat. split; [lia | reflexivity].
Qed.

Lemma lastIndex_absent (name : string) (header : list string) (i : nat) :
  name ∉ header -> lastIndex name header i = None.
Proof.
  intros Hn. destruct (lastIndex name header i) as [j |] eqn:E; [| reflexivity].
  destruct (lastIndex_Some _ _ _ _ E) as (k & _ & Hk).
  exfalso. apply Hn. eapply list_elem_of_lookup_2. exact Hk.
Qed.

Lemma lastIndex_last (name : string) (header : list string) :
  forall i k : nat,
    header !! k = Some name ->
    (forall j : nat, (k < j)%nat -> header !! j <> Some name) ->
    lastIndex name header i = Some (i + k)%nat.
Proof.
  induction header as [| col rest IH]; intros i k Hk Hlast; [discriminate |].
  simpl. destruct k as [| k].
  - simpl in Hk. injection Hk as ->.
    destruct (lastIndex name rest (S i)) as [j |] eqn:E.
    + destruct (lastIndex_Some _ _ _ _ E) as (k' & _ & Hk').
      exfalso. apply (Hlast (S k')); [lia | exact Hk'].
    + rewrite decide_True by reflexivity. f_equal. lia.
  - simpl in Hk. rewrite (IH (S i) k Hk).
    + f_equal. lia.
    + intros j Hj. apply (Hlast (S j)). lia.
Qed.

(** The guarded access of the source is the lookup of the cell. *)
Lemma withColumn_cell (header record : list string) (name : string)
    (f : string -> Review -> Review) (review : Review) :
  withColumn (indexColumns header 0 ∅) record name f review
  = match cell header record name with
    | Some v => f v review
    | None => review
    end.
Proof.
  unfold withColumn, cell. rewrite indexColumns_lookup, lookup_empty.
  destruct (lastIndex name header 0) as [idx |]; [| reflexivity].
  destruct (Nat.ltb_spec idx (length record)) as [Hlt | Hge].
  - destruct (lookup_lt_is_Some_2 record idx Hlt) as [v Hv].
    rewrite Hv. f_equal. rewrite nth_lookup, Hv. reflexivity.
  - now rewrite lookup_ge_None_2.
Qed.

Lemma parseRecord_cells (header record : list string) :
  parseRecord (indexColumns header 0 ∅) record = reviewOf (cell header record).
Proof.
  unfold parseRecord, reviewOf, ratingOf. rewrite !withColumn_cell.
  unfold assignRating.
  destruct (cell header record "id"), (cell header record "date"),
    (cell header record "user_id"), (cell header record "review_text"),
    (cell header record "source");
    (destruct (cell header record "rating") as [text |];
     [destruct (strconv.Atoi text) as [n [e |]] |]); reflexivity.
Qed.

(** A value written in a column leaves the cells of the other names alone. *)
Lemma cell_other_column (header record : list string) (k : nat) (col v name : string) :
  header !! k = Some col -> col <> name ->
  cell header (<[k := v]> record) name = cell header record name.
Proof.
  intros Hk Hne. unfold cell.
  destruct (lastIndex name header 0) as [j |] eqn:E; [| reflexivity].
  destruct (lastIndex_Some _ _ _ _ E) as (k' & -> & Hk'). simpl.
  apply list_lookup_insert_ne. intros ->. congruence.
Qed.

End Columns.

(** C7.  The record made from a row is told by the row's cells under the
    recognized column names: a recognized column the header lacks leaves its
    field at the zero value; a value under a recognized column is copied as
    it is; a rating that does not parse as an integer leaves [Rating] at 0
    and the row is kept; the values of other columns have no effect. *)
Theorem C7_row_fields (header record : list string) :
  let review := parseRecord (indexColumns header 0 ∅) record in
  review = reviewOf (cell header record) /\
  (forall name : string, name ∉ header -> cell header record name = None) /\
  (forall (k : nat) (name v : string),
      header !! k = Some name ->
      (forall j : nat, (k < j)%nat -> header !! j <> Some name) ->
      record !! k = Some v ->
      cell header record name = Some v) /\
  (forall text : string,
      cell header record "rating" = Some text ->
      (strconv.Atoi text).2 <> None ->
      Rating review = 0) /\
  (forall (k : nat) (col v : string),
      header !! k = Some col -> col ∉ recognized ->
      parseRecord (indexColumns header 0 ∅) (<[k := v]> record) = review).
Proof.
  cbv zeta. split; [apply parseRecord_cells |]. split; [| split; [| split]].
  - intros name Hn. unfold cell. now rewrite lastIndex_absent.
  - intros k name v Hk Hlast Hv. unfold cell.
    rewrite (lastIndex_last name header 0 k Hk Hlast). exact Hv.
  - intros text Hc Hfail. rewrite parseRecord_cells. unfold reviewOf, ratingOf.
    cbn [Rating]. rewrite Hc.
    destruct (strconv.Atoi text) as [n [e |]]; [reflexivity | now elim Hfail].
  - intros k col v Hk Hcol. rewrite !parseRecord_cells.
    assert (Hother : forall name, name ∈ recognized ->
                       cell header (<[k := v]> record) name = cell header record name).
    { intros name Hname. apply (cell_other_column header record k col v name Hk).
      intros ->. contradiction. }
    unfold reviewOf.
    rewrite !Hother by compute_done. reflexivity.
Qed.

Lemma C7_row_fields_witness :
  let header := ["id"; "note"; "rating"] in
  let record := ["r1"; "n/a"; "five"] in
  parseRecord (indexColumns header 0 ∅) record = reviewOf (cell header record) /\
  cell header record "source" = None /\
  cell header record "id" = Some "r1" /\
  Rating (parseRecord (indexColumns header 0 ∅) record) = 0 /\
  parseRecord (indexColumns header 0 ∅) (<[1%nat := "changed"]> record)
  = parseRecord (indexColumns header 0 ∅) record.
Proof.
  cbv zeta.
  destruct (C7_row_fields ["id"; "note"; "rating"] ["r1"; "n/a"; "five"])
    as (H1 & H2 & H3 & H4 & H5).
  split; [exact H1 |]. split; [| split; [| split]].
  - apply H2. compute_done.
  - apply (H3 0%nat); [reflexivity | | reflexivity].
    intros [| [| [| j]]] Hj; simpl; try lia; discriminate.
  - apply (H4 "five"); [reflexivity | vm_compute; discriminate].
  - apply (H5 1%nat "note"); [reflexivity | compute_done].
Defined.


(** ** Provider client *)

Section Gateway.

Variable env : Runtime.
Variable g : GroqClient.

(** Every call of [callGroqAPI] hands exactly one request to the HTTP
    client, whatever comes back. *)
Lemma callGroqAPI_sends (prompt : string) (net : http.Net) :
  http.sent (Groq.callGroqAPI env g prompt net).2
  = http.sent net ++ [chatRequest env g prompt].
Proof.
  unfold Groq.callGroqAPI, json.Marshal, http.NewRequest, Groq.roundTrip.
  cbn [fst snd].
  change (http.HeaderSet "Authorization" _ (http.HeaderSet "Content-Type" _ _))
    with (chatRequest env g prompt).
  destruct (transport env (http.sent net) (chatRequest env g prompt))
    as [err | status err | status body]; try reflexivity.
  destruct (negb (status =? http.StatusOK)); [reflexivity |].
  destruct (json_decode_response env body) as [groqResp [err |]]; [reflexivity |].
  destruct (ResponseError groqResp); [reflexivity |].
  destruct (Choices groqResp); reflexivity.
Qed.

(** A failure of the HTTP client is returned with its context. *)
Lemma callGroqAPI_transport_failure (prompt : string) (net : http.Net) (err : error) :
  transport env (http.sent net) (chatRequest env g prompt) = http.DoFailed err ->
  (Groq.callGroqAPI env g prompt net).1
  = ("", Some (fmt.Errorf_w "failed to call Groq API: " err "")).
Proof.
  intros Ht.
  unfold Groq.callGroqAPI, json.Marshal, http.NewRequest, Groq.roundTrip.
  cbn [fst snd].
  change (http.HeaderSet "Authorization" _ (http.HeaderSet "Content-Type" _ _))
    with (chatRequest env g prompt).
  rewrite Ht. reflexivity.
Qed.

End Gateway.

(** C8.  For the empty review list, sentiment scoring returns the empty
    result set and no error, and the network is left as it was: no request
    is sent to the provider. *)
Theorem C8_empty_scoring (env : Runtime) (g : GroqClient) (net : http.Net) :
  Groq.AnalyzeSentiments env g [] net = (([], None), net).
Proof. reflexivity. Qed.

(** C10.  Theme extraction has no short cut for empty input: for every pair
    of review lists, the empty ones included, it builds its prompt and hands
    exactly one request to the provider; when that call fails, the failure
    is what the extraction returns. *)
Theorem C10_themes_always_call (env : Runtime) (g : GroqClient)
    (preReviews postReviews : list Review) (net : http.Net) :
  let request := chatRequest env g (themesPromptOf preReviews postReviews) in
  http.sent (Groq.ExtractThemes env g preReviews postReviews net).2
  = http.sent net ++ [request] /\
  (forall err : error,
      transport env (http.sent net) request = http.DoFailed err ->
      (Groq.ExtractThemes env g preReviews postReviews net).1
      = ([], Some (fmt.Errorf_w "failed to call Groq API: " err ""))).
Proof.
  cbv zeta. unfold Groq.ExtractThemes.
  fold (themesPromptOf preReviews postReviews).
  pose proof (callGroqAPI_sends env g (themesPromptOf preReviews postReviews) net)
    as Hsent.
  split.
  - destruct (Groq.callGroqAPI env g (themesPromptOf preReviews postReviews) net)
      as [[response [err |]] net']; [exact Hsent |].
    destruct (json_decode_themes env (cleanJSONResponse response)) as [results [err |]];
      exact Hsent.
  - intros err Ht.
    pose proof (callGroqAPI_transport_failure env g _ net err Ht) as Hfail.
    destruct (Groq.callGroqAPI env g (themesPromptOf preReviews postReviews) net)
      as [[response [e |]] net']; simpl in Hfail; [| discriminate].
    injection Hfail as _ ->. reflexivity.
Qed.

Lemma C10_themes_always_call_witness :
  let request := chatRequest unreachableRuntime (NewGroqClient "key")
                   (themesPromptOf [] []) in
  http.sent (Groq.ExtractThemes unreachableRuntime (NewGroqClient "key") [] [] idle).2
  = [request] /\
  (Groq.ExtractThemes unreachableRuntime (NewGroqClient "key") [] [] idle).1
  = ([], Some (fmt.Errorf_w "failed to call Groq API: " connectionRefused "")).
Proof.
  cbv zeta.
  destruct (C10_themes_always_call unreachableRuntime (NewGroqClient "key") [] [] idle)
    as [H1 H2].
  split; [exact H1 |]. apply H2. reflexivity.
Defined.

(** ** Analysis service *)

Section Orchestrator.

Context {C W : Type} `{LLMAnalyzer C W}.

Lemma Errorf_w_message (before : string) (err : error) :
  Error (fmt.Errorf_w before err "") = String.append before (Error err).
Proof.
  unfold fmt.Errorf_w, gostring.cat. simpl fold_right. cbn [Error].
  now rewrite !append_nil_r.
Qed.

Lemma Errorf_w_unwrap (before after : string) (err : error) :
  errors.Unwrap (fmt.Errorf_w before err after) = Some err.
Proof. reflexivity. Qed.

(** Wrapping keeps every kind the cause has. *)
Lemma Errorf_w_is (before after : string) (err target : error) :
  errors.Is err target = true ->
  errors.Is (fmt.Errorf_w before err after) target = true.
Proof.
  intros Hk. unfold fmt.Errorf_w. cbn [errors.Is]. rewrite Hk.
  apply orb_true_r.
Qed.

End Orchestrator.

(** C4.  When a gateway stage of a run fails (scoring of the pre-launch
    reviews, scoring of the post-launch reviews, theme extraction or
    generation of the impact summary), the run returns no analysis result,
    not even a partial one, and its error is the error of the stage wrapped
    under the name of the stage: unwrapping gives the stage's error itself,
    and the message is the stage name followed by the whole message of the
    stage's error, response text included. *)
Theorem C4_stage_failure {C W : Type} `{LLMAnalyzer C W} (now : string)
    (s : DefaultAnalysisService C) (preReviews postReviews : list Review)
    (w w' : W) (st : stage) (err : error) :
  failsAt (llmClient s) preReviews postReviews w st err w' ->
  let reported := fmt.Errorf_w (stageContext st) err "" in
  Analyze now s preReviews postReviews w = (Returns (None, Some reported), w') /\
  errors.Unwrap reported = Some err /\
  (forall target : error,
      errors.Is err target = true -> errors.Is reported target = true) /\
  Error reported = String.append (stageContext st) (Error err).
Proof.
  intros Hfail. cbv zeta.
  split; [| split; [apply Errorf_w_unwrap |
                    split; [apply Errorf_w_is | apply Errorf_w_message]]].
  unfold Analyze. destruct st; simpl in Hfail.
  - destruct Hfail as (v & E1). rewrite E1. reflexivity.
  - destruct Hfail as (preS & w1 & v & E1 & E2). rewrite E1, E2. reflexivity.
  - destruct Hfail as (preS & w1 & postS & w2 & v & E1 & E2 & E3).
    rewrite E1, E2, E3. reflexivity.
  - destruct Hfail as (preS & w1 & postS & w2 & themes & w3 & v & E1 & E2 & E3 & E4).
    rewrite E1, E2, E3. unfold collectionOf, comparisonOf in E4.
    rewrite E4. reflexivity.
Qed.

Lemma C4_stage_failure_witness :
  let env := garbledRuntime "```json oops```" in
  let service := NewAnalysisService (NewGroqClient "key") in
  let cause :=
    fmt.Errorf_w "failed to parse sentiment results: " jsonSyntaxError
                 ", response: oops" in
  let reported := fmt.Errorf_w (stageContext PreSentiments) cause "" in
  Analyze (H := GroqClient_LLMAnalyzer env) "2026-01-01T00:00:00Z" service
    [rated 5] [rated 4] idle
  = (Returns (None, Some reported),
     (Groq.AnalyzeSentiments env (NewGroqClient "key") [rated 5] idle).2) /\
  errors.Unwrap reported = Some cause /\
  (forall target : error,
      errors.Is cause target = true -> errors.Is reported target = true) /\
  Error reported
  = String.append (stageContext PreSentiments) (Error cause).
Proof.
  cbv zeta.
  apply (C4_stage_failure (H := GroqClient_LLMAnalyzer (garbledRuntime "```json oops```"))
           "2026-01-01T00:00:00Z" (NewAnalysisService (NewGroqClient "key"))
           [rated 5] [rated 4] idle _ PreSentiments).
  exists []. vm_compute. reflexivity.
Defined.

(** The message a caller sees for the run above. *)
Example stage_failure_message :
  Error (fmt.Errorf_w (stageContext PreSentiments)
           (fmt.Errorf_w "failed to parse sentiment results: " jsonSyntaxError
                         ", response: oops") "")
  = "failed to analyze pre-launch sentiments: failed to parse sentiment results: invalid character 'o' looking for beginning of value, response: oops".
Proof. vm_compute. reflexivity. Qed.

(** The end-to-end scenario of the specification: two pre-launch reviews
    rated 5 and 1, two post-launch reviews rated 5 and 5. *)
Example end_to_end_scenario :
  exists result : AnalysisResult,
    Analyze "2026-01-01T00:00:00Z" (NewAnalysisService stubClient)
      [rated 5; rated 1] [rated 5; rated 5] tt
    = (Returns (Some result, None), tt) /\
    PreLaunchSentiment (Comparison result)
    = {| Positive := 1; Negative := 1; Neutral := 0; Average := 3%Q |} /\
    PostLaunchSentiment (Comparison result)
    = {| Positive := 2; Negative := 0; Neutral := 0; Average := 5%Q |} /\
    SentimentShift (Comparison result) = 50%Q.
Proof.
  eexists. split; [reflexivity |]. vm_compute. repeat split; reflexivity.
Qed.

(* ===================================================================== *)
(** * Part III. Further properties                                        *)
(* ===================================================================== *)

(** ** Aggregator, continued *)

Section AggregatorMore.

(** The counting loop never touches the average. *)
Lemma countSentiment_fold_Average (l : list SentimentResult) :
  forall acc : SentimentSummary,
    Average (fold_left countSentiment l acc) = Average acc.
Proof.
  induction l as [| s l IH]; intros acc; [reflexivity |].
  simpl fold_left. rewrite IH. unfold countSentiment.
  destruct (String.eqb _ _); [reflexivity |].
  destruct (String.eqb _ _); reflexivity.
Qed.

(** The average of a summary, told from the reviews alone. *)
Lemma summary_Average (sentiments : list SentimentResult) (reviews : list Review) :
  Average (calculateSentimentSummary sentiments reviews)
  = match reviews with
    | [] => float64.zero
    | _ :: _ =>
        float64.div (float64.of_int (sumRatings reviews))
                    (float64.of_int (goint.len reviews))
    end.
Proof.
  unfold calculateSentimentSummary. destruct reviews as [| r reviews].
  - simpl. apply countSentiment_fold_Average.
  - assert (Hpos : (0 <? goint.len (r :: reviews)) = true).
    { apply Z.ltb_lt. unfold goint.len. simpl length. lia. }
    rewrite Hpos. reflexivity.
Qed.

(** The counts of a summary, told from the sentiment results alone. *)
Lemma summary_counts (sentiments : list SentimentResult) (reviews : list Review) :
  Positive (calculateSentimentSummary sentiments reviews)
  = Positive (fold_left countSentiment sentiments SentimentSummary_zero) /\
  Negative (calculateSentimentSummary sentiments reviews)
  = Negative (fold_left countSentiment sentiments SentimentSummary_zero) /\
  Neutral (calculateSentimentSummary sentiments reviews)
  = Neutral (fold_left countSentiment sentiments SentimentSummary_zero).
Proof.
  unfold calculateSentimentSummary.
  destruct (0 <? goint.len reviews); repeat split; reflexivity.
Qed.

Lemma summary_explicit (sentiments : list SentimentResult) (reviews : list Review) :
  goint.len sentiments <= goint.max_int ->
  calculateSentimentSummary sentiments reviews
  = {| Positive := countOf "positive" sentiments;
       Negative := countOf "negative" sentiments;
       Neutral := countOther sentiments;
       Average := match reviews with
                  | [] => float64.zero
                  | _ :: _ =>
                      float64.div (float64.of_int (goint.wrap64 (ratingSum reviews)))
                                  (float64.of_int (goint.len reviews))
                  end |}.
Proof.
  intros Hlen.
  destruct (countSentiment_fold sentiments SentimentSummary_zero)
    as (R1 & R2 & R3 & _).
  { unfold nonnegCounts. simpl. lia. }
  { simpl. lia. }
  simpl in R1, R2, R3.
  destruct (summary_counts sentiments reviews) as (S1 & S2 & S3).
  pose proof (summary_Average sentiments reviews) as S4.
  rewrite sumRatings_exact in S4.
  destruct (calculateSentimentSummary sentiments reviews) as [p n u a].
  simpl in S1, S2, S3, S4. subst. now rewrite R1, R2, R3.
Qed.

Lemma countOf_perm (v : string) (l l' : list SentimentResult) :
  l ≡ₚ l' -> countOf v l = countOf v l'.
Proof. intros Hp. unfold countOf, goint.len. now rewrite Hp. Qed.

Lemma countOther_perm (l l' : list SentimentResult) :
  l ≡ₚ l' -> countOther l = countOther l'.
Proof. intros Hp. unfold countOther, goint.len. now rewrite Hp. Qed.

Lemma ratingSum_perm (r r' : list Review) : r ≡ₚ r' -> ratingSum r = ratingSum r'.
Proof.
  unfold ratingSum. induction 1; simpl; lia.
Qed.

Lemma countOf_app (v : string) (l1 l2 : list SentimentResult) :
  countOf v (l1 ++ l2) = countOf v l1 + countOf v l2.
Proof. unfold countOf, goint.len. rewrite filter_app, length_app. lia. Qed.

Lemma countOther_app (l1 l2 : list SentimentResult) :
  countOther (l1 ++ l2) = countOther l1 + countOther l2.
Proof. unfold countOther, goint.len. rewrite filter_app, length_app. lia. Qed.

End AggregatorMore.

(** X1.  A summary does not depend on the order of the sentiment results
    nor on the order of the reviews. *)
Theorem X1_summary_order (sentiments sentiments' : list SentimentResult)
    (reviews reviews' : list Review) :
  goint.len sentiments <= goint.max_int ->
  sentiments ≡ₚ sentiments' -> reviews ≡ₚ reviews' ->
  calculateSentimentSummary sentiments reviews
  = calculateSentimentSummary sentiments' reviews'.
Proof.
  intros Hlen Hs Hr.
  assert (Hlen' : goint.len sentiments' <= goint.max_int).
  { unfold goint.len in *. now rewrite <- Hs. }
  rewrite !summary_explicit by assumption.
  rewrite (countOf_perm "positive" _ _ Hs), (countOf_perm "negative" _ _ Hs),
    (countOther_perm _ _ Hs).
  f_equal.
  pose proof (Permutation_length Hr) as Hl.
  destruct reviews as [| r reviews], reviews' as [| r' reviews'];
    try discriminate; [reflexivity |].
  rewrite (ratingSum_perm _ _ Hr). unfold goint.len. now rewrite Hl.
Qed.

Lemma X1_summary_order_witness :
  calculateSentimentSummary [verdict "positive"; verdict "negative"] [rated 5; rated 1]
  = calculateSentimentSummary [verdict "negative"; verdict "positive"] [rated 1; rated 5].
Proof.
  apply X1_summary_order.
  - vm_compute. discriminate.
  - apply perm_swap.
  - apply perm_swap.
Defined.

(** X2.  Counts add up over batches: the counts of a summary of two batches
    of sentiment results are the sums of the counts of the two batches. *)
Theorem X2_summary_batches (batch1 batch2 : list SentimentResult)
    (r r1 r2 : list Review) :
  goint.len (batch1 ++ batch2) <= goint.max_int ->
  let whole := calculateSentimentSummary (batch1 ++ batch2) r in
  let part1 := calculateSentimentSummary batch1 r1 in
  let part2 := calculateSentimentSummary batch2 r2 in
  Positive whole = Positive part1 + Positive part2 /\
  Negative whole = Negative part1 + Negative part2 /\
  Neutral whole = Neutral part1 + Neutral part2.
Proof.
  intros Hlen. cbv zeta.
  assert (H1 : goint.len batch1 <= goint.max_int).
  { unfold goint.len in *. rewrite length_app in Hlen. lia. }
  assert (H2 : goint.len batch2 <= goint.max_int).
  { unfold goint.len in *. rewrite length_app in Hlen. lia. }
  rewrite !summary_explicit by assumption. cbn [Positive Negative Neutral].
  rewrite !countOf_app, countOther_app. repeat split; reflexivity.
Qed.

Lemma X2_summary_batches_witness :
  let whole := calculateSentimentSummary
                 ([verdict "positive"; verdict "meh"] ++ [verdict "positive"]) [] in
  let part1 := calculateSentimentSummary [verdict "positive"; verdict "meh"] [rated 2] in
  let part2 := calculateSentimentSummary [verdict "positive"] [] in
  Positive whole = Positive part1 + Positive part2 /\
  Negative whole = Negative part1 + Negative part2 /\
  Neutral whole = Neutral part1 + Neutral part2.
Proof.
  apply (X2_summary_batches [verdict "positive"; verdict "meh"] [verdict "positive"]
           [] [rated 2] []).
  vm_compute. discriminate.
Defined.

(** X3.  The counts of a summary are decided by the sentiment results alone
    and its average rating by the reviews alone: other reviews leave the
    counts as they are, other sentiment results leave the average as it
    is. *)
Theorem X3_summary_separation (sentiments sentiments' : list SentimentResult)
    (reviews reviews' : list Review) :
  (Positive (calculateSentimentSummary sentiments reviews)
   = Positive (calculateSentimentSummary sentiments reviews') /\
   Negative (calculateSentimentSummary sentiments reviews)
   = Negative (calculateSentimentSummary sentiments reviews') /\
   Neutral (calculateSentimentSummary sentiments reviews)
   = Neutral (calculateSentimentSummary sentiments reviews')) /\
  Average (calculateSentimentSummary sentiments reviews)
  = Average (calculateSentimentSummary sentiments' reviews).
Proof.
  destruct (summary_counts sentiments reviews) as (A1 & A2 & A3).
  destruct (summary_counts sentiments reviews') as (B1 & B2 & B3).
  rewrite A1, A2, A3, B1, B2, B3, !summary_Average.
  repeat split; reflexivity.
Qed.

Section ShiftMore.

Import float64.
Local Open Scope Q_scope.

Lemma sub_swap (a b : t) : sub a b = - sub b a.
Proof.
  unfold sub. rewrite <- round_opp. apply round_comp. ring.
Qed.

Lemma sub_self (a b : t) : a = b -> sub a b = 0.
Proof. intros ->. unfold sub. apply round_eq_0. ring. Qed.

Lemma div_self (x : t) : ~ x == 0 -> div x x = 1.
Proof.
  intros Hx. unfold div. rewrite (round_comp (x / x) 1); [exact round_1 |].
  unfold Qdiv. now apply Qmult_inv_r.
Qed.

Lemma div_zero_l (y : t) : div (of_int 0) y = 0.
Proof. unfold div. apply round_eq_0. change (of_int 0) with 0. unfold Qdiv. ring. Qed.

Lemma mul_one_hundred : mul 1 hundred = 100.
Proof. vm_compute. reflexivity. Qed.

Lemma mul_zero_hundred : mul 0 hundred = 0.
Proof. reflexivity. Qed.

Lemma div_mono (a b c d : Z) :
  (0 <= a)%Z -> (0 < b < 2 ^ 53)%Z -> (0 <= c)%Z -> (0 < d < 2 ^ 53)%Z ->
  (a <= b)%Z -> (c <= d)%Z -> (a * d <= c * b)%Z ->
  div (of_int a) (of_int b) <= div (of_int c) (of_int d).
Proof.
  intros Ha Hb Hc Hd Hab Hcd Hx. unfold div. apply round_mono.
  rewrite (of_int_small a), (of_int_small b), (of_int_small c), (of_int_small d)
    by lia.
  assert (Pb : 0 < inject_Z b) by (change 0 with (inject_Z 0); rewrite <- Zlt_Qlt; lia).
  assert (Pd : 0 < inject_Z d) by (change 0 with (inject_Z 0); rewrite <- Zlt_Qlt; lia).
  apply Qle_shift_div_l; [exact Pd |].
  unfold Qdiv. rewrite <- Qmult_assoc, (Qmult_comm (/ inject_Z b)), Qmult_assoc.
  apply Qle_shift_div_r; [exact Pb |].
  rewrite <- !inject_Z_mult, <- Zle_Qle. lia.
Qed.

(** The rate of a side never falls when its exact share does not. *)
Lemma rate_mono (a b c d : Z) :
  (0 <= a)%Z -> (0 < b < 2 ^ 53)%Z -> (0 <= c)%Z -> (0 < d < 2 ^ 53)%Z ->
  (a <= b)%Z -> (c <= d)%Z -> (a * d <= c * b)%Z ->
  mul (div (of_int a) (of_int b)) hundred <= mul (div (of_int c) (of_int d)) hundred.
Proof.
  intros. unfold mul. apply round_mono.
  apply Qmult_le_compat_r; [now apply div_mono | unfold hundred; lra].
Qed.

End ShiftMore.

(** X4.  Swapping the two sides negates the shift. *)
Theorem X4_shift_antisymmetric (pre post : SentimentSummary) :
  calculateSentimentShift post pre = (- calculateSentimentShift pre post)%Q.
Proof.
  unfold calculateSentimentShift. cbv zeta. rewrite orb_comm.
  destruct (_ || _); [reflexivity |]. apply sub_swap.
Qed.

(** X5.  Two sides with the same positive rate show no shift; in particular
    a summary compared with itself shows none. *)
Theorem X5_shift_equal_rates (pre post : SentimentSummary) :
  positiveRate pre = positiveRate post ->
  calculateSentimentShift pre post = float64.zero.
Proof.
  intros Hr. unfold calculateSentimentShift. cbv zeta.
  destruct (_ || _); [reflexivity |].
  fold (classifiedTotal pre). fold (classifiedTotal post).
  fold (positiveRate pre). fold (positiveRate post).
  now apply sub_self.
Qed.

Lemma X5_shift_equal_rates_witness :
  calculateSentimentShift (counts 1 1 0) (counts 3 2 1) = float64.zero.
Proof.
  apply X5_shift_equal_rates. vm_compute. reflexivity.
Defined.

(** X6.  The bounds of the shift are reached: from a side with results but
    no positive one to a side with positive results only the shift is
    exactly 100 (totals within [int]). *)
Theorem X6_shift_extreme (pre post : SentimentSummary) :
  nonnegCounts pre -> Positive pre = 0 ->
  0 < Negative pre + Neutral pre <= goint.max_int ->
  0 < Positive post <= goint.max_int -> Negative post = 0 -> Neutral post = 0 ->
  calculateSentimentShift pre post = 100%Q.
Proof.
  intros Hpre P0 Hpt Hpost N0 U0.
  assert (Tpre : classifiedTotal pre = Negative pre + Neutral pre).
  { rewrite classifiedTotal_exact; [lia | exact Hpre | lia]. }
  assert (Tpost : classifiedTotal post = Positive post).
  { rewrite classifiedTotal_exact; [lia | unfold nonnegCounts; lia | lia]. }
  unfold calculateSentimentShift. cbv zeta.
  fold (classifiedTotal pre). fold (classifiedTotal post).
  rewrite Tpre, Tpost, P0.
  destruct (Z.eqb_spec (Negative pre + Neutral pre) 0) as [E | _]; [lia |].
  destruct (Z.eqb_spec (Positive post) 0) as [E | _]; [lia |].
  simpl orb. cbv iota.
  rewrite div_zero_l, mul_zero_hundred, div_self, mul_one_hundred.
  - vm_compute. reflexivity.
  - apply of_int_nonzero. lia.
Qed.

Lemma X6_shift_extreme_witness :
  calculateSentimentShift (counts 0 2 1) (counts 4 0 0) = 100%Q.
Proof.
  apply X6_shift_extreme; unfold nonnegCounts, goint.max_int; simpl; lia.
Defined.

(** X7.  The sign of the shift follows the positive share: for counts below
    [2^53], with no more positive results than results on either side, the
    shift is not negative when the exact positive share did not fall from
    pre to post, and not positive when it did not rise. *)
Theorem X7_shift_sign (pre post : SentimentSummary) :
  nonnegCounts pre -> nonnegCounts post ->
  0 < Positive pre + Negative pre + Neutral pre < 2 ^ 53 ->
  0 < Positive post + Negative post + Neutral post < 2 ^ 53 ->
  let tpre := Positive pre + Negative pre + Neutral pre in
  let tpost := Positive post + Negative post + Neutral post in
  (Positive pre * tpost <= Positive post * tpre ->
   (0 <= calculateSentimentShift pre post)%Q) /\
  (Positive post * tpre <= Positive pre * tpost ->
   (calculateSentimentShift pre post <= 0)%Q).
Proof.
  intros Hpre Hpost Tpre Tpost. cbv zeta.
  assert (Epre : classifiedTotal pre = Positive pre + Negative pre + Neutral pre).
  { apply classifiedTotal_exact; [exact Hpre | unfold goint.max_int; lia]. }
  assert (Epost : classifiedTotal post = Positive post + Negative post + Neutral post).
  { apply classifiedTotal_exact; [exact Hpost | unfold goint.max_int; lia]. }
  destruct Hpre as (P1 & P2 & P3). destruct Hpost as (Q1 & Q2 & Q3).
  unfold calculateSentimentShift. cbv zeta.
  fold (classifiedTotal pre). fold (classifiedTotal post). rewrite Epre, Epost.
  destruct (Z.eqb_spec (Positive pre + Negative pre + Neutral pre) 0) as [E | _];
    [lia |].
  destruct (Z.eqb_spec (Positive post + Negative post + Neutral post) 0) as [E | _];
    [lia |].
  simpl orb. cbv iota. unfold float64.sub. split; intros Hshare.
  - apply round_ge_const; [exact round_0 |].
    pose proof (rate_mono (Positive pre) (Positive pre + Negative pre + Neutral pre)
                  (Positive post) (Positive post + Negative post + Neutral post)) as Hm.
    assert (Hle : (float64.mul
                     (float64.div (float64.of_int (Positive pre))
                        (float64.of_int (Positive pre + Negative pre + Neutral pre)))
                     float64.hundred
                   <= float64.mul
                        (float64.div (float64.of_int (Positive post))
                           (float64.of_int (Positive post + Negative post + Neutral post)))
                        float64.hundred)%Q) by (apply Hm; lia).
    lra.
  - apply round_le_const; [exact round_0 |].
    pose proof (rate_mono (Positive post) (Positive post + Negative post + Neutral post)
                  (Positive pre) (Positive pre + Negative pre + Neutral pre)) as Hm.
    assert (Hle : (float64.mul
                     (float64.div (float64.of_int (Positive post))
                        (float64.of_int (Positive post + Negative post + Neutral post)))
                     float64.hundred
                   <= float64.mul
                        (float64.div (float64.of_int (Positive pre))
                           (float64.of_int (Positive pre + Negative pre + Neutral pre)))
                        float64.hundred)%Q) by (apply Hm; lia).
    lra.
Qed.

Lemma X7_shift_sign_witness :
  (0 <= calculateSentimentShift (counts 1 2 0) (counts 2 1 0))%Q /\
  (calculateSentimentShift (counts 2 1 0) (counts 1 2 0) <= 0)%Q.
Proof.
  split.
  - apply (proj1 (X7_shift_sign (counts 1 2 0) (counts 2 1 0)
                    ltac:(unfold nonnegCounts; simpl; lia)
                    ltac:(unfold nonnegCounts; simpl; lia)
                    ltac:(simpl; lia) ltac:(simpl; lia))).
    simpl. lia.
  - apply (proj2 (X7_shift_sign (counts 2 1 0) (counts 1 2 0)
                    ltac:(unfold nonnegCounts; simpl; lia)
                    ltac:(unfold nonnegCounts; simpl; lia)
                    ltac:(simpl; lia) ltac:(simpl; lia))).
    simpl. lia.
Defined.

(** ** Response sanitizer, continued *)

Section SanitizerMore.

Local Open Scope string_scope.
Local Open Scope nat_scope.
Local Arguments String.append !_ _ / : simpl nomatch.

Lemma substring_split (n : nat) :
  forall s : string,
    n <= String.length s ->
    s = String.substring 0 n s ++ String.substring n (String.length s - n) s.
Proof.
  induction n as [| n IH]; intros s Hn.
  - rewrite Nat.sub_0_r, substring_all. now destruct s.
  - destruct s as [| c s]; simpl in Hn; [lia |].
    simpl. f_equal. apply IH. lia.
Qed.

Lemma skipLeading_suffix (s : string) : exists a : string, s = a ++ skipLeading s.
Proof.
  induction s as [| c s [a IH]]; [now exists "" |].
  simpl. destruct (isBlank c).
  - exists (String c a). simpl. now rewrite <- IH.
  - now exists "".
Qed.

(** What [removePrefix] returns is a tail of its argument. *)
Lemma removePrefix_suffix (x p : string) : exists a : string, x = a ++ removePrefix x p.
Proof.
  destruct (skipLeading_suffix x) as [a Ha]. unfold removePrefix.
  destruct ((gostring.len p <=? gostring.len (skipLeading x))
            && String.eqb (gostring.slice (skipLeading x) 0 (gostring.len p)) p)
    eqn:Hc; [| now exists a].
  apply andb_true_iff in Hc as [Hlen _]. apply Nat.leb_le in Hlen.
  unfold gostring.slice, gostring.len in *.
  exists (a ++ String.substring 0 (String.length p) (skipLeading x)).
  rewrite append_assoc, <- substring_split by exact Hlen. exact Ha.
Qed.

Lemma skipTrailingLoop_prefix (fuel : nat) :
  forall s : string, exists b : string, s = skipTrailingLoop fuel s ++ b.
Proof.
  induction fuel as [| fuel IH]; intros s; [exists ""; now rewrite append_nil_r |].
  simpl. destruct ((0 <? gostring.len s)
                   && isBlank (gostring.at_ s (gostring.len s - 1)));
    [| exists ""; now rewrite append_nil_r].
  destruct (IH (gostring.slice s 0 (gostring.len s - 1))) as [b Hb].
  unfold gostring.slice, gostring.len in *. rewrite Nat.sub_0_r in *.
  exists (b ++ String.substring (String.length s - 1)
                 (String.length s - (String.length s - 1)) s).
  rewrite <- append_assoc, <- Hb. apply substring_split. lia.
Qed.

(** What [removeSuffix] returns is a head of its argument. *)
Lemma removeSuffix_prefix (y p : string) : exists b : string, y = removeSuffix y p ++ b.
Proof.
  destruct (skipTrailingLoop_prefix (gostring.len y) y) as [b Hb].
  unfold removeSuffix. fold (skipTrailing y) in Hb.
  destruct ((gostring.len p <=? gostring.len (skipTrailing y))
            && String.eqb
                 (gostring.slice (skipTrailing y)
                    (gostring.len (skipTrailing y) - gostring.len p)
                    (gostring.len (skipTrailing y))) p);
    [| now exists b].
  unfold gostring.slice, gostring.len in *. rewrite Nat.sub_0_r.
  exists (String.substring (String.length (skipTrailing y) - String.length p)
            (String.length (skipTrailing y)
             - (String.length (skipTrailing y) - String.length p))
            (skipTrailing y) ++ b).
  rewrite <- append_assoc, <- substring_split by lia. exact Hb.
Qed.

(** *** Replies without fences *)

Lemma skipLeading_allBlank (x : string) : allBlank x = true -> skipLeading x = "".
Proof.
  induction x as [| c x IH]; simpl; [reflexivity |].
  intros H. apply andb_true_iff in H as [-> Hx]. now apply IH.
Qed.

(** A prefix test that succeeds on [s ++ r] succeeds on [s] already, or [s]
    is a proper head of the prefix and [r] goes on with its next byte. *)
Lemma prefix_app_inv (p : string) :
  forall s r : string,
    String.prefix p (s ++ r) = true ->
    String.prefix p s = true \/
    exists (c : ascii) (p2 r' : string), p = s ++ String c p2 /\ r = String c r'.
Proof.
  induction p as [| a p IH]; intros s r H; [left; now destruct s |].
  destruct s as [| b s].
  - right. change ("" ++ r) with r in H. destruct r as [| b r]; [discriminate |].
    rewrite prefix_cons in H.
    destruct (ascii_dec a b) as [-> |]; [| discriminate].
    now exists b, p, r.
  - change (String b s ++ r) with (String b (s ++ r)) in H.
    rewrite prefix_cons in H |- *.
    destruct (ascii_dec a b) as [-> |]; [| discriminate].
    destruct (IH s r H) as [Hl | (c & p2 & r' & -> & ->)]; [now left |].
    right. now exists c, p2, r'.
Qed.

Lemma prefix_app_refl (p r : string) : String.prefix p (p ++ r) = true.
Proof. apply String.prefix_correct. apply substring_head. Qed.

(** Blanks after [s] do not complete a marker that [s] does not start
    with. *)
Lemma no_marker_with_blanks (p s after : string) :
  (forall (q : string) (c : ascii) (p2 : string),
      p = q ++ String c p2 -> isBlank c = false) ->
  allBlank after = true -> String.prefix p s = false ->
  String.prefix p (s ++ after) = false.
Proof.
  intros Hp Hb Hs. destruct (String.prefix p (s ++ after)) eqn:E; [| reflexivity].
  destruct (prefix_app_inv p s after E) as [Hl | (c & p2 & r' & Hpc & ->)];
    [congruence |].
  simpl in Hb. rewrite (Hp s c p2 Hpc) in Hb. discriminate.
Qed.

Lemma fence_bytes (q : string) (c : ascii) (p2 : string) :
  fence = q ++ String c p2 -> isBlank c = false.
Proof.
  unfold fence. intros H.
  destruct q as [| ? [| ? [| ? [| ? q]]]]; simpl in H;
    inversion H; subst; reflexivity.
Qed.

Lemma fenceJSON_bytes (q : string) (c : ascii) (p2 : string) :
  fenceJSON = q ++ String c p2 -> isBlank c = false.
Proof.
  unfold fenceJSON. intros H.
  destruct q as [| ? [| ? [| ? [| ? [| ? [| ? [| ? [| ? q]]]]]]]]; simpl in H;
    inversion H; subst; reflexivity.
Qed.

(** The test of the source decides whether a text ends with a fence. *)
Lemma noFenceAtEnd_by_test (s : string) :
  String.eqb
    (String.substring (String.length s - String.length fence) (String.length fence) s)
    fence = false ->
  noFenceAtEnd s.
Proof.
  intros Ht t ->. rewrite length_append in Ht.
  replace (String.length t + String.length fence - String.length fence)
    with (String.length t) in Ht by lia.
  rewrite substring_tail, String.eqb_refl in Ht. discriminate.
Qed.

Lemma removeSuffix_miss (t after : string) :
  allBlank after = true -> endsClean t -> noFenceAtEnd t ->
  removeSuffix (t ++ after) fence = t.
Proof.
  intros Hb Ht Hn. unfold removeSuffix. rewrite skipTrailing_app by assumption.
  destruct ((gostring.len fence <=? gostring.len t)
            && String.eqb
                 (gostring.slice t (gostring.len t - gostring.len fence)
                    (gostring.len t)) fence) eqn:Hc; [| reflexivity].
  apply andb_true_iff in Hc as [Hlen Heq].
  apply Nat.leb_le in Hlen. apply String.eqb_eq in Heq.
  unfold gostring.slice, gostring.len in *.
  exfalso. apply (Hn (String.substring 0 (String.length t - String.length fence) t)).
  pose proof (substring_split (String.length t - String.length fence) t
                ltac:(lia)) as Hsp.
  rewrite Heq in Hsp. exact Hsp.
Qed.

End SanitizerMore.

(** X8.  The sanitizer only cuts at the two ends: what it returns occurs in
    the response as one block, with no byte changed, added or dropped
    inside. *)
Theorem X8_clean_is_infix (response : string) :
  occursIn (cleanJSONResponse response) response.
Proof.
  unfold occursIn, cleanJSONResponse.
  destruct (removePrefix_suffix response fenceJSON) as [a1 H1].
  destruct (removePrefix_suffix (removePrefix response fenceJSON) fence) as [a2 H2].
  destruct (removeSuffix_prefix
              (removePrefix (removePrefix response fenceJSON) fence) fence) as [b H3].
  exists (String.append a1 a2), b.
  rewrite append_assoc, <- H3, <- H2. exact H1.
Qed.

(** X9.  A reply that carries no fence is only trimmed: blanks before and
    after are dropped and the text between comes back as it is, when it
    neither starts with a blank or a fence nor ends with a blank or a
    fence. *)
Theorem X9_plain_reply_trimmed (before s after : string) :
  allBlank before = true -> allBlank after = true ->
  startsBlank s = false -> String.prefix fence s = false ->
  endsClean s -> noFenceAtEnd s ->
  cleanJSONResponse (String.append before (String.append s after)) = s.
Proof.
  intros Hb Ha Hs Hp He Hn. unfold cleanJSONResponse.
  destruct s as [| c s].
  - (* nothing but blanks *)
    assert (Hall : allBlank (String.append before (String.append "" after)) = true).
    { rewrite allBlank_app, Hb. exact Ha. }
    unfold removePrefix at 2. rewrite (skipLeading_allBlank _ Hall). reflexivity.
  - assert (Hj : String.prefix fenceJSON (String c s) = false).
    { destruct (String.prefix fenceJSON (String c s)) eqn:E; [| reflexivity].
      destruct (prefix_split _ _ E) as [r Hr].
      rewrite Hr in Hp.
      change (String.append fenceJSON r)
        with (String.append fence (String.append "json" r)) in Hp.
      now rewrite prefix_app_refl in Hp. }
    rewrite removePrefix_miss; [| exact Hb | exact Hs |].
    + change (String.append (String c s) after)
        with (String.append "" (String.append (String c s) after)).
      rewrite (removePrefix_miss "" fence); [| reflexivity | exact Hs |].
      * now apply removeSuffix_miss.
      * apply no_marker_with_blanks; [exact fence_bytes | exact Ha | exact Hp].
    + apply no_marker_with_blanks; [exact fenceJSON_bytes | exact Ha | exact Hj].
Qed.

Lemma X9_plain_reply_trimmed_witness :
  cleanJSONResponse
    (String.append (String.append " " gostring.nl)
                   (String.append "[1, 2]" gostring.nl)) = "[1, 2]".
Proof.
  apply (X9_plain_reply_trimmed (String.append " " gostring.nl) "[1, 2]" gostring.nl);
    try reflexivity.
  - right. exists "[1, 2", "]"%char. split; reflexivity.
  - apply noFenceAtEnd_by_test. reflexivity.
Defined.

(** ** Tabular parser, continued *)

Section ParserMore.

(** *** The index of the columns *)

Lemma lastIndex_present (name : string) (header : list string) :
  forall i k : nat,
    header !! k = Some name -> is_Some (lastIndex name header i).
Proof.
  induction header as [| col rest IH]; intros i k Hk; [discriminate |].
  simpl. destruct k as [| k].
  - simpl in Hk. injection Hk as ->.
    destruct (lastIndex name rest (S i)); [eauto |].
    rewrite decide_True by reflexivity. eauto.
  - simpl in Hk. destruct (IH (S i) k Hk) as [j ->]. eauto.
Qed.

Lemma lastIndex_latest (name : string) (header : list string) :
  forall i j k : nat,
    lastIndex name header i = Some j -> header !! k = Some name -> (i + k <= j)%nat.
Proof.
  induction header as [| col rest IH]; intros i j k Hj Hk; [discriminate |].
  simpl in Hj. destruct k as [| k].
  - destruct (lastIndex name rest (S i)) as [j' |] eqn:E.
    + injection Hj as <-. destruct (lastIndex_Some _ _ _ _ E) as (k' & -> & _). lia.
    + destruct (decide (col = name)); [injection Hj as <-; lia | discriminate].
  - simpl in Hk. destruct (lastIndex name rest (S i)) as [j' |] eqn:E.
    + injection Hj as <-. pose proof (IH _ _ _ E Hk). lia.
    + destruct (lastIndex_present name rest (S i) k Hk) as [j' Hj']. congruence.
Qed.

(** With distinct column names, a cell is a pair of the header zipped with
    the record. *)
Lemma cell_zip (header record : list string) (name v : string) :
  NoDup header ->
  cell header record name = Some v <-> (name, v) ∈ zip header record.
Proof.
  intros Hnd. unfold cell. split.
  - destruct (lastIndex name header 0) as [i |] eqn:E; [| discriminate].
    destruct (lastIndex_Some _ _ _ _ E) as (k & -> & Hk). simpl.
    intros Hv.
    exact (elem_of_lookup_zip_with_2 pair header record name v (name, v) k Hk Hv).
  - intros (i & x & y & Heq & Hx & Hy)%elem_of_lookup_zip_with.
    injection Heq as <- <-.
    rewrite (lastIndex_last name header 0 i Hx).
    + exact Hy.
    + intros j Hj Hj'. pose proof (NoDup_lookup _ _ _ _ Hnd Hx Hj'). lia.
Qed.

Lemma cell_perm (header record header' record' : list string) (name : string) :
  NoDup header -> NoDup header' ->
  zip header record ≡ₚ zip header' record' ->
  cell header record name = cell header' record' name.
Proof.
  intros Hnd Hnd' Hp.
  destruct (cell header record name) as [v |] eqn:E.
  - apply (cell_zip _ _ _ _ Hnd) in E. rewrite Hp in E.
    apply (cell_zip _ _ _ _ Hnd') in E. now rewrite E.
  - destruct (cell header' record' name) as [v' |] eqn:E'; [| reflexivity].
    apply (cell_zip _ _ _ _ Hnd') in E'. rewrite <- Hp in E'.
    apply (cell_zip _ _ _ _ Hnd) in E'. congruence.
Qed.

End ParserMore.

(** X10.  A parse is all or nothing: with an error it returns no record;
    without one, the input holds a header row followed by rows only and
    does not end inside a quoted field, the records are those of the rows
    in order, and, for a header with at least one column, every row has the
    header's width.  (The converse of the last case is C5.) *)
Theorem X10_parse_all_or_nothing (reader : list csv.line) :
  match ParseCSV reader with
  | (records, Some _) => records = []
  | (records, None) =>
      exists (header : list string) (rows : list (list string)),
        contentOf reader = csv.Row header :: map csv.Row rows /\
        openEnded reader false = false /\
        records = map (parseRecord (indexColumns header 0 ∅)) rows /\
        (header <> [] -> Forall (fun row => length row = length header) rows)
  end.
Proof.
  rewrite ParseCSV_cases.
  pose proof (readRecord_spec reader 0 None) as Hspec.
  destruct (csv.readRecord reader 0 None) as [[[| recLine header | err] rest] nl];
    try reflexivity.
  destruct Hspec as (lead & -> & Hl).
  pose proof (parseRows_result (indexColumns header 0 ∅) (S (length rest))
                {| csv.pending := rest; csv.FieldsPerRecord := goint.len header;
                   csv.numLine := nl |} (goint.wrap64 1) []) as H.
  cbn [csv.pending csv.FieldsPerRecord] in H.
  destruct (parseRows _ _ _ _ _) as [recs [e |]]; [exact H |].
  destruct H as (rows & Hc & He & -> & Hall).
  exists header, rows. repeat split.
  - rewrite contentOf_app, (contentOf_filler lead Hl). cbn. now rewrite Hc.
  - now rewrite (openEnded_lead lead (csv.Row header) rest Hl (fun H => H)).
  - intros Hne. eapply Forall_impl; [apply Hall |].
    + unfold goint.len. destruct header; [congruence | simpl length; lia].
    + intros row Hrow. simpl in Hrow. unfold goint.len in Hrow. lia.
Qed.

(** X11.  A line the tokenizer cannot read fails the whole parse, and what
    follows the line is not looked at.  Before any record it is reported as
    a header failure.  After a header and rows of the header's width, in
    whatever layout, the error names the position of the failing record
    among the records (the header being 1) and wraps the reader's error,
    which carries the line the failing record starts on and the line the
    tokenizer gave up on. *)
Theorem X11_parse_unreadable_line :
  (forall (blanks : nat) (columns : list Z) (column : Z) (err : error)
          (rest : list csv.line),
      let start := Z.of_nat blanks + 1 in
      let line := Z.of_nat blanks + goint.len columns + 1 in
      ParseCSV (replicate blanks csv.Blank ++ map csv.Open columns
                ++ csv.Garbled column err :: rest)
      = ([], Some (fmt.Errorf_w "failed to read CSV header: "
                     (csvParseError start line column err) ""))) /\
  (forall (header : list string) (good : list (list string))
          (before : list csv.line) (columns : list Z) (column : Z) (err : error)
          (rest : list csv.line),
      contentOf before = csv.Row header :: map csv.Row good ->
      openEnded before false = false ->
      Forall (fun row => length row = length header) good ->
      goint.len good + 2 <= goint.max_int ->
      let position := goint.len good + 2 in
      let start := goint.len before + 1 in
      let line := goint.len before + goint.len columns + 1 in
      ParseCSV (before ++ map csv.Open columns ++ csv.Garbled column err :: rest)
      = ([], Some (fmt.Errorf_w
                     (gostring.cat ["error reading line "; gostring.itoa position; ": "])
                     (csvParseError start line column err) ""))).
Proof.
  split.
  - intros blanks columns column err rest start line.
    assert (Hb : Forall (eq csv.Blank) (replicate blanks csv.Blank)).
    { apply Forall_forall. intros l Hl. apply elem_of_replicate in Hl as [-> _].
      reflexivity. }
    rewrite ParseCSV_cases, (readRecord_blanks _ _ Hb).
    rewrite (proj2 (readRecord_opens columns rest _)).
    unfold goint.len at 1 2 3. rewrite length_replicate. reflexivity.
  - intros header good before columns column err rest Hc He Hgood Hmax
           position start line.
    destruct (contentOf_cons_inv _ _ _ Hc) as (lead & before' & Eb & Hl & Hc').
    assert (Hlen : goint.len before = goint.len lead + 1 + goint.len before').
    { rewrite Eb, len_app, len_cons. lia. }
    pose proof (contentOf_length before') as Hle.
    rewrite Hc', length_map in Hle.
    pose proof (len_nonneg good) as Hg.
    rewrite Eb in He |- *.
    rewrite (openEnded_lead lead (csv.Row header) before' Hl (fun H => H)) in He.
    rewrite <- app_assoc. cbn [app]. rewrite ParseCSV_header by exact Hl.
    set (tail := map csv.Open columns ++ csv.Garbled column err :: rest).
    replace (S (length (before' ++ tail)))
      with (length good + S (length (before' ++ tail) - length good))%nat
      by (rewrite length_app; lia).
    rewrite (parseRows_run _ (goint.len header) tail good); try assumption.
    + unfold tail. rewrite parseRows_step, Read_garbled.
      rewrite bool_decide_false by discriminate. rewrite incr_wrap.
      rewrite wrap64_id
        by (unfold goint.in_range, goint.min_int, goint.max_int in *; lia).
      replace (1 + goint.len good + 1) with position by (unfold position; lia).
      replace (goint.len lead + 1 + goint.len before' + 1) with start
        by (unfold start; lia).
      replace (goint.len lead + 1 + goint.len before' + goint.len columns + 1)
        with line by (unfold line; lia).
      reflexivity.
    + apply len_nonneg.
    + eapply Forall_impl; [exact Hgood |].
      intros row Hrow. simpl in Hrow. unfold goint.len. now rewrite Hrow.
Qed.

Lemma X11_parse_unreadable_line_witness :
  ParseCSV (replicate 1 csv.Blank ++ map csv.Open []
            ++ csv.Garbled 3 (errorString "bare quote") :: [])
  = ([], Some (fmt.Errorf_w "failed to read CSV header: "
                 (csvParseError 2 2 3 (errorString "bare quote")) "")) /\
  ParseCSV ([csv.Row ["id"; "rating"]; csv.Blank; csv.Row ["a"; "5"]]
            ++ map csv.Open [7]
            ++ csv.Garbled 2 (errorString "bare quote") :: [csv.Row ["c"; "4"]])
  = ([], Some (fmt.Errorf_w
                 (gostring.cat ["error reading line "; gostring.itoa 3; ": "])
                 (csvParseError 4 5 2 (errorString "bare quote")) "")).
Proof.
  destruct X11_parse_unreadable_line as [H1 H2].
  split; [apply (H1 1%nat [] 3 (errorString "bare quote") []) |].
  apply (H2 ["id"; "rating"] [["a"; "5"]]
            [csv.Row ["id"; "rating"]; csv.Blank; csv.Row ["a"; "5"]] [7] 2
            (errorString "bare quote") [csv.Row ["c"; "4"]]).
  - reflexivity.
  - reflexivity.
  - repeat constructor.
  - vm_compute. discriminate.
Defined.

(** X12.  The index built from the header sends a name to a position exactly
    when that position is the last one where the header has the name, and
    has no entry for a name exactly when the header lacks it. *)
Theorem X12_column_index (header : list string) (name : string) :
  (forall i : nat,
      indexColumns header 0 ∅ !! name = Some i <->
      header !! i = Some name /\
      (forall j : nat, (i < j)%nat -> header !! j <> Some name)) /\
  (indexColumns header 0 ∅ !! name = None <-> name ∉ header).
Proof.
  rewrite indexColumns_lookup, lookup_empty. split.
  - intros i. split.
    + destruct (lastIndex name header 0) as [j |] eqn:E; [| discriminate].
      intros [= ->]. destruct (lastIndex_Some _ _ _ _ E) as (k & -> & Hk).
      split; [exact Hk |]. intros j Hj Hj'.
      pose proof (lastIndex_latest _ _ _ _ _ E Hj'). lia.
    + intros [Hi Hlast]. now rewrite (lastIndex_last name header 0 i Hi Hlast).
  - split.
    + destruct (lastIndex name header 0) as [j |] eqn:E; [discriminate |].
      intros _ [k Hk]%list_elem_of_lookup.
      destruct (lastIndex_present name header 0 k Hk) as [j Hj]. congruence.
    + intros Hn. now rewrite lastIndex_absent.
Qed.

(** X13.  A file whose header has none of the recognized columns is not
    refused: whatever its layout, every row of the header's width becomes a
    record with all fields at their zero values. *)
Theorem X13_unrecognized_header (reader : list csv.line) (header : list string)
    (rows : list (list string)) :
  contentOf reader = csv.Row header :: map csv.Row rows ->
  openEnded reader false = false ->
  Forall (fun name => name ∉ header) recognized ->
  Forall (fun row => length row = length header) rows ->
  ParseCSV reader = (map (fun _ => Review_zero) rows, None).
Proof.
  intros Hc He Hnone Hrows.
  rewrite (ParseCSV_rows reader header rows Hc He Hrows). f_equal.
  apply map_ext. intros row. rewrite parseRecord_cells.
  assert (Hcell : forall name, name ∈ recognized -> cell header row name = None).
  { intros name Hname. unfold cell. rewrite lastIndex_absent; [reflexivity |].
    rewrite Forall_forall in Hnone. now apply Hnone. }
  unfold reviewOf. rewrite !Hcell by compute_done. reflexivity.
Qed.

Lemma X13_unrecognized_header_witness :
  ParseCSV [csv.Row ["ID"; "Rating"]; csv.Row ["a"; "5"]; csv.Blank;
            csv.Row ["b"; "1"]]
  = (map (fun _ => Review_zero) [["a"; "5"]; ["b"; "1"]], None).
Proof.
  apply (X13_unrecognized_header _ ["ID"; "Rating"] [["a"; "5"]; ["b"; "1"]]).
  - reflexivity.
  - reflexivity.
  - unfold recognized. repeat constructor; compute_done.
  - repeat constructor.
Defined.

(** X14.  The order of the columns does not matter: with distinct column
    names, two header and record pairs that hold the same cells in another
    order give the same record. *)
Theorem X14_column_order (header record header' record' : list string) :
  NoDup header -> NoDup header' ->
  zip header record ≡ₚ zip header' record' ->
  parseRecord (indexColumns header 0 ∅) record
  = parseRecord (indexColumns header' 0 ∅) record'.
Proof.
  intros Hnd Hnd' Hp. rewrite !parseRecord_cells. unfold reviewOf.
  now rewrite !(cell_perm header record header' record' _ Hnd Hnd' Hp).
Qed.

Lemma X14_column_order_witness :
  parseRecord (indexColumns ["id"; "rating"; "source"] 0 ∅) ["a"; "5"; "web"]
  = parseRecord (indexColumns ["rating"; "source"; "id"] 0 ∅) ["5"; "web"; "a"].
Proof.
  apply X14_column_order.
  - repeat constructor; compute_done.
  - repeat constructor; compute_done.
  - simpl. apply (Permutation_cons_append [("rating", "5"); ("source", "web")]).
Defined.

(** ** Provider client, continued *)

Section GatewayMore.

Variable env : Runtime.
Variable g : GroqClient.

(** [callGroqAPI] told by what the HTTP client answers. *)
Lemma callGroqAPI_cases (prompt : string) (net : http.Net) :
  (Groq.callGroqAPI env g prompt net).1
  = match transport env (http.sent net) (chatRequest env g prompt) with
    | http.DoFailed err => ("", Some (fmt.Errorf_w "failed to call Groq API: " err ""))
    | http.BodyUnreadable _ err =>
        ("", Some (fmt.Errorf_w "failed to read response: " err ""))
    | http.Reply status body =>
        if negb (status =? http.StatusOK) then
          ("", Some (fmt.Errorf
                  (gostring.cat ["Groq API error (status "; gostring.itoa status;
                                 "): "; body])))
        else
          match json_decode_response env body with
          | (_, Some err) => ("", Some (fmt.Errorf_w "failed to parse response: " err ""))
          | (groqResp, None) =>
              match ResponseError groqResp with
              | Some message =>
                  ("", Some (fmt.Errorf (gostring.cat ["Groq API error: "; message])))
              | None =>
                  match Choices groqResp with
                  | [] => ("", Some (fmt.Errorf "empty response from Groq"))
                  | choice :: _ => (Content (Message choice), None)
                  end
              end
          end
    end.
Proof.
  unfold Groq.callGroqAPI, json.Marshal, http.NewRequest, Groq.roundTrip.
  cbn [fst snd].
  change (http.HeaderSet "Authorization" _ (http.HeaderSet "Content-Type" _ _))
    with (chatRequest env g prompt).
  destruct (transport env (http.sent net) (chatRequest env g prompt))
    as [err | status err | status body]; try reflexivity.
  destruct (negb (status =? http.StatusOK)); [reflexivity |].
  destruct (json_decode_response env body) as [groqResp [err |]]; [reflexivity |].
  destruct (ResponseError groqResp); [reflexivity |].
  destruct (Choices groqResp); reflexivity.
Qed.

Lemma AnalyzeSentiments_sends (reviews : list Review) (net : http.Net) :
  http.sent (Groq.AnalyzeSentiments env g reviews net).2
  = http.sent net ++ scoringRequests env g reviews.
Proof.
  destruct reviews as [| r reviews]; [simpl; now rewrite app_nil_r |].
  unfold Groq.AnalyzeSentiments, scoringRequests.
  assert (Hlen : (goint.len (r :: reviews) =? 0) = false).
  { apply Z.eqb_neq. unfold goint.len. simpl length. lia. }
  rewrite Hlen. fold (sentimentPromptOf (r :: reviews)).
  pose proof (callGroqAPI_sends env g (sentimentPromptOf (r :: reviews)) net) as Hs.
  destruct (Groq.callGroqAPI env g (sentimentPromptOf (r :: reviews)) net)
    as [[response [err |]] net']; [exact Hs |].
  destruct (json_decode_sentiments env (cleanJSONResponse response))
    as [results [err |]]; exact Hs.
Qed.

Lemma ExtractThemes_sends (preReviews postReviews : list Review) (net : http.Net) :
  http.sent (Groq.ExtractThemes env g preReviews postReviews net).2
  = http.sent net ++ [chatRequest env g (themesPromptOf preReviews postReviews)].
Proof.
  unfold Groq.ExtractThemes. fold (themesPromptOf preReviews postReviews).
  pose proof (callGroqAPI_sends env g (themesPromptOf preReviews postReviews) net)
    as Hs.
  destruct (Groq.callGroqAPI env g (themesPromptOf preReviews postReviews) net)
    as [[response [err |]] net']; [exact Hs |].
  destruct (json_decode_themes env (cleanJSONResponse response)) as [results [err |]];
    exact Hs.
Qed.

Lemma GenerateImpactSummary_sends (pre post : ReviewCollection)
    (comparison : ComparisonResult) (net : http.Net) :
  http.sent (Groq.GenerateImpactSummary env g pre post comparison net).2
  = http.sent net ++ [chatRequest env g (Groq.impactPrompt env pre post comparison)].
Proof.
  unfold Groq.GenerateImpactSummary.
  pose proof (callGroqAPI_sends env g (Groq.impactPrompt env pre post comparison) net)
    as Hs.
  destruct (Groq.callGroqAPI env g (Groq.impactPrompt env pre post comparison) net)
    as [[response [err |]] net']; [exact Hs |].
  destruct (json_decode_impact env (cleanJSONResponse response)) as [result [err |]];
    exact Hs.
Qed.

(** The impact summary is present exactly when there is no error. *)
Lemma GenerateImpactSummary_result (pre post : ReviewCollection)
    (comparison : ComparisonResult) (net : http.Net) :
  let out := (Groq.GenerateImpactSummary env g pre post comparison net).1 in
  (out.1 = None /\ out.2 <> None) \/ (out.1 <> None /\ out.2 = None).
Proof.
  cbv zeta. unfold Groq.GenerateImpactSummary.
  destruct (Groq.callGroqAPI env g _ net) as [[response [err |]] net'];
    [left; split; [reflexivity | discriminate] |].
  destruct (json_decode_impact env (cleanJSONResponse response)) as [result [err |]];
    [left | right]; split; simpl; congruence.
Qed.

End GatewayMore.

(** X15.  A provider call succeeds in one case only: the HTTP client answers
    with status 200, the body decodes, it carries no error object and at
    least one choice; the call then returns the text of the first choice.
    In every other case it returns the empty string with its error. *)
Theorem X15_call_outcome (env : Runtime) (g : GroqClient) (prompt : string)
    (net : http.Net) :
  let out := (Groq.callGroqAPI env g prompt net).1 in
  (out.2 = None <->
   exists (body : string) (groqResp : GroqResponse) (choice : GroqChoice)
          (others : list GroqChoice),
     transport env (http.sent net) (chatRequest env g prompt)
     = http.Reply http.StatusOK body /\
     json_decode_response env body = (groqResp, None) /\
     ResponseError groqResp = None /\
     Choices groqResp = choice :: others /\
     out.1 = Content (Message choice)) /\
  (out.2 <> None -> out.1 = "").
Proof.
  cbv zeta. rewrite callGroqAPI_cases.
  destruct (transport env (http.sent net) (chatRequest env g prompt))
    as [err | status err | status body].
  - split; [split; [discriminate | intros (? & ? & ? & ? & ? & _); discriminate] |].
    reflexivity.
  - split; [split; [discriminate | intros (? & ? & ? & ? & ? & _); discriminate] |].
    reflexivity.
  - destruct (Z.eqb_spec status http.StatusOK) as [-> | Hst]; simpl negb; cbv iota.
    + destruct (json_decode_response env body) as [groqResp [err |]] eqn:Hd.
      { split; [split; [discriminate |] | reflexivity].
        intros (b & r & c & o & Ht & Hd' & _). injection Ht as <-. congruence. }
      destruct (ResponseError groqResp) as [message |] eqn:He.
      { split; [split; [discriminate |] | reflexivity].
        intros (b & r & c & o & Ht & Hd' & He' & _). injection Ht as <-. congruence. }
      destruct (Choices groqResp) as [| choice others] eqn:Hc.
      { split; [split; [discriminate |] | reflexivity].
        intros (b & r & c & o & Ht & Hd' & _ & Hc' & _). injection Ht as <-.
        congruence. }
      split; [| simpl; congruence].
      split; [| reflexivity]. intros _.
      exists body, groqResp, choice, others. repeat split; assumption.
    + split; [split; [discriminate |] | reflexivity].
      intros (b & r & c & o & Ht & _). injection Ht as ? _. contradiction.
Qed.

(** X16.  Sentiment scoring hands no request to the provider for the empty
    list and exactly one, carrying the prompt of the whole list, for any
    other list, whether the call then succeeds or not. *)
Theorem X16_scoring_requests (env : Runtime) (g : GroqClient)
    (reviews : list Review) (net : http.Net) :
  http.sent (Groq.AnalyzeSentiments env g reviews net).2
  = http.sent net
    ++ match reviews with
       | [] => []
       | _ :: _ => [chatRequest env g (sentimentPromptOf reviews)]
       end.
Proof. apply AnalyzeSentiments_sends. Qed.

(** X19.  The impact summary of the provider client is never absent without
    an error, so a run of the analysis service over this client always
    returns: the dereference of the summary cannot panic. *)
Theorem X19_run_never_panics (env : Runtime) (now : string) (g : GroqClient)
    (preReviews postReviews : list Review) (net : http.Net) :
  exists v : option AnalysisResult * option error,
    (Analyze (H := GroqClient_LLMAnalyzer env) now (NewAnalysisService g)
             preReviews postReviews net).1 = Returns v.
Proof.
  unfold Analyze. cbn [AnalyzeSentiments ExtractThemes GenerateImpactSummary
                       GroqClient_LLMAnalyzer llmClient NewAnalysisService].
  destruct (Groq.AnalyzeSentiments env g preReviews net) as [[preS [e |]] n1];
    [eauto |].
  destruct (Groq.AnalyzeSentiments env g postReviews n1) as [[postS [e |]] n2];
    [eauto |].
  destruct (Groq.ExtractThemes env g preReviews postReviews n2) as [[themes [e |]] n3];
    [eauto |].
  match goal with
  | |- context [Groq.GenerateImpactSummary env g ?a ?b ?c n3] =>
      pose proof (GenerateImpactSummary_result env g a b c n3) as Hr;
      destruct (Groq.GenerateImpactSummary env g a b c n3) as [[impact [e |]] n4]
  end; [eauto |].
  cbv zeta in Hr. simpl in Hr.
  destruct impact; [eauto |]. destruct Hr as [[_ H] | [H _]]; congruence.
Qed.

Section PromptsMore.

Local Arguments String.append !_ _ / : simpl nomatch.

Lemma occursIn_refl (s : string) : occursIn s s.
Proof. exists "", "". simpl. now rewrite append_nil_r. Qed.

Lemma occursIn_trans (a b c : string) : occursIn a b -> occursIn b c -> occursIn a c.
Proof.
  intros (x & y & ->) (u & v & ->).
  exists (String.append u x), (String.append y v).
  now rewrite !append_assoc.
Qed.

Lemma cat_app (l1 l2 : list string) :
  gostring.cat (l1 ++ l2) = String.append (gostring.cat l1) (gostring.cat l2).
Proof.
  unfold gostring.cat. induction l1 as [| x l1 IH]; [reflexivity |].
  cbn [app fold_right]. now rewrite IH, append_assoc.
Qed.

Lemma occursIn_cat (x : string) (pieces : list string) :
  x ∈ pieces -> occursIn x (gostring.cat pieces).
Proof.
  intros (l1 & l2 & ->)%list_elem_of_split.
  rewrite cat_app. now exists (gostring.cat l1), (gostring.cat l2).
Qed.

(** A text built line by line is the concatenation of its lines. *)
Lemma fold_lines {A : Type} (f : A -> string) (l : list A) (init : string) :
  fold_left (fun text r => String.append text (f r)) l init
  = String.append init (gostring.cat (map f l)).
Proof.
  revert init. induction l as [| r l IH]; intros init.
  - simpl. now rewrite append_nil_r.
  - cbn [fold_left map]. rewrite IH, append_assoc. reflexivity.
Qed.

Lemma occursIn_lines {A : Type} (f : A -> string) (l : list A) (r : A) :
  r ∈ l ->
  occursIn (f r) (fold_left (fun text r => String.append text (f r)) l "").
Proof.
  intros Hr. rewrite fold_lines. cbn [String.append].
  apply occursIn_cat, list_elem_of_fmap_2, Hr.
Qed.

Lemma formatReviewsForThemes_lines (reviews : list Review) :
  Groq.formatReviewsForThemes reviews = gostring.cat (map themeLine reviews).
Proof. unfold Groq.formatReviewsForThemes. now rewrite (fold_lines themeLine). Qed.

Lemma Errorf_w_full (before after : string) (err : error) :
  Error (fmt.Errorf_w before err (gostring.cat [", response: "; after]))
  = gostring.cat [before; Error err; ", response: "; after].
Proof.
  unfold fmt.Errorf_w. cbn [Error]. unfold gostring.cat. cbn [fold_right].
  now rewrite (append_nil_r (String.append ", response: " _)).
Qed.

End PromptsMore.

(** X17.  Every review of a list is written into the prompts made from the
    list: its scoring line occurs in the scoring prompt and its theme line
    occurs in the theme prompt, on whichever side the list is passed. *)
Theorem X17_prompts_list_every_review (reviews others : list Review) (r : Review) :
  r ∈ reviews ->
  occursIn (Groq.sentimentLine r) (sentimentPromptOf reviews) /\
  occursIn (themeLine r) (themesPromptOf reviews others) /\
  occursIn (themeLine r) (themesPromptOf others reviews).
Proof.
  intros Hr.
  assert (Ht : occursIn (themeLine r) (Groq.formatReviewsForThemes reviews)).
  { rewrite formatReviewsForThemes_lines.
    apply occursIn_cat, list_elem_of_fmap_2, Hr. }
  split; [| split].
  - eapply occursIn_trans; [apply (occursIn_lines Groq.sentimentLine), Hr |].
    unfold sentimentPromptOf, Groq.sentimentPrompt. apply occursIn_cat.
    repeat first [apply list_elem_of_here | apply list_elem_of_further].
  - eapply occursIn_trans; [exact Ht |].
    unfold themesPromptOf, Groq.themesPrompt. apply occursIn_cat.
    do 5 apply list_elem_of_further. apply list_elem_of_here.
  - eapply occursIn_trans; [exact Ht |].
    unfold themesPromptOf, Groq.themesPrompt. apply occursIn_cat.
    do 10 apply list_elem_of_further. apply list_elem_of_here.
Qed.

Lemma X17_prompts_list_every_review_witness :
  occursIn (Groq.sentimentLine (rated 5)) (sentimentPromptOf [rated 1; rated 5]) /\
  occursIn (themeLine (rated 5)) (themesPromptOf [rated 1; rated 5] [rated 2]) /\
  occursIn (themeLine (rated 5)) (themesPromptOf [rated 2] [rated 1; rated 5]).
Proof.
  apply (X17_prompts_list_every_review [rated 1; rated 5] [rated 2] (rated 5)).
  apply list_elem_of_further, list_elem_of_here.
Defined.

(** X18.  When the provider's reply does not decode, each of the three
    operations returns an error that wraps the decoder's error and whose
    message is the operation's context, the decoder's message, and then the
    reply as it was handed to the decoder, that is after the fences were
    stripped, not as the provider sent it. *)
Theorem X18_parse_failure_message (env : Runtime) (g : GroqClient)
    (net net' : http.Net) (response : string) :
  let cleaned := cleanJSONResponse response in
  (forall (reviews : list Review) (e : error),
     reviews <> [] ->
     Groq.callGroqAPI env g (sentimentPromptOf reviews) net = ((response, None), net') ->
     (json_decode_sentiments env cleaned).2 = Some e ->
     exists err : error,
       Groq.AnalyzeSentiments env g reviews net = (([], Some err), net') /\
       errors.Unwrap err = Some e /\
       Error err = gostring.cat ["failed to parse sentiment results: "; Error e;
                                 ", response: "; cleaned]) /\
  (forall (preReviews postReviews : list Review) (e : error),
     Groq.callGroqAPI env g (themesPromptOf preReviews postReviews) net
     = ((response, None), net') ->
     (json_decode_themes env cleaned).2 = Some e ->
     exists err : error,
       Groq.ExtractThemes env g preReviews postReviews net = (([], Some err), net') /\
       errors.Unwrap err = Some e /\
       Error err = gostring.cat ["failed to parse theme results: "; Error e;
                                 ", response: "; cleaned]) /\
  (forall (pre post : ReviewCollection) (comparison : ComparisonResult) (e : error),
     Groq.callGroqAPI env g (Groq.impactPrompt env pre post comparison) net
     = ((response, None), net') ->
     (json_decode_impact env cleaned).2 = Some e ->
     exists err : error,
       Groq.GenerateImpactSummary env g pre post comparison net
       = ((None, Some err), net') /\
       errors.Unwrap err = Some e /\
       Error err = gostring.cat ["failed to parse impact summary: "; Error e;
                                 ", response: "; cleaned]).
Proof.
  cbv zeta. split; [| split].
  - intros reviews e Hne Hcall Hdec.
    unfold Groq.AnalyzeSentiments.
    assert (Hlen : (goint.len reviews =? 0) = false).
    { apply Z.eqb_neq. unfold goint.len. destruct reviews; [congruence |].
      simpl length. lia. }
    rewrite Hlen. fold (sentimentPromptOf reviews). rewrite Hcall.
    destruct (json_decode_sentiments env (cleanJSONResponse response))
      as [results [e' |]]; simpl in Hdec; [| discriminate].
    injection Hdec as ->. eexists. split; [reflexivity |].
    split; [reflexivity | apply Errorf_w_full].
  - intros preReviews postReviews e Hcall Hdec.
    unfold Groq.ExtractThemes. fold (themesPromptOf preReviews postReviews).
    rewrite Hcall.
    destruct (json_decode_themes env (cleanJSONResponse response))
      as [results [e' |]]; simpl in Hdec; [| discriminate].
    injection Hdec as ->. eexists. split; [reflexivity |].
    split; [reflexivity | apply Errorf_w_full].
  - intros pre post comparison e Hcall Hdec.
    unfold Groq.GenerateImpactSummary. rewrite Hcall.
    destruct (json_decode_impact env (cleanJSONResponse response))
      as [result [e' |]]; simpl in Hdec; [| discriminate].
    injection Hdec as ->. eexists. split; [reflexivity |].
    split; [reflexivity | apply Errorf_w_full].
Qed.

Lemma X18_parse_failure_message_witness :
  exists err : error,
    Groq.ExtractThemes (garbledRuntime "oops") (NewGroqClient "key") [] [] idle
    = (([], Some err),
       {| http.sent :=
            [chatRequest (garbledRuntime "oops") (NewGroqClient "key")
                         (themesPromptOf [] [])] |}) /\
    errors.Unwrap err = Some jsonSyntaxError /\
    Error err = gostring.cat ["failed to parse theme results: "; Error jsonSyntaxError;
                              ", response: "; cleanJSONResponse "oops"].
Proof.
  apply (proj1 (proj2 (X18_parse_failure_message (garbledRuntime "oops")
                         (NewGroqClient "key") idle _ "oops")) [] [] jsonSyntaxError);
    reflexivity.
Defined.

(** ** Analysis service, continued *)

Section OrchestratorMore.

Context {C W : Type} `{LLMAnalyzer C W}.

(** What a run that returns a report has gone through. *)
Lemma Analyze_success (now : string) (s : DefaultAnalysisService C)
    (preReviews postReviews : list Review) (w w' : W) (result : option AnalysisResult) :
  Analyze now s preReviews postReviews w = (Returns (result, None), w') ->
  exists (preS : list SentimentResult) (w1 : W) (postS : list SentimentResult) (w2 : W)
         (themes : list ThemeResult) (w3 : W) (impact : ImpactSummary),
    AnalyzeSentiments (llmClient s) preReviews w = ((preS, None), w1) /\
    AnalyzeSentiments (llmClient s) postReviews w1 = ((postS, None), w2) /\
    ExtractThemes (llmClient s) preReviews postReviews w2 = ((themes, None), w3) /\
    GenerateImpactSummary (llmClient s) (collectionOf "pre_launch" preReviews)
      (collectionOf "post_launch" postReviews)
      (comparisonOf preReviews postReviews preS postS themes) w3
    = ((Some impact, None), w') /\
    result = Some {| PreLaunchReviews := collectionOf "pre_launch" preReviews;
                     PostLaunchReviews := collectionOf "post_launch" postReviews;
                     Comparison := comparisonOf preReviews postReviews preS postS themes;
                     Impact := impact;
                     AnalyzedAt := now |}.
Proof.
  unfold Analyze. cbv zeta.
  fold (collectionOf "pre_launch" preReviews).
  fold (collectionOf "post_launch" postReviews).
  destruct (AnalyzeSentiments (llmClient s) preReviews w) as [[preS [e |]] w1] eqn:E1;
    [discriminate |].
  destruct (AnalyzeSentiments (llmClient s) postReviews w1) as [[postS [e |]] w2] eqn:E2;
    [discriminate |].
  destruct (ExtractThemes (llmClient s) preReviews postReviews w2)
    as [[themes [e |]] w3] eqn:E3; [discriminate |].
  change {| PreLaunchSentiment := calculateSentimentSummary preS preReviews;
            PostLaunchSentiment := calculateSentimentSummary postS postReviews;
            SentimentShift := _; Themes := themes |}
    with (comparisonOf preReviews postReviews preS postS themes).
  destruct (GenerateImpactSummary (llmClient s) _ _ _ w3)
    as [[[impact |] [e |]] w4] eqn:E4; try discriminate.
  intros Heq. injection Heq as <- <-.
  exists preS, w1, postS, w2, themes, w3, impact. repeat split; reflexivity || assumption.
Qed.

(** A run that returns gives a report or an error, never both, never
    neither. *)
Lemma Analyze_one_of (now : string) (s : DefaultAnalysisService C)
    (preReviews postReviews : list Review) (w : W)
    (result : option AnalysisResult) (err : option error) :
  (Analyze now s preReviews postReviews w).1 = Returns (result, err) ->
  (result = None /\ err <> None) \/ (result <> None /\ err = None).
Proof.
  unfold Analyze. cbv zeta.
  destruct (AnalyzeSentiments (llmClient s) preReviews w) as [[preS [e |]] w1].
  { intros Heq. injection Heq as <- <-. left. split; [reflexivity | discriminate]. }
  destruct (AnalyzeSentiments (llmClient s) postReviews w1) as [[postS [e |]] w2].
  { intros Heq. injection Heq as <- <-. left. split; [reflexivity | discriminate]. }
  destruct (ExtractThemes (llmClient s) preReviews postReviews w2)
    as [[themes [e |]] w3].
  { intros Heq. injection Heq as <- <-. left. split; [reflexivity | discriminate]. }
  destruct (GenerateImpactSummary (llmClient s) _ _ _ w3)
    as [[[impact |] [e |]] w4]; simpl; try discriminate;
    intros Heq; injection Heq as <- <-;
    [left | right | left]; split; congruence.
Qed.

End OrchestratorMore.

(** X20.  A run returns either a report or an error: whatever the provider
    client is, one of the two is present and the other absent. *)
Theorem X20_report_or_error {C W : Type} `{LLMAnalyzer C W} (now : string)
    (s : DefaultAnalysisService C) (preReviews postReviews : list Review) (w : W)
    (result : option AnalysisResult) (err : option error) :
  (Analyze now s preReviews postReviews w).1 = Returns (result, err) ->
  (result = None <-> err <> None) /\ (err = None <-> result <> None).
Proof.
  intros Hrun. apply Analyze_one_of in Hrun.
  destruct Hrun as [[-> He] | [Hr ->]].
  - repeat split; try tauto; congruence.
  - repeat split; try tauto; congruence.
Qed.

Lemma X20_report_or_error_witness :
  (Some {| PreLaunchReviews := collectionOf "pre_launch" [rated 5];
           PostLaunchReviews := collectionOf "post_launch" [rated 1];
           Comparison := comparisonOf [rated 5] [rated 1]
                           (AnalyzeSentiments stubClient [rated 5] tt).1.1
                           (AnalyzeSentiments stubClient [rated 1] tt).1.1 [];
           Impact := ImpactSummary_zero;
           AnalyzedAt := "now" |} = None <-> @None error <> None) /\
  (@None error = None <->
   Some {| PreLaunchReviews := collectionOf "pre_launch" [rated 5];
           PostLaunchReviews := collectionOf "post_launch" [rated 1];
           Comparison := comparisonOf [rated 5] [rated 1]
                           (AnalyzeSentiments stubClient [rated 5] tt).1.1
                           (AnalyzeSentiments stubClient [rated 1] tt).1.1 [];
           Impact := ImpactSummary_zero;
           AnalyzedAt := "now" |} <> None).
Proof.
  apply (X20_report_or_error "now" (NewAnalysisService stubClient)
                             [rated 5] [rated 1] tt).
  reflexivity.
Defined.

(** X21.  The report of a successful run carries its inputs and its own
    figures: the two collections are the reviews given, with their counts;
    the timestamp is the one read when the report is assembled; the shift is
    the one computed from the two summaries of the report; and the average
    ratings do not depend on what the provider answered. *)
Theorem X21_report_consistent {C W : Type} `{LLMAnalyzer C W} (now : string)
    (s : DefaultAnalysisService C) (preReviews postReviews : list Review) (w w' : W)
    (result : AnalysisResult) :
  Analyze now s preReviews postReviews w = (Returns (Some result, None), w') ->
  PreLaunchReviews result = collectionOf "pre_launch" preReviews /\
  PostLaunchReviews result = collectionOf "post_launch" postReviews /\
  AnalyzedAt result = now /\
  SentimentShift (Comparison result)
  = calculateSentimentShift (PreLaunchSentiment (Comparison result))
                            (PostLaunchSentiment (Comparison result)) /\
  Average (PreLaunchSentiment (Comparison result))
  = Average (calculateSentimentSummary [] preReviews) /\
  Average (PostLaunchSentiment (Comparison result))
  = Average (calculateSentimentSummary [] postReviews).
Proof.
  intros Hrun. apply Analyze_success in Hrun.
  destruct Hrun as (preS & w1 & postS & w2 & themes & w3 & impact & _ & _ & _ & _ & Hr).
  injection Hr as ->. cbn [PreLaunchReviews PostLaunchReviews AnalyzedAt Comparison].
  unfold comparisonOf. cbv zeta.
  cbn [SentimentShift PreLaunchSentiment PostLaunchSentiment].
  repeat split; try reflexivity; now rewrite !summary_Average.
Qed.

Lemma X21_report_consistent_witness :
  let result := {| PreLaunchReviews := collectionOf "pre_launch" [rated 5];
                   PostLaunchReviews := collectionOf "post_launch" [rated 1];
                   Comparison := comparisonOf [rated 5] [rated 1]
                                   (AnalyzeSentiments stubClient [rated 5] tt).1.1
                                   (AnalyzeSentiments stubClient [rated 1] tt).1.1 [];
                   Impact := ImpactSummary_zero;
                   AnalyzedAt := "now" |} in
  PreLaunchReviews result = collectionOf "pre_launch" [rated 5] /\
  PostLaunchReviews result = collectionOf "post_launch" [rated 1] /\
  AnalyzedAt result = "now" /\
  SentimentShift (Comparison result)
  = calculateSentimentShift (PreLaunchSentiment (Comparison result))
                            (PostLaunchSentiment (Comparison result)) /\
  Average (PreLaunchSentiment (Comparison result))
  = Average (calculateSentimentSummary [] [rated 5]) /\
  Average (PostLaunchSentiment (Comparison result))
  = Average (calculateSentimentSummary [] [rated 1]).
Proof.
  apply (X21_report_consistent "now" (NewAnalysisService stubClient)
                               [rated 5] [rated 1] tt tt).
  reflexivity.
Defined.

(** X22.  The shift reported by a successful run lies between -100 and 100,
    provided the provider's two scoring results are slices (their lengths
    are values of int). *)
Theorem X22_report_shift_bounded {C W : Type} `{LLMAnalyzer C W} (now : string)
    (s : DefaultAnalysisService C) (preReviews postReviews : list Review) (w w' : W)
    (result : AnalysisResult) :
  boundedScoring (llmClient s) [preReviews; postReviews] ->
  Analyze now s preReviews postReviews w = (Returns (Some result, None), w') ->
  (- (100) <= SentimentShift (Comparison result))%Q /\
  (SentimentShift (Comparison result) <= 100)%Q.
Proof.
  intros Hb Hrun. apply Analyze_success in Hrun.
  destruct Hrun as (preS & w1 & postS & w2 & themes & w3 & impact
                    & E1 & E2 & _ & _ & Hr).
  injection Hr as ->. cbn [Comparison]. unfold comparisonOf. cbv zeta.
  cbn [SentimentShift].
  apply summaries_shift_bounds.
  - specialize (Hb preReviews w). rewrite E1 in Hb. apply Hb.
    apply list_elem_of_here.
  - specialize (Hb postReviews w1). rewrite E2 in Hb. apply Hb.
    apply list_elem_of_further, list_elem_of_here.
Qed.

Lemma X22_report_shift_bounded_witness :
  let result := {| PreLaunchReviews := collectionOf "pre_launch" [rated 5];
                   PostLaunchReviews := collectionOf "post_launch" [rated 1];
                   Comparison := comparisonOf [rated 5] [rated 1]
                                   (AnalyzeSentiments stubClient [rated 5] tt).1.1
                                   (AnalyzeSentiments stubClient [rated 1] tt).1.1 [];
                   Impact := ImpactSummary_zero;
                   AnalyzedAt := "now" |} in
  (- (100) <= SentimentShift (Comparison result))%Q /\
  (SentimentShift (Comparison result) <= 100)%Q.
Proof.
  apply (X22_report_shift_bounded "now" (NewAnalysisService stubClient)
                                  [rated 5] [rated 1] tt tt).
  - intros reviews w Hin.
    apply elem_of_cons in Hin as [-> | Hin]; [vm_compute; discriminate |].
    apply elem_of_cons in Hin as [-> | Hin]; [vm_compute; discriminate |].
    now apply elem_of_nil in Hin.
  - reflexivity.
Defined.

(** X23.  A run over the provider client sends its requests in a fixed
    order: the scoring of the pre-launch reviews, the scoring of the
    post-launch reviews (each only when its list is not empty), the theme
    extraction, the impact summary.  A run that fails sends an initial part
    of this sequence; a run that returns a report has sent all of it, the
    last request carrying the prompt made from the report's own collections
    and comparison. *)
Theorem X23_request_order (env : Runtime) (now : string) (g : GroqClient)
    (preReviews postReviews : list Review) (net : http.Net) :
  let out := Analyze (H := GroqClient_LLMAnalyzer env) now (NewAnalysisService g)
                     preReviews postReviews net in
  exists l : list http.Request,
    http.sent out.2 = http.sent net ++ l /\
    (l `prefix_of` stagedRequests env g preReviews postReviews \/
     exists prompt : string,
       l = stagedRequests env g preReviews postReviews ++ [chatRequest env g prompt]) /\
    (forall result : AnalysisResult,
       out.1 = Returns (Some result, None) ->
       l = stagedRequests env g preReviews postReviews
           ++ [chatRequest env g
                 (Groq.impactPrompt env (PreLaunchReviews result)
                    (PostLaunchReviews result) (Comparison result))]).
Proof.
  cbv zeta. unfold Analyze, stagedRequests.
  cbn [AnalyzeSentiments ExtractThemes GenerateImpactSummary
       GroqClient_LLMAnalyzer llmClient NewAnalysisService].
  pose proof (AnalyzeSentiments_sends env g preReviews net) as H1.
  destruct (Groq.AnalyzeSentiments env g preReviews net) as [[preS e1] n1].
  cbn [snd] in H1.
  destruct e1 as [e |].
  { exists (scoringRequests env g preReviews). cbn [fst snd].
    split; [exact H1 |]. split; [left; now eexists | discriminate]. }
  pose proof (AnalyzeSentiments_sends env g postReviews n1) as H2.
  destruct (Groq.AnalyzeSentiments env g postReviews n1) as [[postS e2] n2].
  cbn [snd] in H2. rewrite H1 in H2.
  destruct e2 as [e |].
  { exists (scoringRequests env g preReviews ++ scoringRequests env g postReviews).
    cbn [fst snd]. split; [now rewrite H2, app_assoc |].
    split; [left; eexists; now rewrite <- app_assoc | discriminate]. }
  pose proof (ExtractThemes_sends env g preReviews postReviews n2) as H3.
  destruct (Groq.ExtractThemes env g preReviews postReviews n2) as [[themes e3] n3].
  cbn [snd] in H3. rewrite H2 in H3.
  destruct e3 as [e |].
  { exists (scoringRequests env g preReviews ++ scoringRequests env g postReviews
            ++ [chatRequest env g (themesPromptOf preReviews postReviews)]).
    cbn [fst snd]. split; [now rewrite H3, <- !app_assoc |].
    split; [left; exists []; now rewrite app_nil_r | discriminate]. }
  match goal with
  | |- context [Groq.GenerateImpactSummary env g ?a ?b ?c n3] =>
      pose proof (GenerateImpactSummary_sends env g a b c n3) as H4;
      destruct (Groq.GenerateImpactSummary env g a b c n3) as [[impact e4] n4];
      set (final := chatRequest env g (Groq.impactPrompt env a b c)) in *
  end.
  cbn [snd] in H4. rewrite H3 in H4.
  exists ((scoringRequests env g preReviews ++ scoringRequests env g postReviews
           ++ [chatRequest env g (themesPromptOf preReviews postReviews)])
          ++ [final]).
  assert (Hsent : http.sent n4
                  = http.sent net
                    ++ (scoringRequests env g preReviews
                        ++ scoringRequests env g postReviews
                        ++ [chatRequest env g (themesPromptOf preReviews postReviews)])
                    ++ [final]).
  { rewrite H4, <- !app_assoc. reflexivity. }
  destruct e4 as [e |]; [| destruct impact as [impact |]]; cbn [fst snd];
    (split; [exact Hsent |]);
    (split; [right; eexists; reflexivity |]); try discriminate.
  intros result Heq. injection Heq as <-. reflexivity.
Qed.

(** ** Request boundary *)

Section HandlersMore.

Import api.

Context {W : Type}.

Lemma respondJSON_fields (w : ResponseWriter) (status : Z) (data : payload) :
  Written w = None ->
  respondJSON w status data
  = {| Header := filter (fun kv => kv.1 ≠ "Content-Type") (Header w)
                 ++ [("Content-Type", "application/json")];
       Written := Some status;
       Encoded := Encoded w ++ [data] |}.
Proof.
  intros Hw. unfold respondJSON, Encode, WriteHeader. cbn [Written HeaderSet].
  rewrite Hw. reflexivity.
Qed.

Lemma respondJSON_wellFormed (w : ResponseWriter) (status : Z) (data : payload) :
  Written w = None -> Encoded w = [] ->
  match data with
  | ErrorPayload e => Code e = status /\ 400 <= status < 600
  | _ => status = 200
  end ->
  wellFormedResponse (respondJSON w status data).
Proof.
  intros Hw He Hd. rewrite respondJSON_fields by exact Hw.
  exists status, data. cbn [Written Encoded Header]. rewrite He.
  repeat split; try reflexivity; [| exact Hd].
  apply elem_of_app. right. apply list_elem_of_here.
Qed.

Lemma respondError_wellFormed (w : ResponseWriter) (status : Z)
    (message details : string) :
  Written w = None -> Encoded w = [] -> 400 <= status < 600 ->
  wellFormedResponse (respondError w status message details).
Proof.
  intros Hw He Hs. apply respondJSON_wellFormed; [exact Hw | exact He |].
  split; [reflexivity | exact Hs].
Qed.

Lemma HeaderSet_other (key value : string) (w : ResponseWriter) (kv : string * string) :
  kv ∈ Header w -> kv.1 <> key -> kv ∈ Header (HeaderSet key value w).
Proof.
  intros Hin Hk. cbn [HeaderSet Header]. apply elem_of_app. left.
  apply list_elem_of_filter. split; assumption.
Qed.

Lemma HeaderSet_here (key value : string) (w : ResponseWriter) :
  (key, value) ∈ Header (HeaderSet key value w).
Proof. cbn [HeaderSet Header]. apply elem_of_app. right. apply list_elem_of_here. Qed.

Lemma respondJSON_Header (w : ResponseWriter) (status : Z) (data : payload) :
  Header (respondJSON w status data)
  = Header (HeaderSet "Content-Type" "application/json" w).
Proof.
  assert (Hwh : forall st v, Header (WriteHeader st v) = Header v).
  { intros st v. unfold WriteHeader. now destruct (Written v). }
  unfold respondJSON, Encode. cbn [Header]. now rewrite !Hwh.
Qed.

(** Every branch of the upload handler answers through [respondJSON]. *)
Lemma HandleUpload_responds (h : APIHandler W) (w : ResponseWriter) (r : Request) :
  exists (status : Z) (data : payload),
    (HandleUpload h w r).2 = respondJSON w status data /\
    match data with
    | ErrorPayload e => Code e = status /\ 400 <= status < 600
    | _ => status = 200
    end.
Proof.
  unfold HandleUpload, respondError.
  destruct (negb (String.eqb (Method r) MethodPost)).
  { eexists _, _. split; [reflexivity |]. cbn [Code]. now compute. }
  destruct (Multipart r) as [err | form].
  { eexists _, _. split; [reflexivity |]. cbn [Code]. now compute. }
  destruct (form "preLaunch") as [preLaunchFile |].
  2: { eexists _, _. split; [reflexivity |]. cbn [Code]. now compute. }
  destruct (parser h preLaunchFile) as [pre [err |]].
  { eexists _, _. split; [reflexivity |]. cbn [Code]. now compute. }
  destruct (form "postLaunch") as [postLaunchFile |].
  2: { eexists _, _. split; [reflexivity |]. cbn [Code]. now compute. }
  cbn [parser].
  destruct (parser h postLaunchFile) as [post [err |]].
  { eexists _, _. split; [reflexivity |]. cbn [Code]. now compute. }
  eexists _, _. split; reflexivity.
Qed.

Lemma len_eqb_0 {A : Type} (l : list A) : (goint.len l =? 0) = true <-> l = [].
Proof.
  unfold goint.len. destruct l as [| x l]; [now split |].
  split; [| discriminate]. intros Hl. apply Z.eqb_eq in Hl. simpl length in Hl. lia.
Qed.

Lemma HandleAnalyze_runs (h : APIHandler W) (w : ResponseWriter) (r : Request)
    (world : W) :
  Method r = MethodPost -> preReviews h <> [] -> postReviews h <> [] ->
  HandleAnalyze h w r world
  = (analysisResponse w (analysisService h (preReviews h) (postReviews h) world).1,
     (analysisService h (preReviews h) (postReviews h) world).2).
Proof.
  intros Hm Hpre Hpost. unfold HandleAnalyze. rewrite Hm, String.eqb_refl.
  cbn [negb].
  destruct (goint.len (preReviews h) =? 0) eqn:E1;
    [apply len_eqb_0 in E1; contradiction |].
  destruct (goint.len (postReviews h) =? 0) eqn:E2;
    [apply len_eqb_0 in E2; contradiction |].
  cbn [orb].
  destruct (analysisService h (preReviews h) (postReviews h) world)
    as [[[result [err |]] | msg] world']; reflexivity.
Qed.

Lemma HandleAnalyze_refuses (h : APIHandler W) (w : ResponseWriter) (r : Request)
    (world : W) :
  Method r = MethodPost -> preReviews h = [] \/ postReviews h = [] ->
  HandleAnalyze h w r world
  = (Returns (respondError w StatusBadRequest "Please upload CSV files first" ""),
     world).
Proof.
  intros Hm Hempty. unfold HandleAnalyze. rewrite Hm, String.eqb_refl. cbn [negb].
  destruct Hempty as [-> | ->]; [reflexivity |].
  now rewrite orb_true_r.
Qed.

End HandlersMore.

(** X24.  On a writer nothing was written to, every handler answers with one
    well-formed response: one status line, one JSON value, the JSON content
    type; an error value repeats the HTTP status as its code, and any other
    value comes with status 200. *)
Theorem X24_one_well_formed_response {W : Type} (h : api.APIHandler W)
    (w : api.ResponseWriter) (r : api.Request) (world : W) :
  api.Written w = None -> api.Encoded w = [] ->
  wellFormedResponse (api.HandleHealth h w r) /\
  wellFormedResponse (api.HandleUpload h w r).2 /\
  (forall out : api.ResponseWriter,
     (api.HandleAnalyze h w r world).1 = Returns out -> wellFormedResponse out).
Proof.
  intros Hw He. split; [| split].
  - unfold api.HandleHealth. now apply respondJSON_wellFormed.
  - destruct (HandleUpload_responds h w r) as (status & data & -> & Hd).
    now apply respondJSON_wellFormed.
  - intros out. unfold api.HandleAnalyze.
    destruct (negb (String.eqb (api.Method r) api.MethodPost)).
    { intros Heq. injection Heq as <-. apply respondError_wellFormed; try assumption.
      now compute. }
    destruct ((goint.len (api.preReviews h) =? 0)
              || (goint.len (api.postReviews h) =? 0)).
    { intros Heq. injection Heq as <-. apply respondError_wellFormed; try assumption.
      now compute. }
    destruct (api.analysisService h (api.preReviews h) (api.postReviews h) world)
      as [[[result [err |]] | msg] world']; cbn [fst]; [| | discriminate].
    + intros Heq. injection Heq as <-. apply respondError_wellFormed; try assumption.
      now compute.
    + intros Heq. injection Heq as <-. now apply respondJSON_wellFormed.
Qed.

Lemma X24_one_well_formed_response_witness :
  wellFormedResponse
    (api.HandleHealth (api.wired unreachableRuntime "now" "key") api.freshWriter
       {| api.Method := "GET"; api.Multipart := inr (fun _ => None) |}) /\
  wellFormedResponse
    (api.HandleUpload (api.wired unreachableRuntime "now" "key") api.freshWriter
       {| api.Method := "GET"; api.Multipart := inr (fun _ => None) |}).2 /\
  (forall out : api.ResponseWriter,
     (api.HandleAnalyze (api.wired unreachableRuntime "now" "key") api.freshWriter
        {| api.Method := "GET"; api.Multipart := inr (fun _ => None) |} idle).1
     = Returns out -> wellFormedResponse out).
Proof.
  apply (X24_one_well_formed_response (api.wired unreachableRuntime "now" "key")
           api.freshWriter
           {| api.Method := "GET"; api.Multipart := inr (fun _ => None) |} idle);
    reflexivity.
Defined.

(** X25.  An upload is not atomic.  When the pre-launch file parses and the
    post-launch file is missing, the request is answered with status 400,
    yet the handler keeps the new pre-launch reviews next to the post-launch
    reviews of an earlier upload, and a later analysis request runs the
    service on this mixed pair. *)
Theorem X25_rejected_upload_is_kept {W : Type} (h : api.APIHandler W)
    (w : api.ResponseWriter) (r : api.Request)
    (form : string -> option (list csv.line)) (file : list csv.line)
    (reviews : list Review) :
  api.Method r = api.MethodPost ->
  api.Multipart r = inr form ->
  form "preLaunch" = Some file ->
  api.parser h file = (reviews, None) ->
  form "postLaunch" = None ->
  api.Written w = None ->
  let out := api.HandleUpload h w r in
  api.Written out.2 = Some api.StatusBadRequest /\
  api.preReviews out.1 = reviews /\
  api.postReviews out.1 = api.postReviews h /\
  (forall (w2 : api.ResponseWriter) (r2 : api.Request) (world : W),
     api.Method r2 = api.MethodPost -> reviews <> [] -> api.postReviews h <> [] ->
     api.HandleAnalyze out.1 w2 r2 world
     = (analysisResponse w2
          (api.analysisService h reviews (api.postReviews h) world).1,
        (api.analysisService h reviews (api.postReviews h) world).2)).
Proof.
  intros Hm Hform Hpre Hparse Hpost Hw. cbv zeta.
  unfold api.HandleUpload. rewrite Hm, String.eqb_refl. cbn [negb].
  rewrite Hform, Hpre, Hparse, Hpost. cbn [fst snd].
  split; [unfold api.respondError; now rewrite respondJSON_fields |].
  split; [reflexivity |]. split; [reflexivity |].
  intros w2 r2 world Hm2 Hne1 Hne2.
  now rewrite HandleAnalyze_runs.
Qed.

Lemma X25_rejected_upload_is_kept_witness :
  let h := stubHandler [] [rated 1] in
  let out := api.HandleUpload h api.freshWriter
               (uploadOf (Some (ratingsFile ["5"])) None) in
  api.Written out.2 = Some api.StatusBadRequest /\
  api.preReviews out.1 = [rated 5] /\
  api.postReviews out.1 = api.postReviews h /\
  (forall (w2 : api.ResponseWriter) (r2 : api.Request) (world : unit),
     api.Method r2 = api.MethodPost -> [rated 5] <> [] -> api.postReviews h <> [] ->
     api.HandleAnalyze out.1 w2 r2 world
     = (analysisResponse w2
          (api.analysisService h [rated 5] (api.postReviews h) world).1,
        (api.analysisService h [rated 5] (api.postReviews h) world).2)).
Proof.
  apply (X25_rejected_upload_is_kept (stubHandler [] [rated 1]) api.freshWriter
           (uploadOf (Some (ratingsFile ["5"])) None)
           (formOf (Some (ratingsFile ["5"])) None) (ratingsFile ["5"]) [rated 5]);
    reflexivity.
Defined.


(** X26.  When the pre-launch file of an upload does not parse as CSV, the
    handler built on the CSV parser forgets the pre-launch reviews of any
    earlier upload, keeps the post-launch ones, and refuses every later
    analysis request with status 400 without calling the analysis
    service. *)
Theorem X26_failed_upload_clears {W : Type} (h : api.APIHandler W)
    (w : api.ResponseWriter) (r : api.Request)
    (form : string -> option (list csv.line)) (file : list csv.line) :
  api.parser h = ParseCSV ->
  api.Method r = api.MethodPost ->
  api.Multipart r = inr form ->
  form "preLaunch" = Some file ->
  (ParseCSV file).2 <> None ->
  let out := api.HandleUpload h w r in
  api.preReviews out.1 = [] /\
  api.postReviews out.1 = api.postReviews h /\
  (forall (w2 : api.ResponseWriter) (r2 : api.Request) (world : W),
     api.Method r2 = api.MethodPost ->
     api.HandleAnalyze out.1 w2 r2 world
     = (Returns (api.respondError w2 api.StatusBadRequest
                   "Please upload CSV files first" ""), world)).
Proof.
  intros Hp Hm Hform Hpre Hfail. cbv zeta.
  pose proof (ParseCSV_error_no_records file Hfail) as Hnil.
  unfold api.HandleUpload. rewrite Hm, String.eqb_refl. cbn [negb].
  rewrite Hform, Hpre, Hp.
  destruct (ParseCSV file) as [reviews [err |]]; [| now cbn in Hfail].
  cbn [fst snd] in *. subst reviews.
  split; [reflexivity |]. split; [reflexivity |].
  intros w2 r2 world Hm2. apply HandleAnalyze_refuses; [exact Hm2 | now left].
Qed.

Lemma X26_failed_upload_clears_witness :
  let h := stubHandler [rated 3] [rated 1] in
  let out := api.HandleUpload h api.freshWriter (uploadOf (Some []) None) in
  api.preReviews out.1 = [] /\
  api.postReviews out.1 = api.postReviews h /\
  (forall (w2 : api.ResponseWriter) (r2 : api.Request) (world : unit),
     api.Method r2 = api.MethodPost ->
     api.HandleAnalyze out.1 w2 r2 world
     = (Returns (api.respondError w2 api.StatusBadRequest
                   "Please upload CSV files first" ""), world)).
Proof.
  apply (X26_failed_upload_clears (stubHandler [rated 3] [rated 1]) api.freshWriter
           (uploadOf (Some []) None) (formOf (Some []) None) []);
    try reflexivity.
  discriminate.
Defined.


(** X27.  Upload and analysis compose: after an upload whose two files
    parse, the answer reports the two numbers of reviews, and a later
    analysis request hands exactly these two lists to the analysis service
    and answers from its outcome; when either file had no review, the
    upload is accepted all the same and the analysis is refused with status
    400 without calling the service. *)
Theorem X27_upload_then_analyze {W : Type} (h : api.APIHandler W)
    (w : api.ResponseWriter) (r : api.Request)
    (form : string -> option (list csv.line)) (preFile postFile : list csv.line)
    (pre post : list Review) :
  api.Method r = api.MethodPost ->
  api.Multipart r = inr form ->
  form "preLaunch" = Some preFile -> api.parser h preFile = (pre, None) ->
  form "postLaunch" = Some postFile -> api.parser h postFile = (post, None) ->
  let out := api.HandleUpload h w r in
  out.2 = api.respondJSON w api.StatusOK
            (api.UploadPayload
               {| api.Success := true;
                  api.PreLaunchCount := goint.len pre;
                  api.PostLaunchCount := goint.len post;
                  api.Message := "Files uploaded successfully. Ready for analysis." |}) /\
  (forall (w2 : api.ResponseWriter) (r2 : api.Request) (world : W),
     api.Method r2 = api.MethodPost ->
     api.HandleAnalyze out.1 w2 r2 world
     = match pre, post with
       | _ :: _, _ :: _ =>
           (analysisResponse w2 (api.analysisService h pre post world).1,
            (api.analysisService h pre post world).2)
       | _, _ =>
           (Returns (api.respondError w2 api.StatusBadRequest
                       "Please upload CSV files first" ""), world)
       end).
Proof.
  intros Hm Hform Hpre Hp1 Hpost Hp2. cbv zeta.
  unfold api.HandleUpload. rewrite Hm, String.eqb_refl. cbn [negb].
  rewrite Hform, Hpre, Hp1, Hpost. cbn [api.parser]. rewrite Hp2.
  cbn [fst snd api.preReviews api.postReviews].
  split; [reflexivity |].
  intros w2 r2 world Hm2.
  destruct pre as [| p pre]; [apply HandleAnalyze_refuses; [exact Hm2 | now left] |].
  destruct post as [| q post]; [apply HandleAnalyze_refuses; [exact Hm2 | now right] |].
  now rewrite HandleAnalyze_runs.
Qed.

Lemma X27_upload_then_analyze_witness :
  let h := stubHandler [] [] in
  let out := api.HandleUpload h api.freshWriter
               (uploadOf (Some (ratingsFile ["5"])) (Some (ratingsFile ["1"; "2"]))) in
  out.2 = api.respondJSON api.freshWriter api.StatusOK
            (api.UploadPayload
               {| api.Success := true;
                  api.PreLaunchCount := goint.len [rated 5];
                  api.PostLaunchCount := goint.len [rated 1; rated 2];
                  api.Message := "Files uploaded successfully. Ready for analysis." |}) /\
  (forall (w2 : api.ResponseWriter) (r2 : api.Request) (world : unit),
     api.Method r2 = api.MethodPost ->
     api.HandleAnalyze out.1 w2 r2 world
     = (analysisResponse w2
          (api.analysisService h [rated 5] [rated 1; rated 2] world).1,
        (api.analysisService h [rated 5] [rated 1; rated 2] world).2)).
Proof.
  apply (X27_upload_then_analyze (stubHandler [] []) api.freshWriter
           (uploadOf (Some (ratingsFile ["5"])) (Some (ratingsFile ["1"; "2"])))
           (formOf (Some (ratingsFile ["5"])) (Some (ratingsFile ["1"; "2"])))
           (ratingsFile ["5"]) (ratingsFile ["1"; "2"]) [rated 5] [rated 1; rated 2]);
    reflexivity.
Defined.


(** X28.  Behind the middleware, every answer of the upload route carries
    the three CORS headers, and a preflight request (method OPTIONS) is
    answered by the middleware alone: the handler is left as it was,
    nothing is encoded, and the status is 200. *)
Theorem X28_cors_upload_route {W : Type} (h : api.APIHandler W)
    (w : api.ResponseWriter) (r : api.Request) :
  let out := api.CORSMiddleware uploadRoute w r h in
  (forall kv : string * string, kv ∈ corsHeaders -> kv ∈ api.Header out.1) /\
  (api.Method r = api.MethodOptions ->
   out.2 = h /\ api.Encoded out.1 = api.Encoded w /\
   (api.Written w = None -> api.Written out.1 = Some api.StatusOK)).
Proof.
  cbv zeta. unfold api.CORSMiddleware.
  set (w1 := api.HeaderSet "Access-Control-Allow-Origin" "*" w).
  set (w2 := api.HeaderSet "Access-Control-Allow-Methods" _ w1).
  set (w3 := api.HeaderSet "Access-Control-Allow-Headers" "*" w2).
  assert (Hcors : forall kv, kv ∈ corsHeaders -> kv ∈ api.Header w3).
  { intros kv Hkv. unfold corsHeaders in Hkv.
    apply elem_of_cons in Hkv as [-> | Hkv].
    { apply HeaderSet_other; [apply HeaderSet_other; [apply HeaderSet_here |] |];
        discriminate. }
    apply elem_of_cons in Hkv as [-> | Hkv].
    { apply HeaderSet_other; [apply HeaderSet_here | discriminate]. }
    apply elem_of_cons in Hkv as [-> | Hkv]; [apply HeaderSet_here |].
    now apply elem_of_nil in Hkv. }
  destruct (String.eqb_spec (api.Method r) api.MethodOptions) as [Ho | Ho].
  - split.
    + intros kv Hkv. cbn [fst]. unfold api.WriteHeader.
      destruct (api.Written w3); now apply Hcors.
    + intros _. cbn [fst snd]. split; [reflexivity |].
      unfold api.WriteHeader. cbn [api.Written api.HeaderSet w1 w2 w3].
      destruct (api.Written w) eqn:Hw; cbn; split; try reflexivity; congruence.
  - split; [| contradiction].
    intros kv Hkv. unfold uploadRoute.
    destruct (HandleUpload_responds h w3 r) as (status & data & Hresp & _).
    destruct (api.HandleUpload h w3 r) as [h' w'] eqn:Hu. cbn [fst snd] in *.
    rewrite Hresp, respondJSON_Header.
    apply HeaderSet_other; [now apply Hcors |].
    unfold corsHeaders in Hkv.
    repeat (apply elem_of_cons in Hkv as [-> | Hkv]; [discriminate |]).
    now apply elem_of_nil in Hkv.
Qed.

(** X29.  The port is the integer the variable PORT denotes and 8080 when
    PORT is unset, empty or not an integer: the default text given to
    getEnv and the fallback of the failed conversion agree, so the variable
    alone decides. *)
Theorem X29_port_of_environment (environ : string -> string) :
  config.getPort environ
  = match strconv.Atoi (environ "PORT") with
    | (port, None) => port
    | (_, Some _) => 8080
    end.
Proof.
  unfold config.getPort, config.getEnv. cbv zeta.
  destruct (String.eqb_spec (environ "PORT") "") as [-> | Hne]; reflexivity.
Qed.
